(** * Node handles and property animation of the gui scene

    A shallow embedding of [gui/src/gui_script.cpp] (namespace [dmGui]): the
    script binding of the gui scene, its handle validation, deferred node
    deletion, the entry points of the property animation and the other
    entry points on nodes (properties, text, blend mode, texture, font,
    anchors, lookup by name).  The scene core
    itself ([gui.cpp]: node pool, animation update) is not part of the
    sources at hand; where a statement needs it, it is modelled from the
    written specification and marked as such. *)

From Stdlib Require Import ZArith QArith Lia Lqa String List Bool.
From stdpp Require Import base option list.

Local Open Scope Z_scope.

(** ** Machine integers *)

(** [(uint16_t) x] *)
Definition uint16 (x : Z) : Z := x mod 2 ^ 16.

(** [(uint32_t) x] *)
Definition uint32 (x : Z) : Z := x mod 2 ^ 32.

(** [typedef uint32_t HNode]: a version in the upper and an index in the
    lower half-word. *)
Definition HNode := Z.

(** ** Scene data

    The declarations ([gui.h], [gui_private.h]) are not among the sources.
    The records below hold the fields [gui_script.cpp] reads and writes,
    under their names in the code, and what section 3 of the specification
    adds to them. *)

(** A vector of four numbers; numbers are exact rationals throughout. *)
Record Vector4 := mkVector4 { getX : Q; getY : Q; getZ : Q; getW : Q }.

(** Modelled from the spec: the closed Property enumeration of section 3
    (position, rotation, scale, color, extents), numbered in the order in
    which [SETPROP] registers the constants in [InitializeScript] and closed
    by [PROPERTY_COUNT]. *)
Definition PROPERTY_POSITION : Z := 0.
Definition PROPERTY_ROTATION : Z := 1.
Definition PROPERTY_SCALE : Z := 2.
Definition PROPERTY_COLOR : Z := 3.
Definition PROPERTY_EXTENTS : Z := 4.
Definition PROPERTY_COUNT : Z := 5.

(** Modelled from the spec: the closed set of easing kinds of section 4.2
    (none, in, out, in-out), numbered in the order in which [SETEASING]
    registers them and closed by [EASING_COUNT]. *)
Definition EASING_NONE : Z := 0.
Definition EASING_IN : Z := 1.
Definition EASING_OUT : Z := 2.
Definition EASING_INOUT : Z := 3.
Definition EASING_COUNT : Z := 4.

Inductive NodeType := NODE_TYPE_BOX | NODE_TYPE_TEXT.

(** Modelled from the spec: the Node payload of section 3, with the field
    names of the code. *)
Record Node := mkNode {
  m_Properties : list Vector4;      (* Vector4 m_Properties[PROPERTY_COUNT] *)
  m_NodeType : NodeType;
  m_Text : option string;           (* const char*, 0 when unset *)
  m_Font : Z;                       (* opaque font reference *)
  m_Texture : Z;                    (* opaque texture reference *)
  m_BlendMode : Z;
  m_XAnchor : Z;
  m_YAnchor : Z
}.

(** Modelled from the spec: the Slot of section 3, a node with its version
    and the deferred delete flag.  [m_Index] is the field [IsValidNode]
    compares with the index of the handle. *)
Record InternalNode := mkInternalNode {
  m_Node : Node;
  m_Version : Z;                    (* uint16_t *)
  m_Index : Z;                      (* uint16_t *)
  m_Deleted : bool                  (* deferred delete flag, one bit *)
}.

(** [AnimationComplete]: the address of a completion function,
    [void (*)(HScene, HNode, void*, void*)].  The binding passes its own
    [LuaAnimationComplete] or the null pointer. *)
Inductive AnimationComplete := LuaAnimationCompleteFn.

(** Modelled from the spec: the Track of section 3 (the animation record of
    the absent [gui.cpp]): target handle and property, start and end value,
    easing kind, duration, remaining delay, elapsed time and the completion
    token; the completion function of the [AnimateNode] call is stored next
    to the two opaque words.  Times are exact rationals. *)
Record Track := mkTrack {
  t_Node : HNode;
  t_Property : Z;
  t_From : Vector4;
  t_To : Vector4;
  t_Easing : Z;
  t_Duration : Q;
  t_Delay : Q;
  t_Elapsed : Q;
  t_AnimationComplete : option AnimationComplete;
  t_Userdata1 : Z;                  (* void* *)
  t_Userdata2 : Z                   (* void* *)
}.

(** Modelled from the spec: the Scene of section 2, one node pool (slots and
    free list) and one scheduler (tracks), next to the two fields the binding
    reads. *)
Record Scene := mkScene {
  m_Nodes : list InternalNode;      (* dmArray<InternalNode> *)
  m_NodePool : list Z;              (* free slot indices, top first *)
  m_Animations : list Track;        (* in creation order *)
  m_DefaultFont : Z;
  m_SelfReference : Z               (* registry reference of the script instance *)
}.

Definition set_Nodes (nodes : list InternalNode) (scene : Scene) : Scene :=
  mkScene nodes (m_NodePool scene) (m_Animations scene)
          (m_DefaultFont scene) (m_SelfReference scene).

Definition set_Animations (anims : list Track) (scene : Scene) : Scene :=
  mkScene (m_Nodes scene) (m_NodePool scene) anims
          (m_DefaultFont scene) (m_SelfReference scene).

Definition set_Deleted (d : bool) (n : InternalNode) : InternalNode :=
  mkInternalNode (m_Node n) (m_Version n) (m_Index n) d.

Definition set_Properties (props : list Vector4) (n : Node) : Node :=
  mkNode props (m_NodeType n) (m_Text n) (m_Font n) (m_Texture n)
         (m_BlendMode n) (m_XAnchor n) (m_YAnchor n).

Definition set_Node (p : Node) (n : InternalNode) : InternalNode :=
  mkInternalNode p (m_Version n) (m_Index n) (m_Deleted n).

(** ** Handle validation *)

(** The two halves of a handle, as [IsValidNode] extracts them. *)
Definition handle_version (node : HNode) : Z := uint16 (Z.shiftr node 16).
Definition handle_index (node : HNode) : Z := Z.land node 0xffff.

(** [IsValidNode].  [m_Nodes[index]] is a checked array access (it asserts
    [index < Size()]); [None] stands for that assertion failing. *)
Definition IsValidNode (scene : Scene) (node : HNode) : option bool :=
  let version := uint16 (Z.shiftr node 16) in
  let index := Z.land node 0xffff in
  if index <? Z.of_nat (length (m_Nodes scene)) then
    match m_Nodes scene !! Z.to_nat index with
    | Some n => Some ((m_Version n =? version) && (m_Index n =? index))
    | None => None
    end
  else Some false.

(** The three conditions of the handle invariant, read off a scene.  The
    code keeps no separate occupied flag: a live slot stores its own index
    in [m_Index], and that is what [IsValidNode] tests. *)
Definition index_in_range (scene : Scene) (node : HNode) : Prop :=
  handle_index node < Z.of_nat (length (m_Nodes scene)).

Definition slot_occupied (scene : Scene) (index : Z) : Prop :=
  exists n, m_Nodes scene !! Z.to_nat index = Some n /\ m_Index n = index.

Definition slot_version (scene : Scene) (index : Z) (version : Z) : Prop :=
  exists n, m_Nodes scene !! Z.to_nat index = Some n /\ m_Version n = version.

(** Modelled from the spec: the packing of [(version, index)] into a handle
    word, done by the absent node allocation; the inverse of the decoding in
    [IsValidNode], truncated to the 32 bits of [HNode]. *)
Definition MakeHandle (version index : Z) : HNode :=
  uint32 (Z.lor (Z.shiftl version 16) index).

(** Modelled from the spec: [GetNode] of the absent [gui.cpp]
    ("Get(Handle) -> Node reference, fails with InvalidHandle if Validate is
    false"): the slot a valid handle addresses. *)
Definition GetNode (scene : Scene) (node : HNode) : option nat :=
  match IsValidNode scene node with
  | Some true => Some (Z.to_nat (handle_index node))
  | _ => None
  end.

(** ** The Lua side *)

(** [Scene*]: an address in the store of live scenes. *)
Definition HScene := nat.

(** [struct NodeProxy { HScene m_Scene; HNode m_Node; }], the payload of a
    node userdata. *)
Record NodeProxy := mkNodeProxy { proxy_Scene : HScene; proxy_Node : HNode }.

(** Lua values as the binding tells them apart.  A full userdata is known by
    the metatable it was created with. *)
Inductive LuaValue :=
| LNone                               (* no argument at that stack index *)
| LNil
| LBoolean (b : bool)
| LNumber (x : Q)
| LString (s : string)
| LTable (id : nat)
| LFunction (id : nat)
| LLightUserdata (p : Z)
| LNodeProxy (np : NodeProxy)         (* metatable NODE_PROXY_TYPE_NAME *)
| LVector3 (x y z : Q)                (* dmScript vector3 *)
| LVector4 (v : Vector4)              (* dmScript vector4 *)
| LUserdata (id : nat).               (* any other full userdata *)

Inductive LuaError :=
| ErrDeletedNode                      (* "Deleted node" *)
| ErrInvalidPropertyIndex (property : Z)   (* "Invalid property index: %d" *)
| ErrInvalidEasing (easing : Z)       (* "Invalid easing: %d" *)
| ErrType (narg : Z) (tname : string).     (* luaL_typerror: "<tname> expected" *)

Record LuaState := mkLuaState {
  lua_scenes : list Scene;            (* the scenes [HScene] pointers address *)
  lua_registry : list (option LuaValue);   (* integer references, ref r at r - 1 *)
  lua_scene_global : option HScene;   (* the global __scene__, None for 0x0 *)
  lua_called : list (LuaValue * list LuaValue)   (* script functions run so far *)
}.

Definition set_scenes (scenes : list Scene) (st : LuaState) : LuaState :=
  mkLuaState scenes (lua_registry st) (lua_scene_global st) (lua_called st).

Definition set_registry (reg : list (option LuaValue)) (st : LuaState) : LuaState :=
  mkLuaState (lua_scenes st) reg (lua_scene_global st) (lua_called st).

Definition set_scene_global (g : option HScene) (st : LuaState) : LuaState :=
  mkLuaState (lua_scenes st) (lua_registry st) g (lua_called st).

Definition set_called (c : list (LuaValue * list LuaValue)) (st : LuaState) : LuaState :=
  mkLuaState (lua_scenes st) (lua_registry st) (lua_scene_global st) c.

(** How a binding function ends: it returns, it raises a Lua error
    ([luaL_error] does not return), or it runs into an invalid memory access
    or a failed assertion. *)
Inductive LuaResult (A : Type) : Type :=
| Return (a : A) (st : LuaState)
| Raise (e : LuaError) (st : LuaState)
| Fault.

Arguments Return {A} a st.
Arguments Raise {A} e st.
Arguments Fault {A}.

Definition Lua (A : Type) : Type := LuaState -> LuaResult A.

#[global] Instance lua_ret : MRet Lua := fun A a st => Return a st.

#[global] Instance lua_bind : MBind Lua := fun A B k m st =>
  match m st with
  | Return a st' => k a st'
  | Raise e st' => Raise e st'
  | Fault => Fault
  end.

Definition luaL_error {A} (e : LuaError) : Lua A := fun st => Raise e st.

Definition luaL_typerror {A} (narg : Z) (tname : string) : Lua A :=
  luaL_error (ErrType narg tname).

Definition fault {A} : Lua A := fun _ => Fault.

Definition get_state : Lua LuaState := fun st => Return st st.

Definition modify_state (f : LuaState -> LuaState) : Lua unit :=
  fun st => Return tt (f st).

(** Dereference of a [Scene*]. *)
Definition read_scene (s : HScene) : Lua Scene := fun st =>
  match lua_scenes st !! s with
  | Some scene => Return scene st
  | None => Fault
  end.

Definition write_scene (s : HScene) (scene : Scene) : Lua unit :=
  modify_state (fun st => set_scenes (<[s := scene]> (lua_scenes st)) st).

(** [InternalNode*]: a slot of a scene's node array. *)
Definition NodeRef : Type := HScene * nat.

Definition read_node (r : NodeRef) : Lua InternalNode :=
  scene ← read_scene r.1;
  match m_Nodes scene !! r.2 with
  | Some n => mret n
  | None => fault
  end.

Definition write_node (r : NodeRef) (n : InternalNode) : Lua unit :=
  scene ← read_scene r.1;
  write_scene r.1 (set_Nodes (<[r.2 := n]> (m_Nodes scene)) scene).

(** The argument at stack index [i] (from 1). *)
Definition lua_arg (L : list LuaValue) (i : nat) : LuaValue :=
  nth (i - 1) L LNone.

(** [luaL_ref(L, LUA_REGISTRYINDEX)]: the value is stored under a free
    integer key, which is returned. *)
Fixpoint ref_alloc (v : LuaValue) (reg : list (option LuaValue))
  : nat * list (option LuaValue) :=
  match reg with
  | [] => (O, [Some v])
  | None :: reg' => (O, Some v :: reg')
  | Some w :: reg' =>
      let '(i, reg'') := ref_alloc v reg' in (S i, Some w :: reg'')
  end.

Definition LUA_NOREF : Z := -2.

Definition luaL_ref (v : LuaValue) : Lua Z := fun st =>
  let '(i, reg) := ref_alloc v (lua_registry st) in
  Return (Z.of_nat i + 1) (set_registry reg st).

(** [lua_rawgeti(L, LUA_REGISTRYINDEX, ref)]: the value stored under
    [ref], [nil] if there is none. *)
Definition registry_get (reg : list (option LuaValue)) (ref : Z) : LuaValue :=
  if 1 <=? ref
  then match reg !! Z.to_nat (ref - 1) with
       | Some (Some v) => v
       | _ => LNil
       end
  else LNil.

Definition lua_rawgeti (ref : Z) : Lua LuaValue := fun st =>
  Return (registry_get (lua_registry st) ref) st.

(** [lua_unref(L, ref)], that is [luaL_unref(L, LUA_REGISTRYINDEX, ref)].
    [lauxlib.c] is not among the sources, and what the registry holds after
    a release is not fixed here (Lua 5.1 links a released key into a free
    list it keeps in the table itself, from which [luaL_ref] takes its next
    key): [luaL_unref] is a parameter of the functions that release a
    reference. *)
Definition UnrefFn : Type := list (option LuaValue) -> Z -> list (option LuaValue).

Definition lua_unref (luaL_unref : UnrefFn) (ref : Z) : Lua unit :=
  modify_state (fun st => set_registry (luaL_unref (lua_registry st) ref) st).

Definition lua_isnone (v : LuaValue) : bool :=
  match v with LNone => true | _ => false end.

Definition lua_isfunction (v : LuaValue) : bool :=
  match v with LFunction _ => true | _ => false end.

(** The interpreter, as far as [lua_pcall] needs it: a call of the value
    [f] on [args] in a state gives [None] when [f] cannot be called, and
    otherwise the state the call leaves (a script may use every function of
    the library: start animations, delete nodes, take references) together
    with whether it ended without an error. *)
Definition ScriptFn : Type :=
  LuaValue -> list LuaValue -> LuaState -> option (LuaState * bool).

(** [lua_pcall(L, nargs, 0, 0)]: the result is 0 when the call ended
    without an error.  An error of the callee is caught and leaves the
    state the callee had reached; a value that cannot be called is an error
    too, and nothing runs.  A call that ran is recorded in [lua_called]. *)
Definition lua_pcall (script : ScriptFn) (f : LuaValue) (args : list LuaValue)
  : Lua Z := fun st =>
  match script f args st with
  | Some (st', ok) =>
      Return (if ok then 0 else 1) (set_called (lua_called st ++ [(f, args)]) st')
  | None => Return 1 st
  end.

(** [(int) x] on a [lua_Number]: truncation towards zero.  C defines the
    cast when the truncated value is an [int]; [to_int] is the cast there
    (see [fits_int]) and says nothing of the program beyond. *)
Definition to_int (x : Q) : Z := Z.quot (Qnum x) (Z.pos (Qden x)).

(** [Vector4(const Vector3&)]: the fourth component is zero. *)
Definition Vector4_of_Vector3 (x y z : Q) : Vector4 := mkVector4 x y z 0%Q.

(** [dmScript::IsVector3], [CheckVector3], [CheckVector4] (script library):
    type tests on the vector userdata. *)
Definition IsVector3 (v : LuaValue) : bool :=
  match v with LVector3 _ _ _ => true | _ => false end.

Definition CheckVector3 (L : list LuaValue) (narg : nat) : Lua Vector4 :=
  match lua_arg L narg with
  | LVector3 x y z => mret (Vector4_of_Vector3 x y z)
  | _ => luaL_typerror (Z.of_nat narg) "vector3"
  end.

Definition CheckVector4 (L : list LuaValue) (narg : nat) : Lua Vector4 :=
  match lua_arg L narg with
  | LVector4 v => mret v
  | _ => luaL_typerror (Z.of_nat narg) "vector4"
  end.

(** [NodeProxy_Check]: [luaL_checktype(L, index, LUA_TUSERDATA)] followed by
    [luaL_checkudata(L, index, NODE_PROXY_TYPE_NAME)]. *)
Definition NodeProxy_Check (L : list LuaValue) (index : nat) : Lua NodeProxy :=
  match lua_arg L index with
  | LNodeProxy np => mret np
  | LVector3 _ _ _ | LVector4 _ | LUserdata _ =>
      luaL_typerror (Z.of_nat index) "NodeProxy"
  | _ => luaL_typerror (Z.of_nat index) "userdata"
  end.

(** [LuaIsNode]: a userdata whose metatable is the registered node proxy
    metatable. *)
Definition LuaIsNode (L : list LuaValue) (ud : nat) : bool :=
  match lua_arg L ud with
  | LNodeProxy _ => true
  | _ => false
  end.

(** [LuaCheckNode]: the slot and the handle of the proxy at [index], or the
    error "Deleted node". *)
Definition LuaCheckNode (L : list LuaValue) (index : nat) : Lua (NodeRef * HNode) :=
  np ← NodeProxy_Check L index;
  scene ← read_scene (proxy_Scene np);
  match IsValidNode scene (proxy_Node np) with
  | Some true =>
      match GetNode scene (proxy_Node np) with
      | Some n => mret ((proxy_Scene np, n), proxy_Node np)
      | None => fault
      end
  | Some false => luaL_error ErrDeletedNode
  | None => fault
  end.

(** [NodeProxy_eq], the [__eq] metamethod; the pushed boolean is the
    result. *)
Definition NodeProxy_eq (L : list LuaValue) : Lua bool :=
  if negb (LuaIsNode L 1) then mret false
  else if negb (LuaIsNode L 2) then mret false
  else
    '(n1, hn1) ← LuaCheckNode L 1;
    '(n2, hn2) ← LuaCheckNode L 2;
    mret (hn1 =? hn2).

(** [LuaDeleteNode] *)
Definition LuaDeleteNode (L : list LuaValue) : Lua unit :=
  '(n, hnode) ← LuaCheckNode L 1;
  node ← read_node n;
  (* Set deferred delete flag *)
  write_node n (set_Deleted true node).

(** [LUAGETSET(name, property)]: the getter pushes the property vector. *)
Definition LuaGet (property : Z) (L : list LuaValue) : Lua Vector4 :=
  '(n, _) ← LuaCheckNode L 1;
  node ← read_node n;
  match m_Properties (m_Node node) !! Z.to_nat property with
  | Some v => mret v
  | None => fault
  end.

Definition LuaSet (property : Z) (L : list LuaValue) : Lua unit :=
  '(n, _) ← LuaCheckNode L 1;
  pos ← (if IsVector3 (lua_arg L 2) then CheckVector3 L 2 else CheckVector4 L 2);
  node ← read_node n;
  if (Z.to_nat property <? length (m_Properties (m_Node node)))%nat then
    write_node n (set_Node (set_Properties
      (<[Z.to_nat property := pos]> (m_Properties (m_Node node))) (m_Node node)) node)
  else fault.

(** The signatures of the two scene functions the animation entry points
    hand over to; both return nothing. *)
Definition AnimateNodeFn : Type :=
  Scene -> HNode -> Z -> Vector4 -> Z -> Q -> Q ->
  option AnimationComplete -> Z -> Z -> Scene.

Definition CancelAnimationFn : Type := Scene -> HNode -> Z -> Scene.

(** A call on the scene the global [__scene__] points to. *)
Definition on_scene (scene : option HScene) (f : Scene -> Scene) : Lua unit :=
  match scene with
  | Some s => sc ← read_scene s; write_scene s (f sc)
  | None => fault
  end.

Section Binding.

(** Lua's conversion of a string to a number ([lua_isnumber] and
    [lua_tonumber] accept convertible strings). *)
Variable luaO_str2d : string -> option Q.

Definition lua_tonumber (v : LuaValue) : option Q :=
  match v with
  | LNumber x => Some x
  | LString s => luaO_str2d s
  | _ => None
  end.

Definition lua_isnumber (v : LuaValue) : bool :=
  match lua_tonumber v with Some _ => true | None => false end.

Definition luaL_checknumber (L : list LuaValue) (narg : nat) : Lua Q :=
  match lua_tonumber (lua_arg L narg) with
  | Some x => mret x
  | None => luaL_typerror (Z.of_nat narg) "number"
  end.

(** [LuaAnimate].  The code narrows the duration and the delay to [float]
    on the way to [AnimateNode]; here they are handed over as they are,
    which is the code's behaviour on numbers that are [float] values (see
    [is_float]). *)
Definition LuaAnimate (AnimateNode : AnimateNodeFn) (L : list LuaValue) : Lua unit :=
  st ← get_state;
  let scene := lua_scene_global st in
  '(node, hnode) ← LuaCheckNode L 1;
  property ← luaL_checknumber L 2;
  let property := to_int property in
  to ← (if IsVector3 (lua_arg L 3) then CheckVector3 L 3 else CheckVector4 L 3);
  easing ← luaL_checknumber L 4;
  let easing := to_int easing in
  duration ← luaL_checknumber L 5;
  '(delay, node_ref, animation_complete_ref) ←
    match lua_tonumber (lua_arg L 6) with
    | Some delay =>
        if lua_isfunction (lua_arg L 7) then
          animation_complete_ref ← luaL_ref (lua_arg L 7);
          node_ref ← luaL_ref (lua_arg L 1);
          mret (delay, node_ref, animation_complete_ref)
        else mret (delay, LUA_NOREF, LUA_NOREF)
    | None =>
        if negb (lua_isnone (lua_arg L 6))
        then (* If argument 6 is specified is has to be a number *)
          luaL_typerror 6 "number"
        else mret (0%Q, LUA_NOREF, LUA_NOREF)
    end;
  _ ← (if PROPERTY_COUNT <=? property
       then luaL_error (ErrInvalidPropertyIndex property) else mret tt);
  _ ← (if EASING_COUNT <=? easing
       then luaL_error (ErrInvalidEasing easing) else mret tt);
  if animation_complete_ref =? LUA_NOREF then
    on_scene scene (fun sc =>
      AnimateNode sc hnode property to easing duration delay None 0 0)
  else
    on_scene scene (fun sc =>
      AnimateNode sc hnode property to easing duration delay
                  (Some LuaAnimationCompleteFn) animation_complete_ref node_ref).

(** [LuaCancelAnimation] *)
Definition LuaCancelAnimation (CancelAnimation : CancelAnimationFn)
  (L : list LuaValue) : Lua unit :=
  st ← get_state;
  let scene := lua_scene_global st in
  '(node, hnode) ← LuaCheckNode L 1;
  property ← luaL_checknumber L 2;
  let property := to_int property in
  _ ← (if PROPERTY_COUNT <=? property
       then luaL_error (ErrInvalidPropertyIndex property) else mret tt);
  on_scene scene (fun sc => CancelAnimation sc hnode property).

End Binding.

(** [LuaAnimationComplete]: the completion function handed to
    [AnimateNode].  It reads the two words back as registry references, runs
    the script function on the script instance and the node with
    [__scene__] set, and releases both references, also when the call
    failed (the failure is logged, which leaves no trace in the state). *)
Definition LuaAnimationComplete (script : ScriptFn) (luaL_unref : UnrefFn)
  (scene : HScene) (node : HNode) (userdata1 userdata2 : Z) : Lua unit :=
  sc ← read_scene scene;
  _ ← modify_state (set_scene_global (Some scene));
  let ref := userdata1 in
  let node_ref := userdata2 in
  f ← lua_rawgeti ref;
  self ← lua_rawgeti (m_SelfReference sc);
  n ← lua_rawgeti node_ref;
  ret ← lua_pcall script f [self; n];
  _ ← (if negb (ret =? 0)
       then (* dmLogError("Error running animation callback: %s") *) mret tt
       else mret tt);
  _ ← lua_unref luaL_unref ref;
  _ ← lua_unref luaL_unref node_ref;
  modify_state (set_scene_global None).

(** ** The scene core, from the specification

    [gui.cpp] is not among the sources: what follows is written from
    sections 3 to 7 of the specification.  Validation is the [IsValidNode]
    above; a slot is occupied when it stores its own index, and a freed slot
    stores another one ([free_index]). *)

(** Modelled from the spec: the error kinds of section 7 next to the
    [RESULT_OK] the binding compares against. *)
Inductive Result :=
| RESULT_OK | InvalidHandle | OutOfNodes | InvalidProperty | InvalidEasing.

(** Modelled from the spec: [Validate(Handle) -> bool] of section 4.1. *)
Definition Validate (scene : Scene) (h : HNode) : bool :=
  match IsValidNode scene h with
  | Some b => b
  | None => false
  end.

(** Modelled from the spec: the pending-delete flag of the node a handle
    addresses. *)
Definition pending_delete (scene : Scene) (h : HNode) : bool :=
  match m_Nodes scene !! Z.to_nat (handle_index h) with
  | Some n => m_Deleted n
  | None => false
  end.

(** Modelled from the spec: payload read and write behind a handle. *)
Definition get_property (scene : Scene) (h : HNode) (property : Z) : option Vector4 :=
  match m_Nodes scene !! Z.to_nat (handle_index h) with
  | Some n => m_Properties (m_Node n) !! Z.to_nat property
  | None => None
  end.

Definition set_property (scene : Scene) (h : HNode) (property : Z) (v : Vector4) : Scene :=
  match m_Nodes scene !! Z.to_nat (handle_index h) with
  | Some n =>
      set_Nodes (<[Z.to_nat (handle_index h) :=
                   set_Node (set_Properties
                     (<[Z.to_nat property := v]> (m_Properties (m_Node n)))
                     (m_Node n)) n]> (m_Nodes scene)) scene
  | None => scene
  end.

(** *** Node pool *)

(** Modelled from the spec: "payload defaults for kind" (the values are left
    open by the spec; all vectors are zero here). *)
Definition default_node (kind : NodeType) : Node :=
  mkNode (replicate (Z.to_nat PROPERTY_COUNT) (mkVector4 0 0 0 0)%Q)
         kind None 0 0 0 0 0.

(** Modelled from the spec: [Allocate(kind)] of section 4.1: takes the next
    free index, marks the slot occupied, keeps its version, sets the payload
    defaults; fails with [OutOfNodes] on an empty free list.  The zero
    handle "is never a valid allocation result" (section 3): the slot of
    index 0 cannot be handed out while its version is 0, and [Allocate]
    fails on it with [OutOfNodes], leaving the pool as it is; the binding
    reads a zero handle from [NewNode] in the same way. *)
Definition Allocate (kind : NodeType) (scene : Scene) : (HNode + Result) * Scene :=
  match m_NodePool scene with
  | [] => (inr OutOfNodes, scene)
  | index :: free =>
      match m_Nodes scene !! Z.to_nat index with
      | Some n =>
          if MakeHandle (m_Version n) index =? 0 then (inr OutOfNodes, scene)
          else
            (inl (MakeHandle (m_Version n) index),
             mkScene (<[Z.to_nat index :=
                        mkInternalNode (default_node kind) (m_Version n) index false]>
                      (m_Nodes scene))
                     free (m_Animations scene)
                     (m_DefaultFont scene) (m_SelfReference scene))
      | None => (inr OutOfNodes, scene)
      end
  end.

(** Modelled from the spec: [MarkDeleted(Handle)] of section 4.1: fails with
    [InvalidHandle] on an invalid handle, otherwise sets pending-delete. *)
Definition MarkDeleted (scene : Scene) (h : HNode) : Result * Scene :=
  if Validate scene h then
    match m_Nodes scene !! Z.to_nat (handle_index h) with
    | Some n =>
        (RESULT_OK,
         set_Nodes (<[Z.to_nat (handle_index h) := set_Deleted true n]>
                      (m_Nodes scene)) scene)
    | None => (InvalidHandle, scene)
    end
  else (InvalidHandle, scene).

(** Modelled from the spec: the index a free slot stores in place of its
    own: [0xffff], and 0 in the slot that has [0xffff] for its index. *)
Definition free_index (index : Z) : Z := if index =? 0xffff then 0 else 0xffff.

(** Modelled from the spec: [Sweep()] of section 4.1, slot by slot in index
    order: an occupied slot with pending-delete set loses its tracks, has
    its payload reset, its version incremented (a 16-bit counter, it wraps),
    its occupied mark cleared and its index returned to the free list. *)
Definition reclaim (n : InternalNode) : InternalNode :=
  mkInternalNode (default_node (m_NodeType (m_Node n)))
                 (uint16 (m_Version n + 1)) (free_index (m_Index n)) false.

Definition sweep_slot (scene : Scene) (i : nat) : Scene :=
  match m_Nodes scene !! i with
  | Some n =>
      if (m_Index n =? Z.of_nat i) && m_Deleted n then
        mkScene (<[i := reclaim n]> (m_Nodes scene))
                (Z.of_nat i :: m_NodePool scene)
                (filter (fun t => handle_index (t_Node t) <> Z.of_nat i)
                        (m_Animations scene))
                (m_DefaultFont scene) (m_SelfReference scene)
      else scene
  | None => scene
  end.

Definition Sweep (scene : Scene) : Scene :=
  foldl sweep_slot scene (seq 0 (length (m_Nodes scene))).

(** What [Sweep] makes of the node in slot [i], and whether it reclaims
    it. *)
Definition sweep_node (i : nat) (n : InternalNode) : InternalNode :=
  if (m_Index n =? Z.of_nat i) && m_Deleted n then reclaim n else n.

Definition reclaimable (scene : Scene) (i : nat) : bool :=
  match m_Nodes scene !! i with
  | Some n => (m_Index n =? Z.of_nat i) && m_Deleted n
  | None => false
  end.

(** The operations of the pool. *)
Inductive PoolOp :=
| OpAllocate (kind : NodeType)
| OpMarkDeleted (h : HNode)
| OpSweep.

Definition pool_op (op : PoolOp) (scene : Scene) : Scene :=
  match op with
  | OpAllocate kind => (Allocate kind scene).2
  | OpMarkDeleted h => (MarkDeleted scene h).2
  | OpSweep => Sweep scene
  end.

(** Two scenes with the same free list and, slot by slot, the same version,
    index and deferred delete flag. *)
Definition same_slots (scene scene' : Scene) : Prop :=
  m_NodePool scene' = m_NodePool scene /\
  length (m_Nodes scene') = length (m_Nodes scene) /\
  forall i n,
    m_Nodes scene !! i = Some n ->
    exists n', m_Nodes scene' !! i = Some n' /\
               m_Version n' = m_Version n /\
               m_Index n' = m_Index n /\
               m_Deleted n' = m_Deleted n.

(** *** Animation scheduler *)

(** Modelled from the spec: the track key, [(node index, Property)]. *)
Definition track_on (index property : Z) (t : Track) : bool :=
  (handle_index (t_Node t) =? index) && (t_Property t =? property).

Definition in_range (x count : Z) : bool := (0 <=? x) && (x <? count).

Definition Qmax0 (x : Q) : Q := if Qle_bool 0 x then x else 0%Q.

(** Modelled from the spec: [Start] of section 4.2.  The start value is the
    node's value at call time; a track on the same [(index, property)] is
    dropped; a negative delay is clamped to zero. *)
Definition Start (scene : Scene) (handle : HNode) (property : Z)
  (target_value : Vector4) (easing : Z) (duration delay : Q)
  (complete : option AnimationComplete) (userdata1 userdata2 : Z)
  : Result * Scene :=
  if negb (Validate scene handle) then (InvalidHandle, scene)
  else if negb (in_range property PROPERTY_COUNT) then (InvalidProperty, scene)
  else if negb (in_range easing EASING_COUNT) then (InvalidEasing, scene)
  else
    match get_property scene handle property with
    | Some start_value =>
        (RESULT_OK,
         set_Animations
           (filter (fun t => track_on (handle_index handle) property t = false)
                   (m_Animations scene)
            ++ [mkTrack handle property start_value target_value easing
                        duration (Qmax0 delay) 0%Q complete userdata1 userdata2])
           scene)
    | None => (InvalidProperty, scene)
    end.

(** Modelled from the spec: [AnimateNode] as the binding calls it, the
    result of [Start] dropped. *)
Definition AnimateNode : AnimateNodeFn :=
  fun scene node property to easing duration delay complete userdata1 userdata2 =>
    (Start scene node property to easing duration delay complete
           userdata1 userdata2).2.

(** Modelled from the spec: [Cancel] of section 4.2. *)
Definition CancelAnimation : CancelAnimationFn :=
  fun scene node property =>
    set_Animations
      (filter (fun t => track_on (handle_index node) property t = false)
              (m_Animations scene))
      scene.

(** Modelled from the spec: the Easing Library of section 2, pure curves on
    normalized time.  Linear easing is [e = t]; the other three curves are
    an implementation choice and are taken as given. *)
Record EasingLibrary := mkEasingLibrary {
  ease_in : Q -> Q;
  ease_out : Q -> Q;
  ease_inout : Q -> Q
}.

Definition easing_fn (E : EasingLibrary) (easing : Z) (t : Q) : Q :=
  if easing =? EASING_IN then ease_in E t
  else if easing =? EASING_OUT then ease_out E t
  else if easing =? EASING_INOUT then ease_inout E t
  else t.

Definition Qlt_bool (x y : Q) : bool := negb (Qle_bool y x).

Definition Qmin1 (x : Q) : Q := if Qle_bool x 1 then x else 1%Q.

Definition lerp1 (a b e : Q) : Q := (a + (b - a) * e)%Q.

Definition lerp (a b : Vector4) (e : Q) : Vector4 :=
  mkVector4 (lerp1 (getX a) (getX b) e) (lerp1 (getY a) (getY b) e)
            (lerp1 (getZ a) (getZ b) e) (lerp1 (getW a) (getW b) e).

Definition set_timing (delay elapsed : Q) (t : Track) : Track :=
  mkTrack (t_Node t) (t_Property t) (t_From t) (t_To t) (t_Easing t)
          (t_Duration t) delay elapsed
          (t_AnimationComplete t) (t_Userdata1 t) (t_Userdata2 t).

(** Modelled from the spec: one track's share of [Tick(dt)], section 4.2
    (a) to (c).  The accumulator holds the scene, the tracks kept so far and
    the tracks whose completion fires, both in order. *)
Definition tick_track (E : EasingLibrary) (dt : Q)
  (acc : Scene * list Track * list Track) (t : Track)
  : Scene * list Track * list Track :=
  let '(scene, kept, completed) := acc in
  if Qlt_bool 0 (t_Delay t) && Qlt_bool dt (t_Delay t) then
    (* (a) still within the delay *)
    (scene, kept ++ [set_timing (Qmax0 (t_Delay t - dt)) (t_Elapsed t) t], completed)
  else
    (* (b) the part of dt beyond the delay is elapsed time *)
    let elapsed := (t_Elapsed t + (dt - t_Delay t))%Q in
    let t' := set_timing 0%Q elapsed t in
    if negb (Validate scene (t_Node t)) || pending_delete scene (t_Node t) then
      (scene, kept, completed)
    else if Qle_bool (t_Duration t) 0 then
      (set_property scene (t_Node t) (t_Property t) (t_To t),
       kept, completed ++ [t'])
    else
      let tn := Qmin1 (elapsed / t_Duration t) in
      let e := easing_fn E (t_Easing t) tn in
      let scene1 :=
        set_property scene (t_Node t) (t_Property t) (lerp (t_From t) (t_To t) e) in
      if Qle_bool 1 tn then
        (* (c) the exact end value, the track removed, completion fired *)
        (set_property scene1 (t_Node t) (t_Property t) (t_To t),
         kept, completed ++ [t'])
      else (scene1, kept ++ [t'], completed).

(** Modelled from the spec: [Tick(dt)] over the tracks in creation order;
    returns the scene and the tracks that completed. *)
Definition Tick (E : EasingLibrary) (scene : Scene) (dt : Q) : Scene * list Track :=
  let '(scene', kept, completed) :=
    foldl (tick_track E dt) (scene, [], []) (m_Animations scene) in
  (set_Animations kept scene', completed).

(** The number of tracks of a list that sit on the pair [(index,
    property)], and the scheduler invariant of section 3. *)
Definition track_count (index property : Z) (l : list Track) : nat :=
  length (filter (fun t => track_on index property t = true) l).

Definition one_track_per_pair (scene : Scene) : Prop :=
  forall index property,
    (track_count index property (m_Animations scene) <= 1)%nat.

(** A track that is not on the pair [(index, property)] and whose own
    property is a valid array index. *)
Definition other_track (index property : Z) (t : Track) : Prop :=
  track_on index property t = false /\ 0 <= t_Property t.

(** The completion a track carries: its function and its two words. *)
Definition track_token (t : Track) : option AnimationComplete * Z * Z :=
  (t_AnimationComplete t, t_Userdata1 t, t_Userdata2 t).

(** Equality of vectors as numbers, component by component. *)
Definition Vector4_eq (v w : Vector4) : Prop :=
  (getX v == getX w /\ getY v == getY w /\
   getZ v == getZ w /\ getW v == getW w)%Q.

(** *** Scene *)

(** Modelled from the spec: [Update(dt)] of section 4.3, [Tick] then
    [Sweep]. *)
Definition Update (E : EasingLibrary) (scene : Scene) (dt : Q) : Scene * list Track :=
  let '(scene', completed) := Tick E scene dt in
  (Sweep scene', completed).

(** Modelled from the spec: the operations of section 6 that act on one
    scene, in sequence.  A run returns the scene and the tracks whose
    completion fired, in order. *)
Inductive SceneOp :=
| OStart (h : HNode) (property : Z) (target_value : Vector4) (easing : Z)
         (duration delay : Q) (complete : option AnimationComplete)
         (userdata1 userdata2 : Z)
| OCancel (h : HNode) (property : Z)
| OTick (dt : Q)
| OPool (op : PoolOp).

Definition scene_op (E : EasingLibrary) (op : SceneOp) (scene : Scene)
  : Scene * list Track :=
  match op with
  | OStart h property target_value easing duration delay complete u1 u2 =>
      ((Start scene h property target_value easing duration delay complete u1 u2).2,
       [])
  | OCancel h property => (CancelAnimation scene h property, [])
  | OTick dt => Tick E scene dt
  | OPool op => (pool_op op scene, [])
  end.

Fixpoint scene_run (E : EasingLibrary) (ops : list SceneOp) (scene : Scene)
  : Scene * list Track :=
  match ops with
  | [] => (scene, [])
  | op :: ops' =>
      let '(scene', completed) := scene_op E op scene in
      let '(scene'', completed') := scene_run E ops' scene' in
      (scene'', completed ++ completed')
  end.

(** How often a sequence of operations reclaims slot [i]. *)
Fixpoint reclaims (E : EasingLibrary) (i : nat) (ops : list SceneOp)
  (scene : Scene) : nat :=
  match ops with
  | [] => O
  | op :: ops' =>
      ((match op with
        | OPool OpSweep => if reclaimable scene i then 1 else 0
        | _ => 0
        end) + reclaims E i ops' (scene_op E op scene).1)%nat
  end.

(** Whether an operation starts a track on the pair [(index, property)]. *)
Definition starts_on (index property : Z) (op : SceneOp) : bool :=
  match op with
  | OStart h p _ _ _ _ _ _ _ => (handle_index h =? index) && (p =? property)
  | _ => false
  end.

(** ** Completion, from the core to the script

    The frame function of [gui.cpp] is not among the sources.  The
    specification has the core fire one dispatcher, registered with the
    scene, on [(handle, property, token)] (sections 4.2 (c) and 6); the
    binding hands [AnimateNode] a function of a scene, a node handle and
    two untyped words with every animation, or a null pointer.  The frame
    below follows the specification in when a completion fires and in what
    order, and the binding in what is fired and on what. *)

(** Modelled from the spec: the call a completed track gives rise to, by
    the type of the completion function: the function, if the track has
    one, on the node handle and the two stored words (and the scene it
    belongs to). *)
Record CompletionCall := mkCompletionCall {
  cc_Function : AnimationComplete;
  cc_Node : HNode;
  cc_Userdata1 : Z;
  cc_Userdata2 : Z
}.

(** Modelled from the spec: a track without a function gives rise to no
    call. *)
Definition completion_call (t : Track) : option CompletionCall :=
  match t_AnimationComplete t with
  | Some f => Some (mkCompletionCall f (t_Node t) (t_Userdata1 t) (t_Userdata2 t))
  | None => None
  end.

Section Frame.

Variable script : ScriptFn.
Variable luaL_unref : UnrefFn.

(** Modelled from the spec: the completion function of a call, run on the
    scene at address [s]. *)
Definition invoke (s : HScene) (c : CompletionCall) : Lua unit :=
  match cc_Function c with
  | LuaAnimationCompleteFn =>
      LuaAnimationComplete script luaL_unref
        s (cc_Node c) (cc_Userdata1 c) (cc_Userdata2 c)
  end.

(** Modelled from the spec: the calls of a frame, in the order of
    completion. *)
Fixpoint invoke_all (s : HScene) (calls : list CompletionCall) : Lua unit :=
  match calls with
  | [] => mret tt
  | c :: calls' => _ ← invoke s c; invoke_all s calls'
  end.

(** Modelled from the spec: the deferred deletion at the end of a frame,
    [Sweep] on the scene at address [s]. *)
Definition SweepScene (s : HScene) : Lua unit :=
  scene ← read_scene s;
  write_scene s (Sweep scene).

(** Modelled from the spec: [Update(dt)] of section 4.3 on the scene at
    address [s], with the completions fired: the tracks advance, the
    completion functions of the completed ones run in the order of
    completion, and what they start or delete is seen by the [Sweep] of this
    frame and by the next [Tick]. *)
Definition UpdateScene (E : EasingLibrary) (s : HScene) (dt : Q) : Lua unit :=
  scene ← read_scene s;
  let '(scene', completed) := Tick E scene dt in
  _ ← write_scene s scene';
  _ ← invoke_all s (omap completion_call completed);
  SweepScene s.

End Frame.

(** The two references [LuaAnimate] takes for a completion function and its
    node, and the registry they leave. *)
Definition animate_refs (st : LuaState) (L : list LuaValue)
  : Z * Z * list (option LuaValue) :=
  let '(i1, reg1) := ref_alloc (lua_arg L 7) (lua_registry st) in
  let '(i2, reg2) := ref_alloc (lua_arg L 1) reg1 in
  (Z.of_nat i1 + 1, Z.of_nat i2 + 1, reg2).

(** Validation of a proxy against the scene it points to, as
    [LuaCheckNode] performs it. *)
Definition proxy_valid (st : LuaState) (np : NodeProxy) : bool :=
  match lua_scenes st !! proxy_Scene np with
  | Some scene => Validate scene (proxy_Node np)
  | None => false
  end.

(** ** The remaining entry points

    The other functions [Gui_methods] and [NodeProxy_meta] register.  The
    scene functions they hand over to ([GetNodeById], [SetNodeTexture],
    [SetNodeFont], [SetNodeXAnchor], [SetNodeYAnchor], [NewNode],
    [SetNodeText]) are in the absent
    [gui.cpp] and are parameters, as [AnimateNode] is above. *)

Definition LIB_NAME : string := "gui".

Definition set_Text (text : option string) (n : Node) : Node :=
  mkNode (m_Properties n) (m_NodeType n) text (m_Font n) (m_Texture n)
         (m_BlendMode n) (m_XAnchor n) (m_YAnchor n).

Definition set_BlendMode (blend_mode : Z) (n : Node) : Node :=
  mkNode (m_Properties n) (m_NodeType n) (m_Text n) (m_Font n) (m_Texture n)
         blend_mode (m_XAnchor n) (m_YAnchor n).

Definition set_Font (font : Z) (n : Node) : Node :=
  mkNode (m_Properties n) (m_NodeType n) (m_Text n) font (m_Texture n)
         (m_BlendMode n) (m_XAnchor n) (m_YAnchor n).

(** What a [const char*] shows of a Lua string: the characters before the
    first zero byte (a Lua string may contain zero bytes; [strdup] and
    ["%s"] stop there). *)
Fixpoint c_str (s : string) : string :=
  match s with
  | EmptyString => EmptyString
  | String c s' =>
      if Ascii.eqb c Ascii.zero then EmptyString else String c (c_str s')
  end.

(** [lua_pushstring(L, s)]: [nil] for the null pointer. *)
Definition lua_pushstring (s : option string) : LuaValue :=
  match s with
  | Some s => LString s
  | None => LNil
  end.

(** [LuaGetText] *)
Definition LuaGetText (L : list LuaValue) : Lua LuaValue :=
  '(n, _) ← LuaCheckNode L 1;
  node ← read_node n;
  mret (lua_pushstring (m_Text (m_Node node))).

(** The signatures of the scene functions of this part. *)
Definition GetNodeByIdFn : Type := Scene -> string -> HNode.

Definition SetNodeResourceFn : Type := Scene -> HNode -> string -> Result * Scene.

Definition SetNodeAnchorFn : Type := Scene -> HNode -> Z -> Scene.

(** [NewNode] takes a [Point3] and a [Vector3], passed here as their three
    components (the fourth is zero), and returns the new handle, zero when
    there is none; [SetNodeText] takes a [const char*], null for no text. *)
Definition NewNodeFn : Type := Scene -> Vector4 -> Vector4 -> NodeType -> HNode * Scene.

Definition SetNodeTextFn : Type := Scene -> HNode -> option string -> Scene.

(** [luaL_error(L, fmt, ...)] with a format of its own: the message is kept
    as the format and its arguments.  The functions below raise such a
    message or an error of the functions above. *)
Inductive FormatArg :=
| FmtStr (s : string)                 (* %s *)
| FmtInt (d : Z).                     (* %d *)

Inductive LuaErrorF :=
| ErrBinding (e : LuaError)
| ErrFormat (fmt : string) (args : list FormatArg).

Inductive LuaResultF (A : Type) : Type :=
| ReturnF (a : A) (st : LuaState)
| RaiseF (e : LuaErrorF) (st : LuaState)
| FaultF.

Arguments ReturnF {A} a st.
Arguments RaiseF {A} e st.
Arguments FaultF {A}.

Definition LuaF (A : Type) : Type := LuaState -> LuaResultF A.

#[global] Instance luaF_ret : MRet LuaF := fun A a st => ReturnF a st.

#[global] Instance luaF_bind : MBind LuaF := fun A B k m st =>
  match m st with
  | ReturnF a st' => k a st'
  | RaiseF e st' => RaiseF e st'
  | FaultF => FaultF
  end.

(** A computation of the functions above, run among these. *)
Definition liftF {A} (m : Lua A) : LuaF A := fun st =>
  match m st with
  | Return a st' => ReturnF a st'
  | Raise e st' => RaiseF (ErrBinding e) st'
  | Fault => FaultF
  end.

Definition luaL_errorf {A} (fmt : string) (args : list FormatArg) : LuaF A :=
  fun st => RaiseF (ErrFormat fmt args) st.

Definition faultF {A} : LuaF A := fun _ => FaultF.

Section Entry_points.

Variable luaO_str2d : string -> option Q.

(** Lua's conversion of a number to a string ([lua_number2str], the format
    ["%.14g"]). *)
Variable lua_number2str : Q -> string.

(** [lua_tostring], [luaL_checkstring]: strings, and numbers converted; the
    result is a [const char*]. *)
Definition lua_tostring (v : LuaValue) : option string :=
  match v with
  | LString s => Some (c_str s)
  | LNumber x => Some (c_str (lua_number2str x))
  | _ => None
  end.

Definition luaL_checkstring (L : list LuaValue) (narg : nat) : Lua string :=
  match lua_tostring (lua_arg L narg) with
  | Some s => mret s
  | None => luaL_typerror (Z.of_nat narg) "string"
  end.

(** [lua_pushfstring(L, "...@(%f, %f, %f)", ...)]: a ["%f"] is formatted as
    Lua formats a number. *)
Definition format_position (name : string) (pos : Vector4) : string :=
  (name ++ "@(" ++ lua_number2str (getX pos) ++ ", "
        ++ lua_number2str (getY pos) ++ ", "
        ++ lua_number2str (getZ pos) ++ ")")%string.

(** [NodeProxy_tostring]; a null [m_Text] under ["%s"] reads ["(null)"].
    The node type has the two kinds the binding creates; the [default]
    branch of the [switch] has no counterpart. *)
Definition NodeProxy_tostring (L : list LuaValue) : Lua string :=
  '(n, _) ← LuaCheckNode L 1;
  node ← read_node n;
  match m_Properties (m_Node node) !! Z.to_nat PROPERTY_POSITION with
  | Some pos =>
      match m_NodeType (m_Node node) with
      | NODE_TYPE_BOX => mret (format_position "box" pos)
      | NODE_TYPE_TEXT =>
          mret (format_position
                  (match m_Text (m_Node node) with
                   | Some s => s
                   | None => "(null)"
                   end) pos)
      end
  | None => fault
  end.

(** [NodeProxy_index], [NodeProxy_newindex] *)
Definition NodeProxy_index (L : list LuaValue) : LuaF unit :=
  '(n, _) ← liftF (LuaCheckNode L 1);
  key ← liftF (luaL_checkstring L 2);
  luaL_errorf "Illegal operation, try %s.get_%s(<node>)" [FmtStr LIB_NAME; FmtStr key].

Definition NodeProxy_newindex (L : list LuaValue) : LuaF unit :=
  '(n, hnode) ← liftF (LuaCheckNode L 1);
  key ← liftF (luaL_checkstring L 2);
  luaL_errorf "Illegal operation, try %s.set_%s(<node>, <value>)"
              [FmtStr LIB_NAME; FmtStr key].

(** [LuaGetNode] *)
Definition LuaGetNode (GetNodeById : GetNodeByIdFn) (L : list LuaValue)
  : LuaF NodeProxy :=
  st ← liftF get_state;
  let scene := lua_scene_global st in
  name ← liftF (luaL_checkstring L 1);
  match scene with
  | Some s =>
      sc ← liftF (read_scene s);
      let node := GetNodeById sc name in
      _ ← (if node =? 0
           then luaL_errorf "No such node: %s" [FmtStr name] else mret tt);
      mret (mkNodeProxy s node)
  | None => faultF
  end.

(** [LuaSetText]: the text is copied with [strdup]. *)
Definition LuaSetText (L : list LuaValue) : Lua unit :=
  '(n, hnode) ← LuaCheckNode L 1;
  text ← luaL_checkstring L 2;
  node ← read_node n;
  write_node n (set_Node (set_Text (Some text) (m_Node node)) node).

(** What the field [m_BlendMode] keeps of an [int]: its declaration is in
    [gui.h], which is not among the sources. *)
Variable BlendMode_of_int : Z -> Z.

(** [LuaGetBlendMode], [LuaSetBlendMode] *)
Definition LuaGetBlendMode (L : list LuaValue) : Lua Q :=
  '(n, _) ← LuaCheckNode L 1;
  node ← read_node n;
  mret (inject_Z (m_BlendMode (m_Node node))).

Definition LuaSetBlendMode (L : list LuaValue) : Lua unit :=
  '(n, hnode) ← LuaCheckNode L 1;
  x ← luaL_checknumber luaO_str2d L 2;
  let blend_mode := to_int x in
  node ← read_node n;
  write_node n (set_Node (set_BlendMode (BlendMode_of_int blend_mode) (m_Node node)) node).

(** A call on the scene the global [__scene__] points to, with a result. *)
Definition on_scene_result (scene : option HScene) (f : Scene -> Result * Scene)
  : Lua Result :=
  match scene with
  | Some s => sc ← read_scene s; _ ← write_scene s (f sc).2; mret (f sc).1
  | None => fault
  end.

(** [LuaSetTexture], [LuaSetFont] *)
Definition LuaSetTexture (SetNodeTexture : SetNodeResourceFn) (L : list LuaValue)
  : LuaF unit :=
  '(n, hnode) ← liftF (LuaCheckNode L 1);
  texture_name ← liftF (luaL_checkstring L 2);
  st ← liftF get_state;
  let scene := lua_scene_global st in
  r ← liftF (on_scene_result scene (fun sc => SetNodeTexture sc hnode texture_name));
  match r with
  | RESULT_OK => mret tt
  | _ => luaL_errorf "Texture %s is not specified in scene" [FmtStr texture_name]
  end.

Definition LuaSetFont (SetNodeFont : SetNodeResourceFn) (L : list LuaValue)
  : LuaF unit :=
  '(n, hnode) ← liftF (LuaCheckNode L 1);
  font_name ← liftF (luaL_checkstring L 2);
  st ← liftF get_state;
  let scene := lua_scene_global st in
  r ← liftF (on_scene_result scene (fun sc => SetNodeFont sc hnode font_name));
  match r with
  | RESULT_OK => mret tt
  | _ => luaL_errorf "Font %s is not specified in scene" [FmtStr font_name]
  end.

(** The anchor constants of [gui.h]. *)
Variables XANCHOR_LEFT XANCHOR_RIGHT YANCHOR_TOP YANCHOR_BOTTOM : Z.

(** [LuaSetXAnchor], [LuaSetYAnchor] *)
Definition LuaSetXAnchor (SetNodeXAnchor : SetNodeAnchorFn) (L : list LuaValue)
  : LuaF unit :=
  '(n, hnode) ← liftF (LuaCheckNode L 1);
  x ← liftF (luaL_checknumber luaO_str2d L 2);
  let anchor := to_int x in
  _ ← (if negb (anchor =? XANCHOR_LEFT) && negb (anchor =? XANCHOR_RIGHT)
       then luaL_errorf "Invalid x-anchor: %d" [FmtInt anchor] else mret tt);
  st ← liftF get_state;
  let scene := lua_scene_global st in
  liftF (on_scene scene (fun sc => SetNodeXAnchor sc hnode anchor)).

Definition LuaSetYAnchor (SetNodeYAnchor : SetNodeAnchorFn) (L : list LuaValue)
  : LuaF unit :=
  '(n, hnode) ← liftF (LuaCheckNode L 1);
  x ← liftF (luaL_checknumber luaO_str2d L 2);
  let anchor := to_int x in
  _ ← (if negb (anchor =? YANCHOR_TOP) && negb (anchor =? YANCHOR_BOTTOM)
       then luaL_errorf "Invalid y-anchor: %d" [FmtInt anchor] else mret tt);
  st ← liftF get_state;
  let scene := lua_scene_global st in
  liftF (on_scene scene (fun sc => SetNodeYAnchor sc hnode anchor)).

(** [LuaDoNewNode]; [Capacity] is [m_Nodes.Capacity()], the allocated size
    of the node array. *)
Definition LuaDoNewNode (NewNode : NewNodeFn) (SetNodeText : SetNodeTextFn)
  (Capacity : Scene -> Z) (pos ext : Vector4) (node_type : NodeType)
  (text : option string) : LuaF NodeProxy :=
  st ← liftF get_state;
  match lua_scene_global st with
  | Some s =>
      sc ← liftF (read_scene s);
      let '(node, sc1) := NewNode sc pos ext node_type in
      _ ← liftF (write_scene s sc1);
      _ ← (if node =? 0
           then luaL_errorf "Out of nodes (max %d)" [FmtInt (Capacity sc1)]
           else mret tt);
      match GetNode sc1 node with
      | Some i =>
          n ← liftF (read_node (s, i));
          _ ← liftF (write_node (s, i)
                       (set_Node (set_Font (m_DefaultFont sc1) (m_Node n)) n));
          sc2 ← liftF (read_scene s);
          _ ← liftF (write_scene s (SetNodeText sc2 node text));
          mret (mkNodeProxy s node)
      | None => faultF
      end
  | None => faultF
  end.

(** [LuaNewBoxNode], [LuaNewTextNode] *)
Definition LuaNewBoxNode (NewNode : NewNodeFn) (SetNodeText : SetNodeTextFn)
  (Capacity : Scene -> Z) (L : list LuaValue) : LuaF NodeProxy :=
  pos ← liftF (CheckVector3 L 1);
  ext ← liftF (CheckVector3 L 2);
  LuaDoNewNode NewNode SetNodeText Capacity pos ext NODE_TYPE_BOX None.

Definition LuaNewTextNode (NewNode : NewNodeFn) (SetNodeText : SetNodeTextFn)
  (Capacity : Scene -> Z) (L : list LuaValue) : LuaF NodeProxy :=
  pos ← liftF (CheckVector3 L 1);
  let ext := Vector4_of_Vector3 1 1 1 in
  text ← liftF (luaL_checkstring L 2);
  LuaDoNewNode NewNode SetNodeText Capacity pos ext NODE_TYPE_TEXT (Some text).

End Entry_points.

(** ** Shapes of a computation

    A check leaves the state as it found it; a function whose checks come
    before its effects leaves the state as it found it whenever it raises. *)
Definition keeps_state {A} (m : Lua A) : Prop :=
  forall st,
    match m st with
    | Return _ st' | Raise _ st' => st' = st
    | Fault => True
    end.

Definition raise_keeps_state {A} (m : Lua A) : Prop :=
  forall st e st', m st = Raise e st' -> st' = st.

Definition raise_keeps_stateF {A} (m : LuaF A) : Prop :=
  forall st e st', m st = RaiseF e st' -> st' = st.

(** The outcome of a computation that kept its state, as it reads in
    another state. *)
Definition in_state {A} (st' : LuaState) (r : LuaResult A) : LuaResult A :=
  match r with
  | Return a _ => Return a st'
  | Raise e _ => Raise e st'
  | Fault => Fault
  end.

(** The vector a setter takes from its argument: a vector4 as it is, a
    vector3 with a fourth component of zero. *)
Definition vector_argument (v : LuaValue) : option Vector4 :=
  match v with
  | LVector3 x y z => Some (Vector4_of_Vector3 x y z)
  | LVector4 v => Some v
  | _ => None
  end.

(** ** Numbers

    A [lua_Number] is cast to [int] and to [float] on its way into the
    scene.  Both casts are modelled where they keep the value. *)

(** The range of [int]. *)
Definition INT_MIN : Z := - 2 ^ 31.

Definition INT_MAX : Z := 2 ^ 31 - 1.

(** The numbers whose integer part is an [int]: on them [(int) x] is
    [to_int x]. *)
Definition fits_int (x : Q) : Prop := INT_MIN <= to_int x <= INT_MAX.

(** The finite values of [float] (IEEE 754 binary32): [m * 2^e] with
    [|m| < 2^24] and [-149 <= e <= 104].  On them [(float) x] is [x]. *)
Definition is_float (x : Q) : Prop :=
  exists m e : Z,
    Z.abs m < 2 ^ 24 /\ -149 <= e <= 104 /\ (x == inject_Z m * 2 ^ e)%Q.

(** ** A small scene to run the code on

    Two slots: slot 0 holds a live box node of version 1, slot 1 a live box
    node of version [0xffff] that is marked for deletion.  The scene sits at
    address 0 and is the current [__scene__]. *)
Definition example_scene : Scene :=
  mkScene [mkInternalNode (default_node NODE_TYPE_BOX) 1 0 false;
           mkInternalNode (default_node NODE_TYPE_BOX) 0xffff 1 true]
          [] [] 0 0.

Definition example_state : LuaState :=
  mkLuaState [example_scene] [] (Some O) [].

Definition example_node : HNode := MakeHandle 1 0.

Definition example_old_node : HNode := MakeHandle 0xffff 1.

Definition example_proxy : LuaValue := LNodeProxy (mkNodeProxy O example_node).

(** A proxy of slot 0 with a version the slot does not have. *)
Definition example_stale_proxy : LuaValue :=
  LNodeProxy (mkNodeProxy O (MakeHandle 2 0)).

(** An interpreter to run a frame with: a function is called and returns
    without an effect, any other value cannot be called; and a release that
    drops the value. *)
Definition example_script : ScriptFn := fun f args st =>
  match f with
  | LFunction _ => Some (st, true)
  | _ => None
  end.

Definition example_unref : UnrefFn := fun reg ref =>
  if 1 <=? ref then <[Z.to_nat (ref - 1) := None]> reg else reg.

(** A stand-in for Lua's number formatting. *)
Definition example_number2str : Q -> string :=
  fun x => (if Qeq_bool x 0 then "0" else "1")%string.

(** An easing library to run the scheduler with (quadratic curves). *)
Definition example_easing : EasingLibrary :=
  mkEasingLibrary (fun t => t * t)%Q (fun t => t * (2 - t))%Q
                  (fun t => if Qle_bool t (1 # 2) then 2 * t * t
                            else 1 - 2 * (1 - t) * (1 - t))%Q.

(** * Properties *)

(** ** Half-words of a handle *)

Lemma handle_index_mod (h : HNode) : handle_index h = h mod 2 ^ 16.
Proof.
  unfold handle_index. change 0xffff with (Z.ones 16).
  apply Z.land_ones. lia.
Qed.

Lemma handle_index_bounds (h : HNode) : 0 <= handle_index h < 2 ^ 16.
Proof. rewrite handle_index_mod. apply Z.mod_pos_bound. lia. Qed.

Lemma handle_version_div (h : HNode) : handle_version h = (h / 2 ^ 16) mod 2 ^ 16.
Proof.
  unfold handle_version, uint16. rewrite Z.shiftr_div_pow2 by lia. reflexivity.
Qed.

Lemma handle_version_bounds (h : HNode) : 0 <= handle_version h < 2 ^ 16.
Proof. rewrite handle_version_div. apply Z.mod_pos_bound. lia. Qed.

Lemma lor_shiftl_16 (v i : Z) :
  0 <= i < 2 ^ 16 -> Z.lor (Z.shiftl v 16) i = v * 2 ^ 16 + i.
Proof.
  intros Hi.
  assert (Hdisj : Z.land (Z.shiftl v 16) i = 0).
  { apply Z.bits_inj'. intros n Hn.
    rewrite Z.land_spec, Z.bits_0.
    destruct (Z.lt_ge_cases n 16) as [Hlt | Hge].
    - rewrite Z.shiftl_spec_low by lia. reflexivity.
    - destruct (Z.eq_dec i 0) as [-> | Hnz].
      + rewrite Z.bits_0. apply andb_false_r.
      + rewrite (Z.bits_above_log2 i n); [apply andb_false_r | lia |].
        apply Z.lt_le_trans with 16; [| lia].
        apply Z.log2_lt_pow2; lia. }
  rewrite <- Z.lxor_lor by exact Hdisj.
  rewrite <- Z.add_nocarry_lxor by exact Hdisj.
  rewrite Z.shiftl_mul_pow2 by lia. reflexivity.
Qed.

Lemma MakeHandle_value (v i : Z) :
  0 <= i < 2 ^ 16 -> MakeHandle v i = (v mod 2 ^ 16) * 2 ^ 16 + i.
Proof.
  intros Hi. unfold MakeHandle, uint32.
  rewrite lor_shiftl_16 by exact Hi.
  change (2 ^ 32) with (2 ^ 16 * 2 ^ 16).
  rewrite Z.rem_mul_r by lia.
  replace (v * 2 ^ 16 + i) with (i + v * 2 ^ 16) by lia.
  rewrite Z.mod_add by lia. rewrite Z.div_add by lia.
  rewrite (Z.mod_small i) by lia. rewrite (Z.div_small i) by lia.
  rewrite Z.add_0_l. lia.
Qed.

Lemma handle_index_MakeHandle (v i : Z) :
  0 <= i < 2 ^ 16 -> handle_index (MakeHandle v i) = i.
Proof.
  intros Hi. rewrite handle_index_mod, MakeHandle_value by exact Hi.
  rewrite Z.add_comm, Z.mod_add by lia. apply Z.mod_small. lia.
Qed.

Lemma handle_version_MakeHandle (v i : Z) :
  0 <= i < 2 ^ 16 -> handle_version (MakeHandle v i) = v mod 2 ^ 16.
Proof.
  intros Hi. rewrite handle_version_div, MakeHandle_value by exact Hi.
  rewrite Z.add_comm, Z.div_add by lia.
  rewrite (Z.div_small i) by lia. rewrite Z.add_0_l.
  apply Z.mod_mod. lia.
Qed.

Lemma MakeHandle_decode (h : HNode) :
  0 <= h < 2 ^ 32 -> MakeHandle (handle_version h) (handle_index h) = h.
Proof.
  intros Hh.
  rewrite MakeHandle_value by apply handle_index_bounds.
  rewrite handle_version_div, handle_index_mod.
  rewrite Z.mod_mod by lia.
  rewrite (Z.mod_small (h / 2 ^ 16)).
  - pose proof (Z.div_mod h (2 ^ 16)). lia.
  - split; [apply Z.div_pos; lia |].
    apply Z.div_lt_upper_bound; lia.
Qed.

(** ** Validation *)

Lemma IsValidNode_total (scene : Scene) (h : HNode) :
  exists b, IsValidNode scene h = Some b.
Proof.
  unfold IsValidNode.
  destruct (Z.ltb_spec (Z.land h 0xffff) (Z.of_nat (length (m_Nodes scene))))
    as [Hlt | Hge]; [| eauto].
  pose proof (handle_index_bounds h) as Hb. unfold handle_index in Hb.
  destruct (lookup_lt_is_Some_2 (m_Nodes scene) (Z.to_nat (Z.land h 0xffff)))
    as [n Hn]; [lia |].
  rewrite Hn. eauto.
Qed.

Lemma IsValidNode_true (scene : Scene) (h : HNode) :
  IsValidNode scene h = Some true <->
  exists n, m_Nodes scene !! Z.to_nat (handle_index h) = Some n /\
            m_Version n = handle_version h /\ m_Index n = handle_index h.
Proof.
  unfold IsValidNode. fold (handle_index h). fold (handle_version h).
  pose proof (handle_index_bounds h) as Hb.
  split.
  - destruct (Z.ltb_spec (handle_index h) (Z.of_nat (length (m_Nodes scene))));
      [| discriminate].
    destruct (m_Nodes scene !! Z.to_nat (handle_index h)) as [n |];
      [| discriminate].
    intros [= Hv]. apply andb_true_iff in Hv as [Hv Hi].
    exists n. repeat split; lia.
  - intros (n & Hn & Hv & Hi).
    pose proof (lookup_lt_Some _ _ _ Hn) as Hlen.
    destruct (Z.ltb_spec (handle_index h) (Z.of_nat (length (m_Nodes scene))));
      [| lia].
    rewrite Hn, Hv, Hi, !Z.eqb_refl. reflexivity.
Qed.

(** C1.  [IsValidNode] always returns a boolean (its array access never
    fails), and the boolean is true exactly when the handle's index is in
    range of the node array, the addressed slot is occupied and the slot's
    version equals the handle's version. *)
Theorem IsValidNode_iff_in_range_occupied_version (scene : Scene) (h : HNode) :
  exists b, IsValidNode scene h = Some b /\
    (b = true <->
     index_in_range scene h /\
     slot_occupied scene (handle_index h) /\
     slot_version scene (handle_index h) (handle_version h)).
Proof.
  destruct (IsValidNode_total scene h) as [b Hb].
  exists b. split; [exact Hb |].
  unfold index_in_range, slot_occupied, slot_version.
  pose proof (handle_index_bounds h) as Hi.
  split.
  - intros ->. apply IsValidNode_true in Hb as (n & Hn & Hv & Hx).
    pose proof (lookup_lt_Some _ _ _ Hn).
    split; [lia | split; exists n; split; assumption].
  - intros (_ & (n & Hn & Hx) & (n' & Hn' & Hv)).
    rewrite Hn in Hn'. injection Hn' as <-.
    assert (IsValidNode scene h = Some true) as Ht
      by (apply IsValidNode_true; eauto).
    congruence.
Qed.

(** C9.  For a 32-bit handle word, validation reads the version from the
    upper and the index from the lower 16 bits; the handle is valid exactly
    when the slot at the lower half-word stores the upper half-word as its
    version and the lower as its index; and adding any multiple of 2^16 to
    the version packs to the same word, which validation cannot tell
    apart. *)
Theorem IsValidNode_decodes_halfwords (scene : Scene) (h : HNode) (k : Z)
  (Hh : 0 <= h < 2 ^ 32) :
  handle_version h = h / 2 ^ 16 /\
  handle_index h = h mod 2 ^ 16 /\
  0 <= h / 2 ^ 16 < 2 ^ 16 /\
  (IsValidNode scene h = Some true <->
   exists n, m_Nodes scene !! Z.to_nat (h mod 2 ^ 16) = Some n /\
             m_Version n = h / 2 ^ 16 /\ m_Index n = h mod 2 ^ 16) /\
  MakeHandle (h / 2 ^ 16 + k * 2 ^ 16) (h mod 2 ^ 16) = h /\
  IsValidNode scene (MakeHandle (h / 2 ^ 16 + k * 2 ^ 16) (h mod 2 ^ 16))
  = IsValidNode scene h.
Proof.
  assert (Hdiv : 0 <= h / 2 ^ 16 < 2 ^ 16).
  { split; [apply Z.div_pos; lia | apply Z.div_lt_upper_bound; lia]. }
  assert (Hv : handle_version h = h / 2 ^ 16).
  { rewrite handle_version_div. apply Z.mod_small. exact Hdiv. }
  assert (Hi : handle_index h = h mod 2 ^ 16) by apply handle_index_mod.
  assert (Hpack : MakeHandle (h / 2 ^ 16 + k * 2 ^ 16) (h mod 2 ^ 16) = h).
  { rewrite MakeHandle_value by (apply Z.mod_pos_bound; lia).
    rewrite Z.mod_add by lia. rewrite Z.mod_small by exact Hdiv.
    pose proof (Z.div_mod h (2 ^ 16)). lia. }
  split; [exact Hv |]. split; [exact Hi |]. split; [exact Hdiv |].
  split; [| split; [exact Hpack | rewrite Hpack; reflexivity]].
  rewrite IsValidNode_true, Hv, Hi. reflexivity.
Qed.

(** ** Running the binding *)

Ltac lua_unfold :=
  unfold mbind, lua_bind, mret, lua_ret, luaL_typerror, luaL_error, fault,
    get_state, modify_state, read_scene, write_scene, read_node, write_node.

Lemma bind_Return {A B : Type} (m : Lua A) (k : A -> Lua B)
  (st st' : LuaState) (a : A) :
  m st = Return a st' -> (m ≫= k) st = k a st'.
Proof. intros H. unfold mbind, lua_bind. rewrite H. reflexivity. Qed.

Lemma bind_Raise {A B : Type} (m : Lua A) (k : A -> Lua B)
  (st st' : LuaState) (e : LuaError) :
  m st = Raise e st' -> (m ≫= k) st = Raise e st'.
Proof. intros H. unfold mbind, lua_bind. rewrite H. reflexivity. Qed.

Lemma bind_Return_inv {A B : Type} (m : Lua A) (k : A -> Lua B)
  (st st' : LuaState) (b : B) :
  (m ≫= k) st = Return b st' ->
  exists a st1, m st = Return a st1 /\ k a st1 = Return b st'.
Proof.
  unfold mbind, lua_bind.
  destruct (m st) as [a st1 | e st1 |]; [eauto | discriminate | discriminate].
Qed.

Lemma read_node_eq (s : HScene) (i : nat) (st : LuaState) (scene : Scene)
  (n : InternalNode) :
  lua_scenes st !! s = Some scene ->
  m_Nodes scene !! i = Some n ->
  read_node (s, i) st = Return n st.
Proof.
  intros Hs Hn. unfold read_node. lua_unfold. simpl. rewrite Hs, Hn. reflexivity.
Qed.

Lemma write_node_eq (s : HScene) (i : nat) (st : LuaState) (scene : Scene)
  (n : InternalNode) :
  lua_scenes st !! s = Some scene ->
  write_node (s, i) n st
  = Return tt (set_scenes
      (<[s := set_Nodes (<[i := n]> (m_Nodes scene)) scene]> (lua_scenes st)) st).
Proof.
  intros Hs. unfold write_node. lua_unfold. simpl. rewrite Hs. reflexivity.
Qed.

Lemma valid_slot (scene : Scene) (h : HNode) :
  IsValidNode scene h = Some true ->
  exists n, m_Nodes scene !! Z.to_nat (handle_index h) = Some n /\
            m_Version n = handle_version h /\ m_Index n = handle_index h.
Proof. apply IsValidNode_true. Qed.

Lemma LuaCheckNode_proxy (L : list LuaValue) (index : nat) (st : LuaState)
  (np : NodeProxy) :
  lua_arg L index = LNodeProxy np ->
  LuaCheckNode L index st
  = match lua_scenes st !! proxy_Scene np with
    | Some scene =>
        match IsValidNode scene (proxy_Node np) with
        | Some true =>
            Return ((proxy_Scene np, Z.to_nat (handle_index (proxy_Node np))),
                    proxy_Node np) st
        | Some false => Raise ErrDeletedNode st
        | None => Fault
        end
    | None => Fault
    end.
Proof.
  intros Harg.
  unfold LuaCheckNode, NodeProxy_Check, GetNode. lua_unfold.
  rewrite Harg.
  destruct (lua_scenes st !! proxy_Scene np) as [scene |]; [| reflexivity].
  destruct (IsValidNode scene (proxy_Node np)) as [[|] |]; reflexivity.
Qed.

Lemma LuaSet_Vector4 (property : Z) (L : list LuaValue) (st st' : LuaState)
  (np : NodeProxy) (pos : Vector4) :
  lua_arg L 1 = LNodeProxy np ->
  lua_arg L 2 = LVector4 pos ->
  LuaSet property L st = Return tt st' ->
  exists scene n,
    lua_scenes st !! proxy_Scene np = Some scene /\
    IsValidNode scene (proxy_Node np) = Some true /\
    m_Nodes scene !! Z.to_nat (handle_index (proxy_Node np)) = Some n /\
    (Z.to_nat property < length (m_Properties (m_Node n)))%nat /\
    st' = set_scenes
            (<[proxy_Scene np :=
               set_Nodes
                 (<[Z.to_nat (handle_index (proxy_Node np)) :=
                    set_Node (set_Properties
                      (<[Z.to_nat property := pos]> (m_Properties (m_Node n)))
                      (m_Node n)) n]> (m_Nodes scene)) scene]>
             (lua_scenes st)) st.
Proof.
  intros Harg1 Harg2. unfold LuaSet.
  unfold mbind at 1, lua_bind at 1.
  rewrite (LuaCheckNode_proxy L 1 st np Harg1).
  destruct (lua_scenes st !! proxy_Scene np) as [scene |] eqn:Hscene;
    [| discriminate].
  destruct (IsValidNode scene (proxy_Node np)) as [[|] |] eqn:Hvalid;
    try discriminate.
  unfold IsVector3, CheckVector4. rewrite Harg2.
  unfold mbind at 1, lua_bind at 1, mret at 1, lua_ret at 1.
  destruct (valid_slot scene _ Hvalid) as (n & Hn & _).
  rewrite (bind_Return _ _ _ _ _ (read_node_eq _ _ _ _ _ Hscene Hn)).
  destruct (Z.to_nat property <? length (m_Properties (m_Node n)))%nat eqn:Hlen;
    [| discriminate].
  rewrite (write_node_eq _ _ _ _ _ Hscene).
  intros [= <-]. apply Nat.ltb_lt in Hlen.
  exists scene, n. auto.
Qed.

Lemma LuaCheckNode_valid (L : list LuaValue) (index : nat) (st : LuaState)
  (np : NodeProxy) (scene : Scene) :
  lua_arg L index = LNodeProxy np ->
  lua_scenes st !! proxy_Scene np = Some scene ->
  IsValidNode scene (proxy_Node np) = Some true ->
  LuaCheckNode L index st
  = Return ((proxy_Scene np, Z.to_nat (handle_index (proxy_Node np))),
            proxy_Node np) st.
Proof.
  intros Harg Hscene Hvalid.
  unfold LuaCheckNode, NodeProxy_Check, GetNode. lua_unfold.
  rewrite Harg, Hscene, Hvalid. reflexivity.
Qed.

Lemma LuaGet_valid (property : Z) (L : list LuaValue) (st : LuaState)
  (np : NodeProxy) (scene : Scene) (n : InternalNode) :
  lua_arg L 1 = LNodeProxy np ->
  lua_scenes st !! proxy_Scene np = Some scene ->
  IsValidNode scene (proxy_Node np) = Some true ->
  m_Nodes scene !! Z.to_nat (handle_index (proxy_Node np)) = Some n ->
  LuaGet property L st
  = match m_Properties (m_Node n) !! Z.to_nat property with
    | Some v => Return v st
    | None => Fault
    end.
Proof.
  intros Harg Hscene Hvalid Hn.
  unfold LuaGet.
  rewrite (bind_Return _ _ _ _ _ (LuaCheckNode_valid L 1 st np scene Harg Hscene Hvalid)).
  rewrite (bind_Return _ _ _ _ _ (read_node_eq _ _ _ _ _ Hscene Hn)).
  destruct (m_Properties (m_Node n) !! Z.to_nat property); reflexivity.
Qed.

Lemma IsValidNode_set_Deleted (scene : Scene) (h h' : HNode) (n : InternalNode) (d : bool) :
  m_Nodes scene !! Z.to_nat (handle_index h) = Some n ->
  IsValidNode
    (set_Nodes (<[Z.to_nat (handle_index h) := set_Deleted d n]> (m_Nodes scene)) scene) h'
  = IsValidNode scene h'.
Proof.
  intros Hn. unfold IsValidNode. simpl. rewrite length_insert.
  destruct (Z.ltb_spec (Z.land h' 0xffff) (Z.of_nat (length (m_Nodes scene))));
    [| reflexivity].
  destruct (decide (Z.to_nat (handle_index h) = Z.to_nat (Z.land h' 0xffff))) as [He | Hne].
  - rewrite <- He, Hn.
    rewrite list_lookup_insert_eq by (eapply lookup_lt_Some; exact Hn).
    reflexivity.
  - rewrite list_lookup_insert_ne by exact Hne. reflexivity.
Qed.

(** C2.  On a valid handle [LuaDeleteNode] returns normally and only sets
    the deferred delete flag of the addressed slot: the state differs in
    that one slot of that one scene, whose payload, version and index are
    kept; the handle still validates, and every property getter returns what
    it returned before, in particular a value just written by the setter. *)
Theorem LuaDeleteNode_only_sets_flag (L : list LuaValue) (st : LuaState)
  (np : NodeProxy) (scene : Scene)
  (Harg : lua_arg L 1 = LNodeProxy np)
  (Hscene : lua_scenes st !! proxy_Scene np = Some scene)
  (Hvalid : IsValidNode scene (proxy_Node np) = Some true) :
  let i := Z.to_nat (handle_index (proxy_Node np)) in
  exists n scene' st',
    m_Nodes scene !! i = Some n /\
    LuaDeleteNode L st = Return tt st' /\
    st' = set_scenes (<[proxy_Scene np := scene']> (lua_scenes st)) st /\
    scene' = set_Nodes (<[i := set_Deleted true n]> (m_Nodes scene)) scene /\
    m_Nodes scene' !! i
    = Some (mkInternalNode (m_Node n) (m_Version n) (m_Index n) true) /\
    (forall j, j <> i -> m_Nodes scene' !! j = m_Nodes scene !! j) /\
    (forall s, s <> proxy_Scene np -> lua_scenes st' !! s = lua_scenes st !! s) /\
    IsValidNode scene' (proxy_Node np) = Some true /\
    (forall property v,
        LuaGet property L st = Return v st <->
        LuaGet property L st' = Return v st') /\
    (forall property pos L0 st0,
        lua_arg L0 1 = LNodeProxy np ->
        lua_arg L0 2 = LVector4 pos ->
        LuaSet property L0 st0 = Return tt st ->
        LuaGet property L st' = Return pos st').
Proof.
  intros i.
  destruct (valid_slot scene (proxy_Node np) Hvalid) as (n & Hn & Hv & Hi).
  fold i in Hn.
  set (scene' := set_Nodes (<[i := set_Deleted true n]> (m_Nodes scene)) scene).
  set (st' := set_scenes (<[proxy_Scene np := scene']> (lua_scenes st)) st).
  assert (Hscene' : lua_scenes st' !! proxy_Scene np = Some scene').
  { simpl. apply list_lookup_insert_eq. eapply lookup_lt_Some; exact Hscene. }
  assert (Hn' : m_Nodes scene' !! i = Some (set_Deleted true n)).
  { simpl. apply list_lookup_insert_eq. eapply lookup_lt_Some; exact Hn. }
  assert (Hvalid' : IsValidNode scene' (proxy_Node np) = Some true).
  { unfold scene', i. rewrite IsValidNode_set_Deleted by exact Hn. exact Hvalid. }
  assert (Hget : forall property v,
             LuaGet property L st = Return v st <->
             LuaGet property L st' = Return v st').
  { intros property v.
    rewrite (LuaGet_valid property L st np scene n) by assumption.
    rewrite (LuaGet_valid property L st' np scene' (set_Deleted true n))
      by assumption.
    simpl. destruct (m_Properties (m_Node n) !! Z.to_nat property).
    - split; intros [= ->]; reflexivity.
    - split; discriminate. }
  exists n, scene', st'.
  split; [exact Hn |]. split.
  { unfold LuaDeleteNode.
    rewrite (bind_Return _ _ _ _ _ (LuaCheckNode_valid L 1 st np scene Harg Hscene Hvalid)).
    rewrite (bind_Return _ _ _ _ _ (read_node_eq _ _ _ _ _ Hscene Hn)).
    apply write_node_eq. exact Hscene. }
  split; [reflexivity |]. split; [reflexivity |].
  split; [exact Hn' |]. split.
  { intros j Hj. simpl. apply list_lookup_insert_ne. congruence. }
  split.
  { intros s Hs. simpl. apply list_lookup_insert_ne. congruence. }
  split; [exact Hvalid' |]. split; [exact Hget |].
  intros property pos L0 st0 Harg1 Harg2 Hset.
  apply Hget.
  rewrite (LuaGet_valid property L st np scene n) by assumption.
  destruct (LuaSet_Vector4 property L0 st0 st np pos Harg1 Harg2 Hset)
    as (scene0 & n0 & Hscene0 & _ & Hn0 & Hlen & Hst).
  assert (Hs : lua_scenes st !! proxy_Scene np
               = Some (set_Nodes (<[i := set_Node (set_Properties
                   (<[Z.to_nat property := pos]> (m_Properties (m_Node n0)))
                   (m_Node n0)) n0]> (m_Nodes scene0)) scene0)).
  { rewrite Hst. simpl. apply list_lookup_insert_eq.
    eapply lookup_lt_Some; exact Hscene0. }
  rewrite Hscene in Hs. injection Hs as Hs.
  rewrite Hs in Hn. simpl in Hn.
  rewrite list_lookup_insert_eq in Hn by (eapply lookup_lt_Some; exact Hn0).
  injection Hn as <-. simpl.
  rewrite list_lookup_insert_eq by exact Hlen. reflexivity.
Qed.

(** C10.  [NodeProxy_eq] on two operands whose proxies point to live
    scenes: if either operand is not a node proxy the result is [false] and
    no error is raised; if both are proxies and both handles validate, the
    result is the equality of the two handle words; if both are proxies and
    either handle fails validation, the error "Deleted node" is raised. *)
Theorem NodeProxy_eq_compares_handles (L : list LuaValue) (st : LuaState)
  (Hlive : forall np,
      lua_arg L 1 = LNodeProxy np \/ lua_arg L 2 = LNodeProxy np ->
      is_Some (lua_scenes st !! proxy_Scene np)) :
  NodeProxy_eq L st
  = match lua_arg L 1, lua_arg L 2 with
    | LNodeProxy np1, LNodeProxy np2 =>
        if proxy_valid st np1 && proxy_valid st np2
        then Return (proxy_Node np1 =? proxy_Node np2) st
        else Raise ErrDeletedNode st
    | _, _ => Return false st
    end.
Proof.
  unfold NodeProxy_eq, LuaIsNode.
  destruct (lua_arg L 1) as [| | | | | | | | np1 | | |] eqn:H1; try reflexivity.
  destruct (lua_arg L 2) as [| | | | | | | | np2 | | |] eqn:H2; try reflexivity.
  destruct (Hlive np1 (or_introl eq_refl)) as [scene1 Hs1].
  destruct (Hlive np2 (or_intror eq_refl)) as [scene2 Hs2].
  unfold proxy_valid, Validate. rewrite Hs1, Hs2.
  destruct (IsValidNode_total scene1 (proxy_Node np1)) as [b1 Hb1].
  destruct (IsValidNode_total scene2 (proxy_Node np2)) as [b2 Hb2].
  rewrite Hb1, Hb2.
  pose proof (LuaCheckNode_proxy L 1 st np1 H1) as Hc1.
  pose proof (LuaCheckNode_proxy L 2 st np2 H2) as Hc2.
  rewrite Hs1, Hb1 in Hc1. rewrite Hs2, Hb2 in Hc2.
  cbn [negb].
  destruct b1.
  - rewrite (bind_Return _ _ _ _ _ Hc1).
    destruct b2.
    + rewrite (bind_Return _ _ _ _ _ Hc2). reflexivity.
    + rewrite (bind_Raise _ _ _ _ _ Hc2). reflexivity.
  - rewrite (bind_Raise _ _ _ _ _ Hc1). reflexivity.
Qed.

(** ** The animation entry point *)

Lemma luaL_checknumber_eq (luaO_str2d : string -> option Q) (L : list LuaValue)
  (narg : nat) (x : Q) (st : LuaState) :
  lua_tonumber luaO_str2d (lua_arg L narg) = Some x ->
  luaL_checknumber luaO_str2d L narg st = Return x st.
Proof. intros H. unfold luaL_checknumber. rewrite H. reflexivity. Qed.

Lemma luaL_checknumber_inv (luaO_str2d : string -> option Q) (L : list LuaValue)
  (narg : nat) (x : Q) (st st' : LuaState) :
  luaL_checknumber luaO_str2d L narg st = Return x st' ->
  lua_tonumber luaO_str2d (lua_arg L narg) = Some x.
Proof.
  unfold luaL_checknumber.
  destruct (lua_tonumber luaO_str2d (lua_arg L narg)); [| discriminate].
  intros [= -> _]. reflexivity.
Qed.

Lemma luaL_checknumber_cases (luaO_str2d : string -> option Q) (L : list LuaValue)
  (narg : nat) (st : LuaState) :
  (exists x, luaL_checknumber luaO_str2d L narg st = Return x st) \/
  (exists e, luaL_checknumber luaO_str2d L narg st = Raise e st).
Proof.
  unfold luaL_checknumber.
  destruct (lua_tonumber luaO_str2d (lua_arg L narg)); [left | right]; eauto.
Qed.

Lemma check_vector_cases (L : list LuaValue) (narg : nat) (st : LuaState) :
  (exists v, (if IsVector3 (lua_arg L narg) then CheckVector3 L narg
              else CheckVector4 L narg) st = Return v st) \/
  (exists e, (if IsVector3 (lua_arg L narg) then CheckVector3 L narg
              else CheckVector4 L narg) st = Raise e st).
Proof.
  unfold IsVector3, CheckVector3, CheckVector4.
  destruct (lua_arg L narg); [right | right | right | right | right | right
                             | right | right | right | left | left | right]; eauto.
Qed.

Lemma LuaCheckNode_cases (L : list LuaValue) (index : nat) (st : LuaState) :
  (exists r, LuaCheckNode L index st = Return r st) \/
  (exists e, LuaCheckNode L index st = Raise e st) \/
  LuaCheckNode L index st = Fault.
Proof.
  destruct (lua_arg L index) eqn:Harg;
    try (right; left; eexists; unfold LuaCheckNode, NodeProxy_Check;
         rewrite Harg; reflexivity).
  rewrite (LuaCheckNode_proxy L index st np Harg).
  destruct (lua_scenes st !! proxy_Scene np) as [scene |]; [| auto].
  destruct (IsValidNode scene (proxy_Node np)) as [[|] |]; eauto.
Qed.

Lemma ref_alloc_stored (v : LuaValue) (reg : list (option LuaValue)) :
  (ref_alloc v reg).2 !! (ref_alloc v reg).1 = Some (Some v).
Proof.
  induction reg as [| [w |] reg IH]; simpl; try reflexivity.
  destruct (ref_alloc v reg) as [i reg']. exact IH.
Qed.

Lemma ref_alloc_keeps (v w : LuaValue) (reg : list (option LuaValue)) (j : nat) :
  reg !! j = Some (Some w) -> (ref_alloc v reg).2 !! j = Some (Some w).
Proof.
  revert j. induction reg as [| [u |] reg IH]; intros j Hj; simpl.
  - destruct j; discriminate.
  - destruct (ref_alloc v reg) as [i reg'] eqn:Ha. simpl.
    destruct j as [| j]; [exact Hj |]. simpl in *. apply (IH j Hj).
  - destruct j as [| j]; [discriminate | exact Hj].
Qed.

Lemma registry_get_ref (reg : list (option LuaValue)) (i : nat) (v : LuaValue) :
  reg !! i = Some (Some v) -> registry_get reg (Z.of_nat i + 1) = v.
Proof.
  intros Hi. unfold registry_get.
  destruct (Z.leb_spec 1 (Z.of_nat i + 1)); [| lia].
  replace (Z.to_nat (Z.of_nat i + 1 - 1)) with i by lia.
  rewrite Hi. reflexivity.
Qed.

Lemma animate_refs_get (st : LuaState) (L : list LuaValue) :
  registry_get (animate_refs st L).2 (animate_refs st L).1.1 = lua_arg L 7 /\
  registry_get (animate_refs st L).2 (animate_refs st L).1.2 = lua_arg L 1 /\
  1 <= (animate_refs st L).1.1.
Proof.
  unfold animate_refs.
  pose proof (ref_alloc_stored (lua_arg L 7) (lua_registry st)) as H1.
  destruct (ref_alloc (lua_arg L 7) (lua_registry st)) as [i1 reg1].
  pose proof (ref_alloc_stored (lua_arg L 1) reg1) as H2.
  pose proof (ref_alloc_keeps (lua_arg L 1) (lua_arg L 7) reg1 i1 H1) as H3.
  destruct (ref_alloc (lua_arg L 1) reg1) as [i2 reg2].
  simpl in *. split; [| split]; [apply registry_get_ref .. | lia]; assumption.
Qed.

(** The registry after [luaL_ref] holds one value more. *)
Lemma ref_alloc_count (v : LuaValue) (reg : list (option LuaValue)) :
  length (omap id (ref_alloc v reg).2) = S (length (omap id reg)).
Proof.
  induction reg as [| [w |] reg IH]; cbn [ref_alloc]; try reflexivity.
  destruct (ref_alloc v reg) as [i reg']. cbn [snd] in *.
  change (length (w :: omap id reg') = S (length (w :: omap id reg))).
  simpl. rewrite IH. reflexivity.
Qed.

Lemma animate_refs_changes (st : LuaState) (L : list LuaValue) :
  (animate_refs st L).2 <> lua_registry st.
Proof.
  unfold animate_refs.
  pose proof (ref_alloc_count (lua_arg L 7) (lua_registry st)) as H1.
  destruct (ref_alloc (lua_arg L 7) (lua_registry st)) as [i1 reg1].
  pose proof (ref_alloc_count (lua_arg L 1) reg1) as H2.
  destruct (ref_alloc (lua_arg L 1) reg1) as [i2 reg2].
  simpl in *. intros ->. lia.
Qed.

Lemma animate_refs_run (st : LuaState) (L : list LuaValue) (delay : Q) :
  (animation_complete_ref ← luaL_ref (lua_arg L 7);
   node_ref ← luaL_ref (lua_arg L 1);
   mret (delay, node_ref, animation_complete_ref)) st
  = Return (delay, (animate_refs st L).1.2, (animate_refs st L).1.1)
           (set_registry (animate_refs st L).2 st).
Proof.
  unfold animate_refs. lua_unfold. unfold luaL_ref.
  destruct (ref_alloc (lua_arg L 7) (lua_registry st)) as [i1 reg1].
  cbn [lua_registry set_registry].
  destruct (ref_alloc (lua_arg L 1) reg1) as [i2 reg2]. reflexivity.
Qed.

Lemma on_scene_run (s : HScene) (f : Scene -> Scene) (st : LuaState) (sc : Scene) :
  lua_scenes st !! s = Some sc ->
  on_scene (Some s) f st
  = Return tt (set_scenes (<[s := f sc]> (lua_scenes st)) st).
Proof. intros Hs. unfold on_scene. lua_unfold. rewrite Hs. reflexivity. Qed.

(** [LuaAnimate] on a valid node and well-typed arguments 2 to 5, for any
    [AnimateNode]. *)
Section LuaAnimate_on_valid_arguments.

Variable luaO_str2d : string -> option Q.
Variable core : AnimateNodeFn.
Variables (L : list LuaValue) (st : LuaState) (np : NodeProxy) (scene : Scene).
Variables (x2 x4 duration : Q) (to : Vector4).

Hypothesis Harg1 : lua_arg L 1 = LNodeProxy np.
Hypothesis Hscene : lua_scenes st !! proxy_Scene np = Some scene.
Hypothesis Hvalid : IsValidNode scene (proxy_Node np) = Some true.
Hypothesis Harg2 : lua_tonumber luaO_str2d (lua_arg L 2) = Some x2.
Hypothesis Harg3 : lua_arg L 3 = LVector4 to.
Hypothesis Harg4 : lua_tonumber luaO_str2d (lua_arg L 4) = Some x4.
Hypothesis Harg5 : lua_tonumber luaO_str2d (lua_arg L 5) = Some duration.

Ltac animate_arguments :=
  unfold LuaAnimate;
  unfold mbind at 1, lua_bind at 1, get_state at 1; cbv zeta;
  rewrite (bind_Return _ _ _ _ _
             (LuaCheckNode_valid L 1 st np scene Harg1 Hscene Hvalid));
  rewrite (bind_Return _ _ _ _ _
             (luaL_checknumber_eq luaO_str2d L 2 x2 st Harg2));
  rewrite Harg3; cbn [IsVector3];
  unfold CheckVector4 at 1; rewrite Harg3;
  unfold mbind at 1, lua_bind at 1, mret at 1, lua_ret at 1;
  rewrite (bind_Return _ _ _ _ _
             (luaL_checknumber_eq luaO_str2d L 4 x4 st Harg4));
  rewrite (bind_Return _ _ _ _ _
             (luaL_checknumber_eq luaO_str2d L 5 duration st Harg5)).

(** No sixth argument: only the upper bounds stand between the arguments and
    [AnimateNode]. *)
Lemma LuaAnimate_plain :
  lua_arg L 6 = LNone ->
  to_int x2 < PROPERTY_COUNT ->
  to_int x4 < EASING_COUNT ->
  LuaAnimate luaO_str2d core L st
  = on_scene (lua_scene_global st)
      (fun sc => core sc (proxy_Node np) (to_int x2) to (to_int x4)
                      duration 0%Q None 0 0) st.
Proof.
  intros Harg6 Hp He. animate_arguments.
  rewrite Harg6. cbn [lua_tonumber lua_isnone negb].
  unfold mbind at 1, lua_bind at 1, mret at 1, lua_ret at 1.
  destruct (Z.leb_spec PROPERTY_COUNT (to_int x2)); [lia |].
  unfold mbind at 1, lua_bind at 1, mret at 1, lua_ret at 1.
  destruct (Z.leb_spec EASING_COUNT (to_int x4)); [lia |].
  unfold mbind at 1, lua_bind at 1, mret at 1, lua_ret at 1.
  reflexivity.
Qed.

(** A delay and a completion function: the two references are taken first,
    the bounds are tested afterwards. *)
Lemma LuaAnimate_with_function (delay : Q) :
  lua_tonumber luaO_str2d (lua_arg L 6) = Some delay ->
  lua_isfunction (lua_arg L 7) = true ->
  let st' := set_registry (animate_refs st L).2 st in
  LuaAnimate luaO_str2d core L st
  = if PROPERTY_COUNT <=? to_int x2
    then Raise (ErrInvalidPropertyIndex (to_int x2)) st'
    else if EASING_COUNT <=? to_int x4
    then Raise (ErrInvalidEasing (to_int x4)) st'
    else on_scene (lua_scene_global st)
           (fun sc => core sc (proxy_Node np) (to_int x2) to (to_int x4)
                           duration delay (Some LuaAnimationCompleteFn)
                           (animate_refs st L).1.1 (animate_refs st L).1.2) st'.
Proof.
  intros Harg6 Hf st'. animate_arguments.
  rewrite Harg6, Hf.
  rewrite (bind_Return _ _ _ _ _ (animate_refs_run st L delay)).
  destruct (animate_refs_get st L) as (_ & _ & Hr1).
  fold st'.
  destruct (PROPERTY_COUNT <=? to_int x2); [reflexivity |].
  unfold mbind at 1, lua_bind at 1, mret at 1, lua_ret at 1.
  destruct (EASING_COUNT <=? to_int x4); [reflexivity |].
  unfold mbind at 1, lua_bind at 1, mret at 1, lua_ret at 1.
  destruct (Z.eqb_spec (animate_refs st L).1.1 LUA_NOREF) as [Heq | _];
    [unfold LUA_NOREF in Heq; lia | reflexivity].
Qed.

End LuaAnimate_on_valid_arguments.

(** An error of [LuaAnimate] leaves the scenes, the global and the record of
    script calls as they were; the registry alone may have changed. *)
Lemma LuaAnimate_Raise_frame (luaO_str2d : string -> option Q)
  (core : AnimateNodeFn) (L : list LuaValue) (st st' : LuaState) (e : LuaError) :
  LuaAnimate luaO_str2d core L st = Raise e st' ->
  lua_scenes st' = lua_scenes st /\
  lua_scene_global st' = lua_scene_global st /\
  lua_called st' = lua_called st /\
  (lua_isfunction (lua_arg L 7) = false -> st' = st).
Proof.
  unfold LuaAnimate.
  unfold mbind at 1, lua_bind at 1, get_state at 1. cbv zeta.
  destruct (LuaCheckNode_cases L 1 st) as [[[node hnode] Hc] | [[e1 Hc] | Hc]].
  2: { rewrite (bind_Raise _ _ _ _ _ Hc). intros [= <- <-]. auto. }
  2: { unfold mbind, lua_bind. rewrite Hc. discriminate. }
  rewrite (bind_Return _ _ _ _ _ Hc).
  destruct (luaL_checknumber_cases luaO_str2d L 2 st) as [[x2 H2] | [e2 H2]].
  2: { rewrite (bind_Raise _ _ _ _ _ H2). intros [= <- <-]. auto. }
  rewrite (bind_Return _ _ _ _ _ H2).
  destruct (check_vector_cases L 3 st) as [[to H3] | [e3 H3]].
  2: { rewrite (bind_Raise _ _ _ _ _ H3). intros [= <- <-]. auto. }
  rewrite (bind_Return _ _ _ _ _ H3).
  destruct (luaL_checknumber_cases luaO_str2d L 4 st) as [[x4 H4] | [e4 H4]].
  2: { rewrite (bind_Raise _ _ _ _ _ H4). intros [= <- <-]. auto. }
  rewrite (bind_Return _ _ _ _ _ H4).
  destruct (luaL_checknumber_cases luaO_str2d L 5 st) as [[x5 H5] | [e5 H5]].
  2: { rewrite (bind_Raise _ _ _ _ _ H5). intros [= <- <-]. auto. }
  rewrite (bind_Return _ _ _ _ _ H5).
  unfold mbind at 1, lua_bind at 1.
  destruct (lua_tonumber luaO_str2d (lua_arg L 6)) as [delay |].
  - destruct (lua_isfunction (lua_arg L 7)) eqn:Hf.
    + unfold mbind at 1 2, lua_bind at 1 2, luaL_ref.
      destruct (ref_alloc (lua_arg L 7) (lua_registry st)) as [i1 reg1].
      simpl lua_registry.
      destruct (ref_alloc (lua_arg L 1) reg1) as [i2 reg2].
      unfold mret, lua_ret.
      unfold mbind at 1, lua_bind at 1.
      destruct (PROPERTY_COUNT <=? to_int x2).
      { unfold luaL_error. intros [= <- <-]. simpl. intuition discriminate. }
      unfold mbind at 1, lua_bind at 1.
      destruct (EASING_COUNT <=? to_int x4).
      { unfold luaL_error. intros [= <- <-]. simpl. intuition discriminate. }
      destruct (Z.of_nat i1 + 1 =? LUA_NOREF);
        unfold on_scene; destruct (lua_scene_global st); lua_unfold; simpl;
        try discriminate;
        destruct (lua_scenes st !! h); discriminate.
    + unfold mret at 1, lua_ret at 1.
      unfold mbind at 1, lua_bind at 1.
      destruct (PROPERTY_COUNT <=? to_int x2).
      { unfold luaL_error. intros [= <- <-]. auto. }
      unfold mbind at 1, lua_bind at 1.
      destruct (EASING_COUNT <=? to_int x4).
      { unfold luaL_error. intros [= <- <-]. auto. }
      unfold on_scene. simpl.
      destruct (lua_scene_global st); lua_unfold; simpl; try discriminate.
      destruct (lua_scenes st !! h); discriminate.
  - destruct (negb (lua_isnone (lua_arg L 6))).
    + unfold luaL_typerror, luaL_error. intros [= <- <-]. auto.
    + unfold mret at 1, lua_ret at 1.
      unfold mbind at 1, lua_bind at 1.
      destruct (PROPERTY_COUNT <=? to_int x2).
      { unfold luaL_error. intros [= <- <-]. auto. }
      unfold mbind at 1, lua_bind at 1.
      destruct (EASING_COUNT <=? to_int x4).
      { unfold luaL_error. intros [= <- <-]. auto. }
      unfold on_scene. simpl.
      destruct (lua_scene_global st); lua_unfold; simpl; try discriminate.
      destruct (lua_scenes st !! h); discriminate.
Qed.

(** A normal return of [LuaAnimate] means that the property index was
    below [PROPERTY_COUNT] and the easing below [EASING_COUNT]: at or above
    the count the call ends in an error (or a fault), and by the lemma above
    no scene has changed. *)
Lemma LuaAnimate_rejects_upper (luaO_str2d : string -> option Q)
  (core : AnimateNodeFn) (L : list LuaValue) (st st' : LuaState) :
  LuaAnimate luaO_str2d core L st = Return tt st' ->
  exists x2 x4,
    lua_tonumber luaO_str2d (lua_arg L 2) = Some x2 /\
    lua_tonumber luaO_str2d (lua_arg L 4) = Some x4 /\
    to_int x2 < PROPERTY_COUNT /\ to_int x4 < EASING_COUNT.
Proof.
  unfold LuaAnimate.
  unfold mbind at 1, lua_bind at 1, get_state at 1. cbv zeta.
  destruct (LuaCheckNode_cases L 1 st) as [[[node hnode] Hc] | [[e1 Hc] | Hc]].
  2: { rewrite (bind_Raise _ _ _ _ _ Hc). discriminate. }
  2: { unfold mbind, lua_bind. rewrite Hc. discriminate. }
  rewrite (bind_Return _ _ _ _ _ Hc).
  destruct (luaL_checknumber_cases luaO_str2d L 2 st) as [[x2 H2] | [e2 H2]].
  2: { rewrite (bind_Raise _ _ _ _ _ H2). discriminate. }
  rewrite (bind_Return _ _ _ _ _ H2).
  destruct (check_vector_cases L 3 st) as [[to H3] | [e3 H3]].
  2: { rewrite (bind_Raise _ _ _ _ _ H3). discriminate. }
  rewrite (bind_Return _ _ _ _ _ H3).
  destruct (luaL_checknumber_cases luaO_str2d L 4 st) as [[x4 H4] | [e4 H4]].
  2: { rewrite (bind_Raise _ _ _ _ _ H4). discriminate. }
  rewrite (bind_Return _ _ _ _ _ H4).
  destruct (luaL_checknumber_cases luaO_str2d L 5 st) as [[x5 H5] | [e5 H5]].
  2: { rewrite (bind_Raise _ _ _ _ _ H5). discriminate. }
  rewrite (bind_Return _ _ _ _ _ H5).
  intros Hrun. exists x2, x4.
  split; [apply (luaL_checknumber_inv _ _ _ _ _ _ H2) |].
  split; [apply (luaL_checknumber_inv _ _ _ _ _ _ H4) |].
  apply bind_Return_inv in Hrun
    as ([[delay node_ref] animation_complete_ref] & st1 & _ & Hrun).
  apply bind_Return_inv in Hrun as ([] & st2 & Hp & Hrun).
  apply bind_Return_inv in Hrun as ([] & st3 & He & _).
  destruct (Z.leb_spec PROPERTY_COUNT (to_int x2)); [discriminate Hp |].
  destruct (Z.leb_spec EASING_COUNT (to_int x4)); [discriminate He |].
  split; assumption.
Qed.

(** C4.  [LuaAnimate] called on a valid node with the property index 5
    ([PROPERTY_COUNT]), a delay and a completion function raises "Invalid
    property index: 5", and the state it leaves is not the state before the
    call: the function and the node have been stored in the registry under
    two new references.  The same happens for the easing 4
    ([EASING_COUNT]). *)
Theorem LuaAnimate_error_after_luaL_ref (luaO_str2d : string -> option Q)
  (core : AnimateNodeFn) :
  let to := LVector4 (mkVector4 10 0 0 0) in
  let registry' := [Some (LFunction 7); Some example_proxy] in
  LuaAnimate luaO_str2d core
    [example_proxy; LNumber 5; to; LNumber 0; LNumber 1; LNumber 0; LFunction 7]
    example_state
  = Raise (ErrInvalidPropertyIndex 5) (set_registry registry' example_state) /\
  LuaAnimate luaO_str2d core
    [example_proxy; LNumber 0; to; LNumber 4; LNumber 1; LNumber 0; LFunction 7]
    example_state
  = Raise (ErrInvalidEasing 4) (set_registry registry' example_state) /\
  lua_registry example_state = [] /\
  set_registry registry' example_state <> example_state.
Proof.
  cbv zeta. split; [reflexivity |]. split; [reflexivity |].
  split; [reflexivity |]. discriminate.
Qed.

(** C5.  [LuaAnimate] called on a valid node with the property index -1
    raises no error: it returns normally, having handed the property -1 to
    [AnimateNode].  The same holds for the easing -1. *)
Theorem LuaAnimate_negative_index_passes (luaO_str2d : string -> option Q)
  (core : AnimateNodeFn) :
  let to := mkVector4 10 0 0 0 in
  LuaAnimate luaO_str2d core
    [example_proxy; LNumber (-1); LVector4 to; LNumber 0; LNumber 1]
    example_state
  = Return tt (set_scenes
      [core example_scene example_node (-1) to 0 1%Q 0%Q None 0 0] example_state) /\
  LuaAnimate luaO_str2d core
    [example_proxy; LNumber 0; LVector4 to; LNumber (-1); LNumber 1]
    example_state
  = Return tt (set_scenes
      [core example_scene example_node 0 to (-1) 1%Q 0%Q None 0 0] example_state).
Proof. cbv zeta. split; reflexivity. Qed.

(** ** The node pool *)

Lemma sweep_slot_length (scene : Scene) (j : nat) :
  length (m_Nodes (sweep_slot scene j)) = length (m_Nodes scene).
Proof.
  unfold sweep_slot. destruct (m_Nodes scene !! j) as [n |]; [| reflexivity].
  destruct ((m_Index n =? Z.of_nat j) && m_Deleted n); [| reflexivity].
  simpl. apply length_insert.
Qed.

Lemma sweep_slot_lookup (scene : Scene) (j i : nat) :
  m_Nodes (sweep_slot scene j) !! i
  = if decide (i = j) then sweep_node j <$> m_Nodes scene !! j
    else m_Nodes scene !! i.
Proof.
  unfold sweep_slot, sweep_node.
  destruct (m_Nodes scene !! j) as [n |] eqn:Hn.
  - cbn [fmap option_fmap option_map].
    destruct ((m_Index n =? Z.of_nat j) && m_Deleted n); simpl.
    + destruct (decide (i = j)) as [-> | Hne].
      * apply list_lookup_insert_eq. eapply lookup_lt_Some; exact Hn.
      * apply list_lookup_insert_ne. congruence.
    + destruct (decide (i = j)) as [-> | Hne]; [exact Hn | reflexivity].
  - destruct (decide (i = j)) as [-> | Hne]; [exact Hn | reflexivity].
Qed.

Lemma foldl_sweep_length (l : list nat) (scene : Scene) :
  length (m_Nodes (foldl sweep_slot scene l)) = length (m_Nodes scene).
Proof.
  revert scene. induction l as [| j l IH]; intros scene; [reflexivity |].
  simpl. rewrite IH. apply sweep_slot_length.
Qed.

Lemma foldl_sweep_lookup (l : list nat) (scene : Scene) (i : nat) :
  NoDup l ->
  m_Nodes (foldl sweep_slot scene l) !! i
  = if decide (i ∈ l) then sweep_node i <$> m_Nodes scene !! i
    else m_Nodes scene !! i.
Proof.
  revert scene. induction l as [| j l IH]; intros scene Hnd.
  - simpl. destruct (decide (i ∈ [])) as [Hin | _]; [inversion Hin | reflexivity].
  - apply NoDup_cons in Hnd as [Hj Hnd]. simpl.
    rewrite (IH _ Hnd), sweep_slot_lookup.
    destruct (decide (i = j)) as [-> | Hne].
    + destruct (decide (j ∈ l)) as [Hin | _]; [contradiction |].
      destruct (decide (j ∈ j :: l)) as [_ | Hnin]; [reflexivity |].
      exfalso. apply Hnin. left.
    + destruct (decide (i ∈ l)) as [Hin | Hnin].
      * destruct (decide (i ∈ j :: l)) as [_ | Hnin]; [reflexivity |].
        exfalso. apply Hnin. right. exact Hin.
      * destruct (decide (i ∈ j :: l)) as [Hin | _]; [| reflexivity].
        apply elem_of_cons in Hin as [-> | Hin]; contradiction.
Qed.

Lemma Sweep_length (scene : Scene) :
  length (m_Nodes (Sweep scene)) = length (m_Nodes scene).
Proof. apply foldl_sweep_length. Qed.

Lemma Sweep_lookup (scene : Scene) (i : nat) :
  m_Nodes (Sweep scene) !! i = sweep_node i <$> m_Nodes scene !! i.
Proof.
  unfold Sweep. rewrite foldl_sweep_lookup by apply NoDup_seq.
  destruct (decide (i ∈ seq 0 (length (m_Nodes scene)))) as [_ | Hnin];
    [reflexivity |].
  rewrite elem_of_seq in Hnin.
  rewrite (lookup_ge_None_2 (m_Nodes scene) i) by lia. reflexivity.
Qed.

(** ** The scheduler *)

Lemma track_on_set_timing (i p : Z) (d e : Q) (t : Track) :
  track_on i p (set_timing d e t) = track_on i p t.
Proof. reflexivity. Qed.

Lemma track_count_app (i p : Z) (l1 l2 : list Track) :
  track_count i p (l1 ++ l2) = (track_count i p l1 + track_count i p l2)%nat.
Proof. unfold track_count. rewrite filter_app, length_app. reflexivity. Qed.

Lemma track_count_cons (i p : Z) (t : Track) (l : list Track) :
  track_count i p (t :: l)
  = ((if track_on i p t then 1 else 0) + track_count i p l)%nat.
Proof.
  unfold track_count. rewrite filter_cons.
  destruct (track_on i p t); simpl.
  - destruct (decide (true = true)); [reflexivity | congruence].
  - destruct (decide (false = true)); [discriminate | reflexivity].
Qed.

Lemma track_count_removed (i p : Z) (l : list Track) :
  track_count i p (filter (fun t => track_on i p t = false) l) = O.
Proof.
  induction l as [| t l IH]; [reflexivity |].
  rewrite filter_cons. destruct (track_on i p t) eqn:Ht.
  - destruct (decide (true = false)); [discriminate | exact IH].
  - destruct (decide (false = false)); [| congruence].
    rewrite track_count_cons, Ht. exact IH.
Qed.

Lemma track_count_filter_le (i p : Z) (P : Track -> Prop)
  `{forall t, Decision (P t)} (l : list Track) :
  (track_count i p (filter P l) <= track_count i p l)%nat.
Proof.
  induction l as [| t l IH]; [reflexivity |].
  rewrite filter_cons. destruct (decide (P t)).
  - rewrite !track_count_cons. lia.
  - rewrite track_count_cons. lia.
Qed.

(** What one track contributes to a tick: it is kept, or it completes, or
    it is dropped; kept or completed, only its timing differs. *)
Lemma tick_track_cases (E : EasingLibrary) (dt : Q) (scene : Scene)
  (kept completed : list Track) (t : Track) :
  exists scene' d e,
    tick_track E dt (scene, kept, completed) t
    = (scene', kept ++ [set_timing d e t], completed) \/
    tick_track E dt (scene, kept, completed) t
    = (scene', kept, completed ++ [set_timing d e t]) \/
    tick_track E dt (scene, kept, completed) t = (scene', kept, completed).
Proof.
  unfold tick_track.
  destruct (Qlt_bool 0 (t_Delay t) && Qlt_bool dt (t_Delay t)); [eauto 6 |].
  destruct (negb (Validate scene (t_Node t)) || pending_delete scene (t_Node t));
    [exists scene, 0%Q, 0%Q; auto |].
  destruct (Qle_bool (t_Duration t) 0); [eauto 7 |].
  destruct (Qle_bool 1 _); eauto 7.
Qed.

Lemma foldl_tick_tracks (E : EasingLibrary) (dt : Q) (tracks : list Track) :
  forall scene kept completed,
  exists scene' ks cs,
    foldl (tick_track E dt) (scene, kept, completed) tracks
    = (scene', kept ++ ks, completed ++ cs) /\
    (forall i p, (track_count i p ks + track_count i p cs
                  <= track_count i p tracks)%nat) /\
    (forall P : Track -> Prop,
        (forall t d e, P t -> P (set_timing d e t)) ->
        Forall P tracks -> Forall P ks /\ Forall P cs).
Proof.
  induction tracks as [| t tracks IH]; intros scene kept completed.
  - exists scene, [], []. rewrite !app_nil_r. split; [reflexivity |].
    split; [intros; simpl; lia | intros; split; constructor].
  - cbn [foldl].
    destruct (tick_track_cases E dt scene kept completed t)
      as (scene1 & d & e & [H1 | [H1 | H1]]); rewrite H1.
    + destruct (IH scene1 (kept ++ [set_timing d e t]) completed)
        as (scene' & ks & cs & Hf & Hc & HQ).
      exists scene', (set_timing d e t :: ks), cs.
      rewrite Hf, <- app_assoc. split; [reflexivity |]. split.
      * intros i p. specialize (Hc i p).
        rewrite !track_count_cons, track_on_set_timing. lia.
      * intros P Ht HF. apply Forall_cons in HF as [Hq HF].
        destruct (HQ P Ht HF). split; [constructor |]; auto.
    + destruct (IH scene1 kept (completed ++ [set_timing d e t]))
        as (scene' & ks & cs & Hf & Hc & HQ).
      exists scene', ks, (set_timing d e t :: cs).
      rewrite Hf, <- app_assoc. split; [reflexivity |]. split.
      * intros i p. specialize (Hc i p).
        rewrite !track_count_cons, track_on_set_timing. lia.
      * intros P Ht HF. apply Forall_cons in HF as [Hq HF].
        destruct (HQ P Ht HF). split; [| constructor]; auto.
    + destruct (IH scene1 kept completed)
        as (scene' & ks & cs & Hf & Hc & HQ).
      exists scene', ks, cs. split; [exact Hf |]. split.
      * intros i p. specialize (Hc i p). rewrite track_count_cons. lia.
      * intros P Ht HF. apply Forall_cons in HF as [Hq HF]. auto.
Qed.

Lemma Tick_tracks (E : EasingLibrary) (scene : Scene) (dt : Q) :
  (forall i p,
      (track_count i p (m_Animations (Tick E scene dt).1)
       + track_count i p (Tick E scene dt).2
       <= track_count i p (m_Animations scene))%nat) /\
  (forall P : Track -> Prop,
      (forall t d e, P t -> P (set_timing d e t)) ->
      Forall P (m_Animations scene) ->
      Forall P (m_Animations (Tick E scene dt).1) /\
      Forall P (Tick E scene dt).2).
Proof.
  unfold Tick.
  destruct (foldl_tick_tracks E dt (m_Animations scene) scene [] [])
    as (scene' & ks & cs & Hf & Hc & HQ).
  rewrite Hf. simpl. split; assumption.
Qed.


Lemma Start_ok (scene scene' : Scene) (h : HNode) (p : Z) (to : Vector4)
  (easing : Z) (duration delay : Q) (cb : option AnimationComplete) (a b : Z) :
  Start scene h p to easing duration delay cb a b = (RESULT_OK, scene') ->
  exists start,
    get_property scene h p = Some start /\
    Validate scene h = true /\
    in_range p PROPERTY_COUNT = true /\
    in_range easing EASING_COUNT = true /\
    scene' = set_Animations
               (filter (fun t => track_on (handle_index h) p t = false)
                       (m_Animations scene)
                ++ [mkTrack h p start to easing duration (Qmax0 delay) 0%Q cb a b])
               scene.
Proof.
  unfold Start.
  destruct (Validate scene h); [| discriminate].
  destruct (in_range p PROPERTY_COUNT); [| discriminate].
  destruct (in_range easing EASING_COUNT); [| discriminate].
  destruct (get_property scene h p) as [start |]; [| discriminate].
  simpl. intros [= <-]. exists start. auto.
Qed.

(** A failed [Start] leaves the scene as it was. *)
Lemma Start_failed (scene : Scene) (h : HNode) (p : Z) (to : Vector4)
  (easing : Z) (duration delay : Q) (cb : option AnimationComplete) (a b : Z) :
  (Start scene h p to easing duration delay cb a b).1 <> RESULT_OK ->
  (Start scene h p to easing duration delay cb a b).2 = scene.
Proof.
  unfold Start.
  destruct (Validate scene h); [| reflexivity].
  destruct (in_range p PROPERTY_COUNT); [| reflexivity].
  destruct (in_range easing EASING_COUNT); [| reflexivity].
  destruct (get_property scene h p); [| reflexivity].
  simpl. congruence.
Qed.

Lemma track_on_inj (i p i' p' : Z) (t : Track) :
  track_on i p t = true -> track_on i' p' t = true -> i' = i /\ p' = p.
Proof. unfold track_on. rewrite !andb_true_iff, !Z.eqb_eq. lia. Qed.

Lemma Start_one_track_per_pair (scene : Scene) (h : HNode) (p : Z) (to : Vector4)
  (easing : Z) (duration delay : Q) (cb : option AnimationComplete) (a b : Z) :
  one_track_per_pair scene ->
  one_track_per_pair (Start scene h p to easing duration delay cb a b).2.
Proof.
  intros Hinv.
  destruct (Start scene h p to easing duration delay cb a b) as [r scene'] eqn:HS.
  destruct r; try (pose proof (Start_failed scene h p to easing duration delay cb a b)
                     as Hf; rewrite HS in Hf; simpl in *; rewrite Hf by discriminate;
                   exact Hinv).
  apply Start_ok in HS as (start & _ & _ & _ & _ & ->).
  intros i' p'. simpl. rewrite track_count_app, track_count_cons.
  change (track_count i' p' []) with O.
  match goal with |- context [track_on i' p' ?t] => set (new := t) end.
  destruct (track_on i' p' new) eqn:Hon.
  - assert (Hnew : track_on (handle_index h) p new = true)
      by (unfold track_on; simpl; rewrite !Z.eqb_refl; reflexivity).
    destruct (track_on_inj _ _ _ _ _ Hnew Hon) as [-> ->].
    rewrite track_count_removed. lia.
  - pose proof (track_count_filter_le i' p'
                  (fun t => track_on (handle_index h) p t = false)
                  (m_Animations scene)).
    specialize (Hinv i' p'). lia.
Qed.

Lemma Forall_filter_keep {A : Type} (P : A -> Prop) (R : A -> Prop)
  `{forall x, Decision (R x)} (l : list A) :
  Forall P l -> Forall P (filter R l).
Proof.
  intros Hl. apply Forall_forall. intros x Hx.
  apply list_elem_of_filter in Hx as [_ Hx].
  rewrite Forall_forall in Hl. auto.
Qed.

Lemma sweep_slot_tracks (i p : Z) (P : Track -> Prop) (scene : Scene) (j : nat) :
  (track_count i p (m_Animations (sweep_slot scene j))
   <= track_count i p (m_Animations scene))%nat /\
  (Forall P (m_Animations scene) -> Forall P (m_Animations (sweep_slot scene j))).
Proof.
  unfold sweep_slot. destruct (m_Nodes scene !! j) as [n |]; [| auto].
  destruct ((m_Index n =? Z.of_nat j) && m_Deleted n); [| auto].
  simpl. split; [apply track_count_filter_le | apply Forall_filter_keep].
Qed.

Lemma Sweep_tracks (i p : Z) (P : Track -> Prop) (scene : Scene) :
  (track_count i p (m_Animations (Sweep scene))
   <= track_count i p (m_Animations scene))%nat /\
  (Forall P (m_Animations scene) -> Forall P (m_Animations (Sweep scene))).
Proof.
  unfold Sweep. generalize (seq 0 (length (m_Nodes scene))). intros l.
  revert scene. induction l as [| j l IH]; intros scene; [auto |].
  cbn [foldl]. destruct (IH (sweep_slot scene j)) as [Hc HP].
  destruct (sweep_slot_tracks i p P scene j) as [Hc' HP'].
  split; [lia | auto].
Qed.

Lemma pool_op_tracks (i p : Z) (P : Track -> Prop) (op : PoolOp) (scene : Scene) :
  (track_count i p (m_Animations (pool_op op scene))
   <= track_count i p (m_Animations scene))%nat /\
  (Forall P (m_Animations scene) -> Forall P (m_Animations (pool_op op scene))).
Proof.
  destruct op as [kind | h |]; simpl.
  - unfold Allocate. destruct (m_NodePool scene); [auto |].
    destruct (m_Nodes scene !! Z.to_nat z) as [n |]; [| auto].
    destruct (MakeHandle (m_Version n) z =? 0); auto.
  - unfold MarkDeleted. destruct (Validate scene h); [| auto].
    destruct (m_Nodes scene !! Z.to_nat (handle_index h)); auto.
  - apply Sweep_tracks.
Qed.

(** One operation that does not start a track on [(i, p)]: the tracks on
    the pair, kept or completed, do not grow in number, and they are tracks
    that were there, up to their timing. *)
Lemma scene_op_tracks (E : EasingLibrary) (i p : Z) (P : Track -> Prop)
  (op : SceneOp) (scene : Scene) :
  starts_on i p op = false ->
  (forall t d e, P t -> P (set_timing d e t)) ->
  (forall t, track_on i p t = false -> P t) ->
  (track_count i p (m_Animations (scene_op E op scene).1)
   + track_count i p (scene_op E op scene).2
   <= track_count i p (m_Animations scene))%nat /\
  (Forall P (m_Animations scene) ->
   Forall P (m_Animations (scene_op E op scene).1) /\
   Forall P (scene_op E op scene).2).
Proof.
  intros Hop Htiming Hother.
  destruct op as [h p' to easing duration delay cb u1 u2 | h p' | dt | op];
    cbn [scene_op fst snd].
  - change (track_count i p []) with O.
    destruct (Start scene h p' to easing duration delay cb u1 u2)
      as [r scene'] eqn:HS.
    assert (Hcases : scene' = scene \/
              exists start,
                scene' = set_Animations
                  (filter (fun t => track_on (handle_index h) p' t = false)
                          (m_Animations scene)
                   ++ [mkTrack h p' start to easing duration (Qmax0 delay)
                               0%Q cb u1 u2]) scene).
    { destruct r;
        try (left;
             pose proof (Start_failed scene h p' to easing duration delay cb u1 u2)
               as Hf; rewrite HS in Hf; apply Hf; discriminate).
      right. apply Start_ok in HS as (start & _ & _ & _ & _ & ->). eauto. }
    cbn [snd]. destruct Hcases as [-> | (start & ->)].
    + split; [lia | intros; split; [assumption | constructor]].
    + assert (Hnew : track_on i p (mkTrack h p' start to easing duration
                                           (Qmax0 delay) 0%Q cb u1 u2) = false)
        by exact Hop.
      cbn [m_Animations set_Animations]. split.
      * rewrite track_count_app, track_count_cons, Hnew.
        change (track_count i p []) with O.
        pose proof (track_count_filter_le i p
                      (fun t => track_on (handle_index h) p' t = false)
                      (m_Animations scene)). lia.
      * intros HP. split; [| constructor].
        apply Forall_app. split; [apply Forall_filter_keep; exact HP |].
        constructor; [apply Hother; exact Hnew | constructor].
  - change (track_count i p []) with O. unfold CancelAnimation.
    cbn [m_Animations set_Animations]. split.
    + pose proof (track_count_filter_le i p
                    (fun t => track_on (handle_index h) p' t = false)
                    (m_Animations scene)). lia.
    + intros HP. split; [apply Forall_filter_keep; exact HP | constructor].
  - destruct (Tick_tracks E scene dt) as [Hc HP]. split; [apply Hc | auto].
  - change (track_count i p []) with O.
    destruct (pool_op_tracks i p P op scene) as [Hc HP].
    split; [lia | intros; split; [auto | constructor]].
Qed.

Lemma scene_run_tracks (E : EasingLibrary) (i p : Z) (P : Track -> Prop)
  (ops : list SceneOp) :
  forallb (fun op => negb (starts_on i p op)) ops = true ->
  (forall t d e, P t -> P (set_timing d e t)) ->
  (forall t, track_on i p t = false -> P t) ->
  forall scene,
    (track_count i p (m_Animations (scene_run E ops scene).1)
     + track_count i p (scene_run E ops scene).2
     <= track_count i p (m_Animations scene))%nat /\
    (Forall P (m_Animations scene) ->
     Forall P (m_Animations (scene_run E ops scene).1) /\
     Forall P (scene_run E ops scene).2).
Proof.
  intros Hops Htiming Hother.
  induction ops as [| op ops IH]; intros scene.
  - simpl. change (track_count i p []) with O.
    split; [lia | intros; split; [assumption | constructor]].
  - cbn [forallb] in Hops. apply andb_true_iff in Hops as [Hop Hops].
    apply negb_true_iff in Hop.
    destruct (scene_op_tracks E i p P op scene Hop Htiming Hother) as [Hc HP].
    cbn [scene_run].
    destruct (scene_op E op scene) as [scene1 completed1]. cbn [fst snd] in Hc, HP.
    destruct (IH Hops scene1) as [Hc' HP'].
    destruct (scene_run E ops scene1) as [scene2 completed2].
    cbn [fst snd] in *. split.
    + rewrite track_count_app. lia.
    + intros HF. destruct (HP HF) as [HF1 HC1]. destruct (HP' HF1) as [HF2 HC2].
      split; [exact HF2 | apply Forall_app; auto].
Qed.

(** A frame is a tick followed by a sweep. *)
Lemma Update_scene_run (E : EasingLibrary) (scene : Scene) (dt : Q) :
  Update E scene dt = scene_run E [OTick dt; OPool OpSweep] scene.
Proof.
  unfold Update. cbn [scene_run scene_op pool_op].
  destruct (Tick E scene dt) as [scene' completed].
  rewrite !app_nil_r. reflexivity.
Qed.

(** At most one track per pair, whatever the operations. *)
Lemma scene_run_one_track_per_pair (E : EasingLibrary) (ops : list SceneOp)
  (scene : Scene) :
  one_track_per_pair scene -> one_track_per_pair (scene_run E ops scene).1.
Proof.
  revert scene. induction ops as [| op ops IH]; intros scene Hinv; [exact Hinv |].
  cbn [scene_run].
  assert (Hinv1 : one_track_per_pair (scene_op E op scene).1).
  { destruct op as [h p' to easing duration delay cb u1 u2 | h p' | dt | op];
      cbn [scene_op fst].
    - apply Start_one_track_per_pair, Hinv.
    - intros i p. specialize (Hinv i p). unfold CancelAnimation.
      cbn [m_Animations set_Animations].
      pose proof (track_count_filter_le i p
                    (fun t => track_on (handle_index h) p' t = false)
                    (m_Animations scene)). lia.
    - intros i p. specialize (Hinv i p).
      destruct (Tick_tracks E scene dt) as [Hc _]. specialize (Hc i p). lia.
    - intros i p. specialize (Hinv i p).
      destruct (pool_op_tracks i p (fun _ => True) op scene) as [Hc _]. lia. }
  destruct (scene_op E op scene) as [scene1 completed1]. cbn [fst] in Hinv1.
  specialize (IH scene1 Hinv1).
  destruct (scene_run E ops scene1) as [scene2 completed2]. exact IH.
Qed.

(** C3.  In a scheduler that holds at most one track per pair, any sequence
    of operations leaves at most one track per pair.  After two successful
    [Start]s in a row on the same [(h, p)] the only track on [(h.index, p)]
    is the second one; and over any further operations that start no third
    track on that pair, at most one completion fires on the pair, and every
    completion that fires on it carries the function and the two words of
    the second [Start]. *)
Theorem second_Start_replaces_first (E : EasingLibrary)
  (scene scene1 scene2 : Scene) (h : HNode) (p : Z)
  (to1 to2 : Vector4) (easing1 easing2 : Z) (duration1 duration2 delay1 delay2 : Q)
  (cb1 cb2 : option AnimationComplete) (a1 b1 a2 b2 : Z)
  (Hinv : one_track_per_pair scene)
  (H1 : Start scene h p to1 easing1 duration1 delay1 cb1 a1 b1 = (RESULT_OK, scene1))
  (H2 : Start scene1 h p to2 easing2 duration2 delay2 cb2 a2 b2 = (RESULT_OK, scene2)) :
  (forall ops, one_track_per_pair (scene_run E ops scene).1) /\
  (exists start,
      get_property scene1 h p = Some start /\
      filter (fun t => track_on (handle_index h) p t = true) (m_Animations scene2)
      = [mkTrack h p start to2 easing2 duration2 (Qmax0 delay2) 0%Q cb2 a2 b2]) /\
  forall ops,
    forallb (fun op => negb (starts_on (handle_index h) p op)) ops = true ->
    (track_count (handle_index h) p (scene_run E ops scene2).2 <= 1)%nat /\
    Forall (fun t => track_on (handle_index h) p t = true ->
                     track_token t = (cb2, a2, b2))
           (scene_run E ops scene2).2.
Proof.
  split; [intros ops; apply scene_run_one_track_per_pair, Hinv |].
  assert (Hinv1 : one_track_per_pair scene1).
  { pose proof (Start_one_track_per_pair scene h p to1 easing1 duration1 delay1
                  cb1 a1 b1 Hinv) as H. rewrite H1 in H. exact H. }
  assert (Hinv2 : one_track_per_pair scene2).
  { pose proof (Start_one_track_per_pair scene1 h p to2 easing2 duration2 delay2
                  cb2 a2 b2 Hinv1) as H. rewrite H2 in H. exact H. }
  apply Start_ok in H2 as (start & Hstart & _ & _ & _ & Hscene2).
  set (new := mkTrack h p start to2 easing2 duration2 (Qmax0 delay2) 0%Q cb2 a2 b2)
    in *.
  set (rest := filter (fun t => track_on (handle_index h) p t = false)
                      (m_Animations scene1)) in *.
  assert (Hanims2 : m_Animations scene2 = rest ++ [new])
    by (rewrite Hscene2; reflexivity).
  assert (Hnew : track_on (handle_index h) p new = true)
    by (unfold track_on; simpl; rewrite !Z.eqb_refl; reflexivity).
  assert (Hrest : filter (fun t => track_on (handle_index h) p t = true) rest = []).
  { apply nil_length_inv. apply (track_count_removed (handle_index h) p). }
  split.
  { exists start. split; [exact Hstart |].
    rewrite Hanims2, filter_app, Hrest, filter_cons.
    destruct (decide (track_on (handle_index h) p new = true)); [reflexivity |].
    contradiction. }
  intros ops Hops.
  destruct (scene_run_tracks E (handle_index h) p
              (fun t => track_on (handle_index h) p t = true ->
                        track_token t = (cb2, a2, b2))
              ops Hops) with (scene := scene2) as [Hcount Hall].
  { intros t d e Ht. exact Ht. }
  { intros t Hoff Hon. congruence. }
  split.
  { specialize (Hinv2 (handle_index h) p). lia. }
  apply Hall. rewrite Hanims2. apply Forall_app. split.
  - apply Forall_forall. intros t Ht Hon. unfold rest in Ht.
    apply list_elem_of_filter in Ht as [Hoff _]. congruence.
  - constructor; [| constructor]. intros _. reflexivity.
Qed.

(** *** Writes through a handle *)

Lemma IsValidNode_update (scene : Scene) (i : nat) (n n' : InternalNode) (h : HNode) :
  m_Nodes scene !! i = Some n ->
  m_Version n' = m_Version n ->
  m_Index n' = m_Index n ->
  IsValidNode (set_Nodes (<[i := n']> (m_Nodes scene)) scene) h
  = IsValidNode scene h.
Proof.
  intros Hn Hv Hi. unfold IsValidNode. simpl. rewrite length_insert.
  destruct (Z.ltb_spec (Z.land h 0xffff) (Z.of_nat (length (m_Nodes scene))));
    [| reflexivity].
  destruct (decide (i = Z.to_nat (Z.land h 0xffff))) as [He | Hne].
  - rewrite <- He, Hn.
    rewrite list_lookup_insert_eq by (eapply lookup_lt_Some; exact Hn).
    rewrite Hv, Hi. reflexivity.
  - rewrite list_lookup_insert_ne by exact Hne. reflexivity.
Qed.

Lemma Validate_set_property (scene : Scene) (h h' : HNode) (p : Z) (v : Vector4) :
  Validate (set_property scene h p v) h' = Validate scene h'.
Proof.
  unfold Validate, set_property.
  destruct (m_Nodes scene !! Z.to_nat (handle_index h)) as [n |] eqn:Hn;
    [| reflexivity].
  rewrite (IsValidNode_update scene _ n) by (assumption || reflexivity).
  reflexivity.
Qed.

Lemma pending_delete_set_property (scene : Scene) (h h' : HNode) (p : Z) (v : Vector4) :
  pending_delete (set_property scene h p v) h' = pending_delete scene h'.
Proof.
  unfold pending_delete, set_property.
  destruct (m_Nodes scene !! Z.to_nat (handle_index h)) as [n |] eqn:Hn;
    [| reflexivity].
  simpl.
  destruct (decide (Z.to_nat (handle_index h) = Z.to_nat (handle_index h')))
    as [He | Hne].
  - rewrite <- He, Hn.
    rewrite list_lookup_insert_eq by (eapply lookup_lt_Some; exact Hn).
    reflexivity.
  - rewrite list_lookup_insert_ne by exact Hne. reflexivity.
Qed.

Lemma get_property_set_property (scene : Scene) (h : HNode) (p : Z) (v : Vector4) :
  is_Some (get_property scene h p) ->
  get_property (set_property scene h p v) h p = Some v.
Proof.
  unfold get_property, set_property. intros [w Hw].
  destruct (m_Nodes scene !! Z.to_nat (handle_index h)) as [n |] eqn:Hn;
    [| discriminate].
  simpl.
  rewrite list_lookup_insert_eq by (eapply lookup_lt_Some; exact Hn).
  simpl. apply list_lookup_insert_eq. eapply lookup_lt_Some; exact Hw.
Qed.

(** *** A linear track past its delay *)

Lemma tick_track_linear (E : EasingLibrary) (dt : Q) (scene : Scene)
  (kept completed : list Track) (t : Track) :
  Validate scene (t_Node t) = true ->
  pending_delete scene (t_Node t) = false ->
  t_Delay t = 0%Q ->
  t_Easing t = EASING_NONE ->
  (0 < t_Duration t)%Q ->
  let elapsed := (t_Elapsed t + (dt - 0))%Q in
  let tn := Qmin1 (elapsed / t_Duration t) in
  let scene1 := set_property scene (t_Node t) (t_Property t)
                             (lerp (t_From t) (t_To t) tn) in
  tick_track E dt (scene, kept, completed) t
  = if Qle_bool 1 tn
    then (set_property scene1 (t_Node t) (t_Property t) (t_To t),
          kept, completed ++ [set_timing 0%Q elapsed t])
    else (scene1, kept ++ [set_timing 0%Q elapsed t], completed).
Proof.
  intros Hvalid Hlive Hdelay Heasing Hpos. cbv zeta.
  unfold tick_track. rewrite Hdelay, Hvalid, Hlive, Heasing.
  change (Qlt_bool 0 0) with false. cbn [andb negb orb].
  assert (Hd : Qle_bool (t_Duration t) 0 = false).
  { destruct (Qle_bool (t_Duration t) 0) eqn:Hle; [| reflexivity].
    apply Qle_bool_iff in Hle. lra. }
  rewrite Hd. reflexivity.
Qed.

Lemma Qmin1_small (x : Q) : (x <= 1)%Q -> Qmin1 x = x.
Proof.
  intros Hx. unfold Qmin1.
  destruct (Qle_bool x 1) eqn:Hle; [reflexivity |].
  apply Qle_bool_iff in Hx. congruence.
Qed.

Lemma Qle_bool_false (x y : Q) : (y < x)%Q -> Qle_bool x y = false.
Proof.
  intros Hlt. destruct (Qle_bool x y) eqn:Hle; [| reflexivity].
  apply Qle_bool_iff in Hle. lra.
Qed.

Lemma Qle_bool_true (x y : Q) : (x <= y)%Q -> Qle_bool x y = true.
Proof. apply Qle_bool_iff. Qed.


Lemma get_property_set_property_other (scene : Scene) (h h' : HNode) (p p' : Z)
  (v : Vector4) :
  0 <= p -> 0 <= p' ->
  (handle_index h' =? handle_index h) && (p' =? p) = false ->
  get_property (set_property scene h' p' v) h p = get_property scene h p.
Proof.
  intros Hp Hp' Hoff. unfold get_property, set_property.
  pose proof (handle_index_bounds h). pose proof (handle_index_bounds h').
  destruct (m_Nodes scene !! Z.to_nat (handle_index h')) as [n' |] eqn:Hn';
    [| reflexivity].
  simpl.
  destruct (Z.eqb_spec (handle_index h') (handle_index h)) as [Hi | Hi].
  - rewrite Hi in *. rewrite Hn'.
    rewrite list_lookup_insert_eq by (eapply lookup_lt_Some; exact Hn').
    simpl. simpl in Hoff. apply Z.eqb_neq in Hoff.
    apply list_lookup_insert_ne. lia.
  - rewrite list_lookup_insert_ne by lia. reflexivity.
Qed.

Lemma tick_track_frame (E : EasingLibrary) (dt : Q) (P : Scene -> Prop)
  (scene : Scene) (kept completed : list Track) (t : Track) :
  (forall sc v, P sc -> P (set_property sc (t_Node t) (t_Property t) v)) ->
  P scene -> P (tick_track E dt (scene, kept, completed) t).1.1.
Proof.
  intros Hset HP. unfold tick_track.
  destruct (Qlt_bool 0 (t_Delay t) && Qlt_bool dt (t_Delay t)); [exact HP |].
  destruct (negb (Validate scene (t_Node t)) || pending_delete scene (t_Node t));
    [exact HP |].
  destruct (Qle_bool (t_Duration t) 0); [apply Hset, HP |].
  destruct (Qle_bool 1 _); simpl; auto.
Qed.

Lemma foldl_tick_frame (E : EasingLibrary) (dt : Q) (P : Scene -> Prop)
  (l : list Track) :
  Forall (fun t => forall sc v,
              P sc -> P (set_property sc (t_Node t) (t_Property t) v)) l ->
  forall scene kept completed,
    P scene -> P (foldl (tick_track E dt) (scene, kept, completed) l).1.1.
Proof.
  induction 1 as [| t l Ht _ IH]; intros scene kept completed HP; [exact HP |].
  cbn [foldl].
  pose proof (tick_track_frame E dt P scene kept completed t Ht HP) as HP1.
  destruct (tick_track E dt (scene, kept, completed) t) as [[scene1 kept1] completed1].
  apply IH. exact HP1.
Qed.

(** Ticking tracks that sit on other pairs leaves the node behind [h] as
    valid and as marked as it was, and its property [p] untouched. *)
Lemma foldl_tick_others (E : EasingLibrary) (dt : Q) (h : HNode) (p : Z)
  (l : list Track) (scene : Scene) (kept completed : list Track) :
  0 <= p ->
  Forall (other_track (handle_index h) p) l ->
  exists scene' ks cs,
    foldl (tick_track E dt) (scene, kept, completed) l
    = (scene', kept ++ ks, completed ++ cs) /\
    Validate scene' h = Validate scene h /\
    pending_delete scene' h = pending_delete scene h /\
    get_property scene' h p = get_property scene h p /\
    Forall (other_track (handle_index h) p) ks /\
    Forall (other_track (handle_index h) p) cs.
Proof.
  intros Hp Hl.
  destruct (foldl_tick_tracks E dt l scene kept completed)
    as (scene' & ks & cs & Hf & _ & Hall).
  exists scene', ks, cs. split; [exact Hf |].
  destruct (Hall (other_track (handle_index h) p)) as [Hks Hcs];
    [intros t d e Ht; exact Ht | exact Hl |].
  assert (Hfr : (fun sc => Validate sc h = Validate scene h /\
                           pending_delete sc h = pending_delete scene h /\
                           get_property sc h p = get_property scene h p)
                  (foldl (tick_track E dt) (scene, kept, completed) l).1.1).
  { apply foldl_tick_frame; [| auto].
    eapply Forall_impl; [exact Hl |].
    intros t [Hoff Hpt] sc v (Hv & Hd & Hg).
    rewrite Validate_set_property, pending_delete_set_property.
    rewrite get_property_set_property_other; auto. }
  rewrite Hf in Hfr. simpl in Hfr. destruct Hfr as (Hv & Hd & Hg). auto 10.
Qed.

Lemma Validate_set_Animations (anims : list Track) (scene : Scene) (h : HNode) :
  Validate (set_Animations anims scene) h = Validate scene h.
Proof. reflexivity. Qed.

(** One tick of a scheduler in which a linear track without delay sits
    among tracks on other pairs. *)
Lemma Tick_linear_track (E : EasingLibrary) (dt : Q) (scene : Scene)
  (l1 l2 : list Track) (t : Track) :
  let h := t_Node t in
  let p := t_Property t in
  let elapsed := (t_Elapsed t + (dt - 0))%Q in
  let tn := Qmin1 (elapsed / t_Duration t) in
  0 <= p ->
  m_Animations scene = l1 ++ t :: l2 ->
  Forall (other_track (handle_index h) p) l1 ->
  Forall (other_track (handle_index h) p) l2 ->
  Validate scene h = true ->
  pending_delete scene h = false ->
  is_Some (get_property scene h p) ->
  t_Delay t = 0%Q ->
  t_Easing t = EASING_NONE ->
  (0 < t_Duration t)%Q ->
  exists ks1 ks2 cs1 cs2,
    Forall (other_track (handle_index h) p) ks1 /\
    Forall (other_track (handle_index h) p) ks2 /\
    Forall (other_track (handle_index h) p) cs1 /\
    Forall (other_track (handle_index h) p) cs2 /\
    Validate (Tick E scene dt).1 h = true /\
    pending_delete (Tick E scene dt).1 h = false /\
    if Qle_bool 1 tn then
      m_Animations (Tick E scene dt).1 = ks1 ++ ks2 /\
      (Tick E scene dt).2 = cs1 ++ set_timing 0%Q elapsed t :: cs2 /\
      get_property (Tick E scene dt).1 h p = Some (t_To t)
    else
      m_Animations (Tick E scene dt).1 = ks1 ++ set_timing 0%Q elapsed t :: ks2 /\
      (Tick E scene dt).2 = cs1 ++ cs2 /\
      get_property (Tick E scene dt).1 h p
      = Some (lerp (t_From t) (t_To t) tn).
Proof.
  intros h p elapsed tn Hp Hanims Hl1 Hl2 Hvalid Hlive Hprop Hdelay Heasing Hpos.
  unfold Tick. rewrite Hanims, foldl_app. cbn [foldl].
  destruct (foldl_tick_others E dt h p l1 scene [] [] Hp Hl1)
    as (sa & ks1 & cs1 & Hfa & Hva & Hda & Hga & Hks1 & Hcs1).
  rewrite Hfa. cbn [app].
  rewrite Hvalid in Hva. rewrite Hlive in Hda. rewrite <- Hga in Hprop.
  rewrite (tick_track_linear E dt sa ks1 cs1 t Hva Hda Hdelay Heasing Hpos).
  fold h p elapsed tn.
  exists ks1.
  destruct (Qle_bool 1 tn).
  - set (sb := set_property (set_property sa h p (lerp (t_From t) (t_To t) tn))
                            h p (t_To t)).
    destruct (foldl_tick_others E dt h p l2 sb ks1
                (cs1 ++ [set_timing 0%Q elapsed t]) Hp Hl2)
      as (sc & ks2 & cs2 & Hfb & Hvb & Hdb & Hgb & Hks2 & Hcs2).
    rewrite Hfb. exists ks2, cs1, cs2. cbn [fst snd m_Animations set_Animations].
    rewrite Validate_set_Animations.
    unfold sb in Hvb, Hdb, Hgb.
    rewrite !Validate_set_property in Hvb.
    rewrite !pending_delete_set_property in Hdb.
    rewrite get_property_set_property in Hgb
      by (rewrite get_property_set_property by exact Hprop; eauto).
    change (pending_delete (set_Animations ?a sc) h) with (pending_delete sc h).
    repeat split; try assumption; try congruence.
    rewrite <- app_assoc. reflexivity.
  - set (sb := set_property sa h p (lerp (t_From t) (t_To t) tn)).
    destruct (foldl_tick_others E dt h p l2 sb
                (ks1 ++ [set_timing 0%Q elapsed t]) cs1 Hp Hl2)
      as (sc & ks2 & cs2 & Hfb & Hvb & Hdb & Hgb & Hks2 & Hcs2).
    rewrite Hfb. exists ks2, cs1, cs2. cbn [fst snd m_Animations set_Animations].
    rewrite Validate_set_Animations.
    unfold sb in Hvb, Hdb, Hgb.
    rewrite !Validate_set_property in Hvb.
    rewrite !pending_delete_set_property in Hdb.
    rewrite get_property_set_property in Hgb by exact Hprop.
    change (pending_delete (set_Animations ?a sc) h) with (pending_delete sc h).
    repeat split; try assumption; try congruence.
    rewrite <- app_assoc. reflexivity.
Qed.

Lemma track_count_zero (i p : Z) (l : list Track) :
  track_count i p l = O <-> Forall (fun t => track_on i p t = false) l.
Proof.
  induction l as [| t l IH].
  - split; [constructor | reflexivity].
  - rewrite track_count_cons, Forall_cons. destruct (track_on i p t).
    + split; [lia | intros [? _]; discriminate].
    + rewrite <- IH. split; [auto | intros [_ ?]; assumption].
Qed.

Lemma others_count (i p : Z) (l : list Track) :
  Forall (other_track i p) l -> track_count i p l = O.
Proof.
  intros Hl. apply track_count_zero.
  eapply Forall_impl; [exact Hl |]. intros t [Hoff _]. exact Hoff.
Qed.

Lemma others_filter (i p : Z) (l : list Track) :
  Forall (other_track i p) l ->
  filter (fun t => track_on i p t = true) l = [].
Proof. intros Hl. apply nil_length_inv, (others_count i p l Hl). Qed.

(** In a scheduler with at most one track per pair, the tracks around a
    track on [(i, p)] are on other pairs. *)
Lemma one_track_split (scene : Scene) (t : Track) :
  one_track_per_pair scene ->
  Forall (fun t' => 0 <= t_Property t') (m_Animations scene) ->
  t ∈ m_Animations scene ->
  exists l1 l2,
    m_Animations scene = l1 ++ t :: l2 /\
    Forall (other_track (handle_index (t_Node t)) (t_Property t)) l1 /\
    Forall (other_track (handle_index (t_Node t)) (t_Property t)) l2.
Proof.
  intros Hinv Hrange Hin.
  apply list_elem_of_split in Hin as (l1 & l2 & Hsplit).
  exists l1, l2. split; [exact Hsplit |].
  specialize (Hinv (handle_index (t_Node t)) (t_Property t)).
  rewrite Hsplit in Hinv, Hrange.
  rewrite track_count_app, track_count_cons in Hinv.
  assert (Hon : track_on (handle_index (t_Node t)) (t_Property t) t = true)
    by (unfold track_on; rewrite !Z.eqb_refl; reflexivity).
  rewrite Hon in Hinv.
  apply Forall_app in Hrange as [Hr1 Hr2]. apply Forall_cons in Hr2 as [_ Hr2].
  assert (H1 : track_count (handle_index (t_Node t)) (t_Property t) l1 = O) by lia.
  assert (H2 : track_count (handle_index (t_Node t)) (t_Property t) l2 = O) by lia.
  apply track_count_zero in H1, H2.
  split; apply Forall_and; split; assumption.
Qed.



(** ** Versions across operations *)

Lemma same_slots_refl (scene : Scene) : same_slots scene scene.
Proof. split; [| split]; eauto. Qed.

Lemma same_slots_trans (s1 s2 s3 : Scene) :
  same_slots s1 s2 -> same_slots s2 s3 -> same_slots s1 s3.
Proof.
  intros (Hp & Hl & Hn) (Hp' & Hl' & Hn').
  split; [congruence |]. split; [congruence |].
  intros i n Hi. destruct (Hn i n Hi) as (n' & Hi' & Hv & Hx & Hd).
  destruct (Hn' i n' Hi') as (n'' & Hi'' & Hv' & Hx' & Hd').
  exists n''. repeat split; congruence.
Qed.

Lemma same_slots_set_property (scene : Scene) (h : HNode) (p : Z) (v : Vector4) :
  same_slots scene (set_property scene h p v).
Proof.
  unfold set_property.
  destruct (m_Nodes scene !! Z.to_nat (handle_index h)) as [n |] eqn:Hn;
    [| apply same_slots_refl].
  split; [reflexivity |]. split; [apply length_insert |].
  intros i m Hi. simpl.
  destruct (decide (i = Z.to_nat (handle_index h))) as [-> | Hne].
  - rewrite list_lookup_insert_eq by (eapply lookup_lt_Some; exact Hn).
    rewrite Hn in Hi. injection Hi as <-. eexists. split; [reflexivity |]. auto.
  - rewrite list_lookup_insert_ne by congruence. eauto.
Qed.

Lemma same_slots_set_Animations (scene : Scene) (anims : list Track) :
  same_slots scene (set_Animations anims scene).
Proof. split; [| split]; eauto. Qed.

Lemma Tick_same_slots (E : EasingLibrary) (scene : Scene) (dt : Q) :
  same_slots scene (Tick E scene dt).1.
Proof.
  unfold Tick.
  pose proof (foldl_tick_frame E dt (same_slots scene) (m_Animations scene)) as Hfr.
  destruct (foldl (tick_track E dt) (scene, [], []) (m_Animations scene))
    as [[scene' kept] completed] eqn:Hf.
  simpl. apply (same_slots_trans _ scene'); [| apply same_slots_set_Animations].
  specialize (Hfr ltac:(apply Forall_forall; intros t _ sc v Hsc;
                        eapply same_slots_trans;
                        [exact Hsc | apply same_slots_set_property])
                  scene [] [] (same_slots_refl scene)).
  rewrite Hf in Hfr. exact Hfr.
Qed.

Lemma Start_same_slots (scene : Scene) (h : HNode) (p : Z) (to : Vector4)
  (easing : Z) (duration delay : Q) (cb : option AnimationComplete) (a b : Z) :
  same_slots scene (Start scene h p to easing duration delay cb a b).2.
Proof.
  unfold Start.
  destruct (Validate scene h); [| apply same_slots_refl].
  destruct (in_range p PROPERTY_COUNT); [| apply same_slots_refl].
  destruct (in_range easing EASING_COUNT); [| apply same_slots_refl].
  destruct (get_property scene h p);
    [apply same_slots_set_Animations | apply same_slots_refl].
Qed.

(** The version a slot holds after one operation: only a [Sweep] that
    reclaims the slot changes it, by one, modulo 2^16. *)
Lemma pool_op_version (op : PoolOp) (scene : Scene) (i : nat) (n : InternalNode) :
  m_Nodes scene !! i = Some n ->
  exists n', m_Nodes (pool_op op scene) !! i = Some n' /\
    m_Version n'
    = match op with
      | OpSweep => if reclaimable scene i then uint16 (m_Version n + 1)
                   else m_Version n
      | _ => m_Version n
      end.
Proof.
  intros Hn. destruct op as [kind | h |]; simpl.
  - unfold Allocate. destruct (m_NodePool scene) as [| index free]; [eauto |].
    destruct (m_Nodes scene !! Z.to_nat index) as [m |] eqn:Hm; [| eauto].
    destruct (MakeHandle (m_Version m) index =? 0); [eauto |].
    simpl. destruct (decide (i = Z.to_nat index)) as [-> | Hne].
    + rewrite list_lookup_insert_eq by (eapply lookup_lt_Some; exact Hm).
      eexists. split; [reflexivity |]. simpl. congruence.
    + rewrite list_lookup_insert_ne by congruence. eauto.
  - unfold MarkDeleted. destruct (Validate scene h); [| eauto].
    destruct (m_Nodes scene !! Z.to_nat (handle_index h)) as [m |] eqn:Hm; [| eauto].
    simpl. destruct (decide (i = Z.to_nat (handle_index h))) as [-> | Hne].
    + rewrite list_lookup_insert_eq by (eapply lookup_lt_Some; exact Hm).
      eexists. split; [reflexivity |]. simpl. congruence.
    + rewrite list_lookup_insert_ne by congruence. eauto.
  - rewrite Sweep_lookup, Hn. simpl. eexists. split; [reflexivity |].
    unfold reclaimable, sweep_node. rewrite Hn.
    destruct ((m_Index n =? Z.of_nat i) && m_Deleted n); reflexivity.
Qed.

Lemma scene_op_version (E : EasingLibrary) (op : SceneOp) (scene : Scene)
  (i : nat) (n : InternalNode) :
  m_Nodes scene !! i = Some n ->
  exists n', m_Nodes (scene_op E op scene).1 !! i = Some n' /\
    m_Version n'
    = match op with
      | OPool OpSweep => if reclaimable scene i then uint16 (m_Version n + 1)
                         else m_Version n
      | _ => m_Version n
      end.
Proof.
  intros Hn.
  assert (Hsame : forall scene', same_slots scene scene' ->
            exists n', m_Nodes scene' !! i = Some n' /\ m_Version n' = m_Version n).
  { intros scene' (_ & _ & Hs). destruct (Hs i n Hn) as (n' & Hn' & Hv & _).
    eauto. }
  destruct op as [h p to easing duration delay cb u1 u2 | h p | dt | op];
    cbn [scene_op fst].
  - apply Hsame, Start_same_slots.
  - apply Hsame, same_slots_set_Animations.
  - apply Hsame, Tick_same_slots.
  - destruct (pool_op_version op scene i n Hn) as (n' & Hn' & Hv).
    exists n'. split; [exact Hn' |]. destruct op; exact Hv.
Qed.

Lemma scene_run_version (E : EasingLibrary) (ops : list SceneOp) (scene : Scene)
  (i : nat) (n : InternalNode) :
  m_Nodes scene !! i = Some n ->
  exists n', m_Nodes (scene_run E ops scene).1 !! i = Some n' /\
    uint16 (m_Version n')
    = uint16 (m_Version n + Z.of_nat (reclaims E i ops scene)).
Proof.
  revert scene n. induction ops as [| op ops IH]; intros scene n Hn.
  - exists n. simpl. rewrite Z.add_0_r. auto.
  - destruct (scene_op_version E op scene i n Hn) as (n1 & Hn1 & Hv1).
    cbn [scene_run reclaims].
    destruct (scene_op E op scene) as [scene1 completed1]. cbn [fst] in *.
    destruct (IH _ _ Hn1) as (n' & Hn' & Hv').
    destruct (scene_run E ops scene1) as [scene2 completed2]. cbn [fst] in *.
    exists n'. split; [exact Hn' |].
    rewrite Hv', Hv1.
    destruct op as [h p to easing duration delay cb u1 u2 | h p | dt | [kind | h |]];
      try (f_equal; lia).
    destruct (reclaimable scene i).
    + rewrite Nat2Z.inj_add. unfold uint16.
      rewrite Zplus_mod_idemp_l. f_equal; lia.
    + f_equal; lia.
Qed.

Lemma valid_pending_slot (scene : Scene) (h : HNode) :
  Validate scene h = true ->
  pending_delete scene h = true ->
  exists n, m_Nodes scene !! Z.to_nat (handle_index h) = Some n /\
            m_Version n = handle_version h /\
            m_Index n = handle_index h /\ m_Deleted n = true.
Proof.
  unfold Validate, pending_delete. intros Hvalid Hdel.
  destruct (IsValidNode scene h) as [[|] |] eqn:Hv; try discriminate.
  apply valid_slot in Hv as (n & Hn & Hver & Hidx).
  rewrite Hn in Hdel. eauto.
Qed.

(** The zero handle is no allocation result. *)
Lemma Allocate_nonzero (kind : NodeType) (scene : Scene) (h : HNode) :
  (Allocate kind scene).1 = inl h -> h <> 0.
Proof.
  unfold Allocate. destruct (m_NodePool scene) as [| index free]; [discriminate |].
  destruct (m_Nodes scene !! Z.to_nat index) as [n |]; [| discriminate].
  destruct (Z.eqb_spec (MakeHandle (m_Version n) index) 0) as [| Hne];
    [discriminate |].
  cbn [fst]. intros [= <-]. exact Hne.
Qed.

Lemma free_index_other (index : Z) : free_index index <> index.
Proof. unfold free_index. destruct (Z.eqb_spec index 0xffff); lia. Qed.

(** C7, as the pool has it.  Once a [Sweep] has reclaimed the slot of a
    valid, marked handle [h], [h] no longer validates; and whatever
    operations follow, an [Allocate] that takes the slot of [h] from the
    free list returns a handle of that index whose version is strictly
    greater than [h]'s, as long as the 16-bit version of the slot has not
    wrapped around: [h]'s version plus the number of times the slot has been
    reclaimed, this [Sweep] included, is below 2^16. *)
Theorem Sweep_invalidates_and_advances_version (E : EasingLibrary)
  (scene : Scene) (h : HNode)
  (Hvalid : Validate scene h = true)
  (Hdel : pending_delete scene h = true) :
  Validate (Sweep scene) h = false /\
  forall ops kind h' scene',
    let later := (scene_run E ops (Sweep scene)).1 in
    head (m_NodePool later) = Some (handle_index h) ->
    Allocate kind later = (inl h', scene') ->
    handle_version h + 1
    + Z.of_nat (reclaims E (Z.to_nat (handle_index h)) ops (Sweep scene)) < 2 ^ 16 ->
    handle_index h' = handle_index h /\
    handle_version h < handle_version h'.
Proof.
  destruct (valid_pending_slot scene h Hvalid Hdel) as (n & Hn & Hver & Hidx & Hd).
  pose proof (handle_index_bounds h) as Hib.
  pose proof (handle_version_bounds h) as Hvb.
  assert (Hswept : m_Nodes (Sweep scene) !! Z.to_nat (handle_index h)
                   = Some (reclaim n)).
  { rewrite Sweep_lookup, Hn. simpl. unfold sweep_node.
    rewrite Hidx, Z2Nat.id, Z.eqb_refl, Hd by lia. reflexivity. }
  split.
  - unfold Validate.
    destruct (IsValidNode (Sweep scene) h) as [[|] |] eqn:Hv; try reflexivity.
    apply valid_slot in Hv as (n' & Hn' & _ & Hidx').
    rewrite Hswept in Hn'. injection Hn' as <-. simpl in Hidx'.
    rewrite Hidx in Hidx'. exfalso. exact (free_index_other _ Hidx').
  - intros ops kind h' scene' later Hhead Halloc Hsmall.
    destruct (scene_run_version E ops (Sweep scene) _ _ Hswept) as (m & Hm & Hmv).
    fold later in Hm. simpl in Hmv. rewrite Hver in Hmv.
    unfold Allocate in Halloc.
    destruct (m_NodePool later) as [| index free]; [discriminate |].
    injection Hhead as ->.
    rewrite Hm in Halloc.
    destruct (MakeHandle (m_Version m) (handle_index h) =? 0); [discriminate |].
    injection Halloc as <- _.
    rewrite handle_index_MakeHandle, handle_version_MakeHandle by lia.
    split; [reflexivity |].
    fold (uint16 (m_Version m)). rewrite Hmv. unfold uint16.
    rewrite Zplus_mod_idemp_l.
    rewrite Z.mod_small by lia. lia.
Qed.

(** C7 as stated fails where the version counter wraps: the node of version
    [0xffff] in slot 1 of the example scene is valid and marked; after the
    [Sweep] its handle is invalid, and the [Allocate] that reuses slot 1
    returns a handle of version 0, which is not greater. *)
Lemma Allocate_after_wrap_not_greater :
  Validate example_scene example_old_node = true /\
  pending_delete example_scene example_old_node = true /\
  Validate (Sweep example_scene) example_old_node = false /\
  (Allocate NODE_TYPE_BOX (Sweep example_scene)).1 = inl (MakeHandle 0 1) /\
  handle_index (MakeHandle 0 1) = handle_index example_old_node /\
  handle_version example_old_node = 0xffff /\
  handle_version (MakeHandle 0 1) = 0 /\
  ~ handle_version example_old_node < handle_version (MakeHandle 0 1).
Proof.
  repeat split; try reflexivity. vm_compute. discriminate.
Qed.

Lemma Sweep_invalidates_and_advances_version_witness :
  let scene := (MarkDeleted example_scene example_node).2 in
  let later := (scene_run example_easing [OPool (OpAllocate NODE_TYPE_BOX)]
                          (Sweep scene)).1 in
  Validate scene example_node = true /\
  pending_delete scene example_node = true /\
  Validate (Sweep scene) example_node = false /\
  (Allocate NODE_TYPE_BOX later).1 = inl (MakeHandle 2 0) /\
  handle_index (MakeHandle 2 0) = handle_index example_node /\
  handle_version example_node < handle_version (MakeHandle 2 0).
Proof.
  intros scene later.
  assert (Hvalid : Validate scene example_node = true) by reflexivity.
  assert (Hdel : pending_delete scene example_node = true) by reflexivity.
  destruct (Sweep_invalidates_and_advances_version example_easing scene
              example_node Hvalid Hdel) as [Hgone Hlater].
  split; [exact Hvalid |]. split; [exact Hdel |]. split; [exact Hgone |].
  split; [reflexivity |].
  apply (Hlater [OPool (OpAllocate NODE_TYPE_BOX)] NODE_TYPE_BOX
           (MakeHandle 2 0) (Allocate NODE_TYPE_BOX later).2).
  - reflexivity.
  - reflexivity.
  - vm_compute. reflexivity.
Defined.

(** ** Completion *)

(** A completed track is a track of the scheduler with its timing
    advanced: its node, its function and its two words are the stored
    ones. *)
Lemma Tick_completed_stored (E : EasingLibrary) (scene : Scene) (dt : Q) :
  Forall (fun t => exists t0 d e,
              t0 ∈ m_Animations scene /\ t = set_timing d e t0)
         (Tick E scene dt).2.
Proof.
  destruct (Tick_tracks E scene dt) as [_ Hall].
  apply (Hall (fun t => exists t0 d e,
                   t0 ∈ m_Animations scene /\ t = set_timing d e t0)).
  - intros t d e (t0 & d0 & e0 & Hin & ->). exists t0, d, e. auto.
  - apply Forall_forall. intros t Hin.
    exists t, (t_Delay t), (t_Elapsed t). split; [exact Hin |].
    destruct t; reflexivity.
Qed.

(** What [LuaAnimationComplete] makes of its arguments on a live scene: the
    callee and its two arguments are read from the registry as it is on
    entry. *)
Lemma LuaAnimationComplete_run (script : ScriptFn) (luaL_unref : UnrefFn)
  (s : HScene) (node : HNode) (u1 u2 : Z) (st : LuaState) (sc : Scene) :
  lua_scenes st !! s = Some sc ->
  LuaAnimationComplete script luaL_unref s node u1 u2 st
  = (_ ← modify_state (set_scene_global (Some s));
     _ ← lua_pcall script (registry_get (lua_registry st) u1)
                   [registry_get (lua_registry st) (m_SelfReference sc);
                    registry_get (lua_registry st) u2];
     _ ← lua_unref luaL_unref u1;
     _ ← lua_unref luaL_unref u2;
     modify_state (set_scene_global None)) st.
Proof.
  intros Hs. unfold LuaAnimationComplete, lua_rawgeti, lua_pcall, lua_unref.
  lua_unfold. rewrite Hs. cbn [lua_registry set_scene_global].
  destruct (script _ _ _) as [[st' [|]] |]; reflexivity.
Qed.

(** A frame runs, between the tick and the sweep, the completion function
    of every completed track that has one, in the order of completion, on
    the track's node and words. *)
Lemma UpdateScene_fires (script : ScriptFn) (luaL_unref : UnrefFn)
  (E : EasingLibrary) (s : HScene) (dt : Q) (st : LuaState) (scene : Scene) :
  lua_scenes st !! s = Some scene ->
  UpdateScene script luaL_unref E s dt st
  = foldr (fun t rest =>
             _ ← match t_AnimationComplete t with
                 | Some LuaAnimationCompleteFn =>
                     LuaAnimationComplete script luaL_unref
                       s (t_Node t) (t_Userdata1 t) (t_Userdata2 t)
                 | None => mret tt
                 end;
             rest)
          (SweepScene s) (Tick E scene dt).2
          (set_scenes (<[s := (Tick E scene dt).1]> (lua_scenes st)) st).
Proof.
  intros Hs. unfold UpdateScene.
  unfold mbind at 1, lua_bind at 1, read_scene at 1. rewrite Hs.
  destruct (Tick E scene dt) as [scene' completed]. cbn [fst snd].
  unfold mbind at 1, lua_bind at 1, write_scene at 1, modify_state at 1.
  generalize (set_scenes (<[s := scene']> (lua_scenes st)) st). clear.
  induction completed as [| t completed IH]; intros st.
  - reflexivity.
  - cbn [omap list_omap foldr]. unfold completion_call at 1.
    destruct (t_AnimationComplete t) as [[] |].
    + cbn [invoke_all]. unfold invoke at 1.
      cbn [cc_Function cc_Node cc_Userdata1 cc_Userdata2].
      unfold mbind at 1 2 3, lua_bind at 1 2 3.
      destruct (LuaAnimationComplete _ _ _ _ _ _ _) as [[] st1 | e st1 |];
        [apply IH | reflexivity | reflexivity].
    + unfold mbind at 3, lua_bind at 3, mret at 2, lua_ret at 2. apply IH.
Qed.



(** ** Numbers *)

(** An integer within the range of [int] is its own integer part, and an
    integer below 2^24 in size is a [float] value. *)
Lemma fits_int_Z (z : Z) : INT_MIN <= z <= INT_MAX -> fits_int (inject_Z z).
Proof.
  intros Hz. unfold fits_int, to_int, inject_Z. cbn [Qnum Qden].
  rewrite Z.quot_1_r. exact Hz.
Qed.

Lemma is_float_Z (z : Z) : Z.abs z < 2 ^ 24 -> is_float (inject_Z z).
Proof.
  intros Hz. exists z, 0. split; [exact Hz |]. split; [lia |].
  cbn [Qpower]. ring.
Qed.

(** ** Checks and effects *)

Lemma keeps_state_bind {A B : Type} (m : Lua A) (k : A -> Lua B) :
  keeps_state m -> (forall a, keeps_state (k a)) -> keeps_state (m ≫= k).
Proof.
  intros Hm Hk st. specialize (Hm st). unfold mbind, lua_bind.
  destruct (m st) as [a st1 | e st1 |]; [| exact Hm | exact I].
  subst st1. apply Hk.
Qed.

Lemma keeps_state_mret {A : Type} (a : A) : keeps_state (mret a).
Proof. intros st. reflexivity. Qed.

Lemma keeps_state_luaL_error {A : Type} (e : LuaError) :
  keeps_state (luaL_error (A := A) e).
Proof. intros st. reflexivity. Qed.

Lemma keeps_state_fault {A : Type} : keeps_state (fault (A := A)).
Proof. intros st. exact I. Qed.

Lemma keeps_state_get_state : keeps_state get_state.
Proof. intros st. reflexivity. Qed.

Lemma keeps_state_read_scene (s : HScene) : keeps_state (read_scene s).
Proof. intros st. unfold read_scene. destruct (lua_scenes st !! s); reflexivity. Qed.

Lemma keeps_state_read_node (r : NodeRef) : keeps_state (read_node r).
Proof.
  apply keeps_state_bind; [apply keeps_state_read_scene |].
  intros scene. destruct (m_Nodes scene !! r.2);
    [apply keeps_state_mret | apply keeps_state_fault].
Qed.

Lemma keeps_state_LuaCheckNode (L : list LuaValue) (index : nat) :
  keeps_state (LuaCheckNode L index).
Proof.
  intros st.
  destruct (LuaCheckNode_cases L index st) as [[r H] | [[e H] | H]];
    rewrite H; reflexivity.
Qed.

Lemma keeps_state_luaL_checknumber (luaO_str2d : string -> option Q)
  (L : list LuaValue) (narg : nat) :
  keeps_state (luaL_checknumber luaO_str2d L narg).
Proof.
  intros st.
  destruct (luaL_checknumber_cases luaO_str2d L narg st) as [[x H] | [e H]];
    rewrite H; reflexivity.
Qed.

Lemma keeps_state_luaL_checkstring (lua_number2str : Q -> string)
  (L : list LuaValue) (narg : nat) :
  keeps_state (luaL_checkstring lua_number2str L narg).
Proof.
  intros st. unfold luaL_checkstring.
  destruct (lua_tostring lua_number2str (lua_arg L narg)); reflexivity.
Qed.

Lemma keeps_state_raise {A : Type} (m : Lua A) :
  keeps_state m -> raise_keeps_state m.
Proof. intros Hm st e st' H. specialize (Hm st). rewrite H in Hm. exact Hm. Qed.

Lemma raise_keeps_state_bind {A B : Type} (m : Lua A) (k : A -> Lua B) :
  keeps_state m -> (forall a, raise_keeps_state (k a)) ->
  raise_keeps_state (m ≫= k).
Proof.
  intros Hm Hk st e st'. specialize (Hm st). unfold mbind, lua_bind.
  destruct (m st) as [a st1 | e1 st1 |]; [| congruence | discriminate].
  subst st1. apply Hk.
Qed.

Lemma raise_keeps_state_write_node (r : NodeRef) (n : InternalNode) :
  raise_keeps_state (write_node r n).
Proof.
  intros st e st'. unfold write_node. lua_unfold.
  destruct (lua_scenes st !! r.1); discriminate.
Qed.

Lemma raise_keeps_state_on_scene (scene : option HScene) (f : Scene -> Scene) :
  raise_keeps_state (on_scene scene f).
Proof.
  intros st e st'. unfold on_scene. destruct scene as [s |]; lua_unfold;
    [| discriminate].
  destruct (lua_scenes st !! s); discriminate.
Qed.

Lemma raise_keeps_stateF_bind {A B : Type} (m : Lua A) (k : A -> LuaF B) :
  keeps_state m -> (forall a, raise_keeps_stateF (k a)) ->
  raise_keeps_stateF (liftF m ≫= k).
Proof.
  intros Hm Hk st e st'. specialize (Hm st).
  unfold mbind, luaF_bind, liftF.
  destruct (m st) as [a st1 | e1 st1 |]; [| congruence | discriminate].
  subst st1. apply Hk.
Qed.

Lemma raise_keeps_stateF_liftF {A : Type} (m : Lua A) :
  raise_keeps_state m -> raise_keeps_stateF (liftF m).
Proof.
  intros Hm st e st'. unfold liftF. specialize (Hm st).
  destruct (m st) as [a st1 | e1 st1 |]; [discriminate | | discriminate].
  intros [= _ <-]. eapply Hm. reflexivity.
Qed.

Lemma raise_keeps_stateF_luaL_errorf {A : Type} (fmt : string)
  (args : list FormatArg) :
  raise_keeps_stateF (luaL_errorf (A := A) fmt args).
Proof. intros st e st'. unfold luaL_errorf. intros [= _ <-]. reflexivity. Qed.

Lemma raise_keeps_stateF_faultF {A : Type} :
  raise_keeps_stateF (faultF (A := A)).
Proof. intros st e st'. discriminate. Qed.

Lemma raise_keeps_stateF_mret {A : Type} (a : A) :
  raise_keeps_stateF (mret a).
Proof. intros st e st'. discriminate. Qed.

Lemma raise_keeps_stateF_bind_check {B : Type} (c : bool) (fmt : string)
  (args : list FormatArg) (k : unit -> LuaF B) :
  raise_keeps_stateF (k tt) ->
  raise_keeps_stateF ((if c then luaL_errorf fmt args else mret tt) ≫= k).
Proof.
  intros Hk st e st'. unfold mbind, luaF_bind. destruct c.
  - unfold luaL_errorf. intros [= _ <-]. reflexivity.
  - apply Hk.
Qed.

Lemma keeps_state_CheckVector3 (L : list LuaValue) (narg : nat) :
  keeps_state (CheckVector3 L narg).
Proof. intros st. unfold CheckVector3. destruct (lua_arg L narg); reflexivity. Qed.

Lemma keeps_state_CheckVector4 (L : list LuaValue) (narg : nat) :
  keeps_state (CheckVector4 L narg).
Proof. intros st. unfold CheckVector4. destruct (lua_arg L narg); reflexivity. Qed.

Ltac bound_value :=
  let a := fresh "a" in
  intros a;
  match type of a with
  | (_ * _)%type => destruct a as [? ?]
  | _ => idtac
  end;
  cbv beta iota.

(** X4.  Apart from [LuaAnimate] and the functions whose error comes from
    the scene ([LuaSetTexture], [LuaSetFont], the node constructors), the
    entry points check before they act: whenever one of them raises an
    error, the state is the one it was called in. *)
Theorem errors_leave_the_state (luaO_str2d : string -> option Q)
  (lua_number2str : Q -> string) (BlendMode_of_int : Z -> Z)
  (cancel : CancelAnimationFn)
  (GetNodeById : GetNodeByIdFn)
  (XANCHOR_LEFT XANCHOR_RIGHT YANCHOR_TOP YANCHOR_BOTTOM : Z)
  (SetNodeXAnchor SetNodeYAnchor : SetNodeAnchorFn)
  (property : Z) (L : list LuaValue) :
  raise_keeps_state (LuaDeleteNode L) /\
  raise_keeps_state (LuaGet property L) /\
  raise_keeps_state (LuaSet property L) /\
  raise_keeps_state (LuaGetText L) /\
  raise_keeps_state (LuaSetText lua_number2str L) /\
  raise_keeps_state (LuaGetBlendMode L) /\
  raise_keeps_state (LuaSetBlendMode luaO_str2d BlendMode_of_int L) /\
  raise_keeps_state (NodeProxy_tostring lua_number2str L) /\
  raise_keeps_state (NodeProxy_eq L) /\
  raise_keeps_state (LuaCancelAnimation luaO_str2d cancel L) /\
  raise_keeps_stateF (NodeProxy_index lua_number2str L) /\
  raise_keeps_stateF (NodeProxy_newindex lua_number2str L) /\
  raise_keeps_stateF (LuaGetNode lua_number2str GetNodeById L) /\
  raise_keeps_stateF (LuaSetXAnchor luaO_str2d XANCHOR_LEFT XANCHOR_RIGHT
                                    SetNodeXAnchor L) /\
  raise_keeps_stateF (LuaSetYAnchor luaO_str2d YANCHOR_TOP YANCHOR_BOTTOM
                                    SetNodeYAnchor L).
Proof.
  unfold LuaDeleteNode, LuaGet, LuaSet, LuaGetText, LuaSetText, LuaGetBlendMode,
    LuaSetBlendMode, NodeProxy_tostring, NodeProxy_eq, LuaCancelAnimation,
    NodeProxy_index, NodeProxy_newindex, LuaGetNode, LuaSetXAnchor, LuaSetYAnchor.
  repeat split;
    repeat first
      [ apply keeps_state_LuaCheckNode
      | apply keeps_state_luaL_checknumber
      | apply keeps_state_luaL_checkstring
      | apply keeps_state_CheckVector3
      | apply keeps_state_CheckVector4
      | apply keeps_state_read_node
      | apply keeps_state_read_scene
      | apply keeps_state_get_state
      | apply keeps_state_mret
      | apply keeps_state_luaL_error
      | apply keeps_state_fault
      | apply raise_keeps_state_write_node
      | apply raise_keeps_state_on_scene
      | apply raise_keeps_stateF_luaL_errorf
      | apply raise_keeps_stateF_mret
      | apply raise_keeps_stateF_faultF
      | apply raise_keeps_stateF_bind_check
      | match goal with
        | |- context [if ?c then _ else _] => destruct c
        | |- context [match ?c with Some _ => _ | None => _ end] => destruct c
        end
      | (apply raise_keeps_stateF_bind; [| bound_value])
      | (apply raise_keeps_state_bind; [| bound_value])
      | (apply keeps_state_bind; [| bound_value])
      | apply raise_keeps_stateF_liftF
      | apply keeps_state_raise ].
Qed.

(** ** Handles and slots *)

Lemma handle_word (h : HNode) :
  0 <= h < 2 ^ 32 -> h = handle_version h * 2 ^ 16 + handle_index h.
Proof.
  intros Hh. rewrite handle_version_div, handle_index_mod.
  rewrite (Z.mod_small (h / 2 ^ 16)).
  - pose proof (Z.div_mod h (2 ^ 16)). lia.
  - split; [apply Z.div_pos; lia | apply Z.div_lt_upper_bound; lia].
Qed.

(** X1.  A slot has at most one valid handle: two 32-bit handle words with
    the same index that both validate in a scene are the same word, namely
    the slot's version in the upper and its index in the lower half. *)
Theorem IsValidNode_one_handle_per_slot (scene : Scene) (h1 h2 : HNode)
  (Hh1 : 0 <= h1 < 2 ^ 32) (Hh2 : 0 <= h2 < 2 ^ 32)
  (Hindex : handle_index h1 = handle_index h2)
  (Hvalid1 : IsValidNode scene h1 = Some true)
  (Hvalid2 : IsValidNode scene h2 = Some true) :
  h1 = h2 /\
  exists n, m_Nodes scene !! Z.to_nat (handle_index h1) = Some n /\
            h1 = m_Version n * 2 ^ 16 + m_Index n.
Proof.
  apply IsValidNode_true in Hvalid1 as (n1 & Hn1 & Hv1 & Hi1).
  apply IsValidNode_true in Hvalid2 as (n2 & Hn2 & Hv2 & Hi2).
  rewrite <- Hindex in Hn2. rewrite Hn1 in Hn2. injection Hn2 as <-.
  pose proof (handle_word h1 Hh1) as Hw1.
  pose proof (handle_word h2 Hh2) as Hw2.
  split; [lia |].
  exists n1. split; [exact Hn1 | lia].
Qed.

Lemma LuaCheckNode_inv (L : list LuaValue) (index : nat)
  (st st' : LuaState) (r : NodeRef) (h : HNode)
  (Hrun : LuaCheckNode L index st = Return (r, h) st') :
  st' = st /\
  lua_arg L index = LNodeProxy (mkNodeProxy r.1 h) /\
  r.2 = Z.to_nat (handle_index h) /\
  exists scene,
    lua_scenes st !! r.1 = Some scene /\
    IsValidNode scene h = Some true.
Proof.
  destruct (lua_arg L index) eqn:Harg;
    try (unfold LuaCheckNode, NodeProxy_Check in Hrun; rewrite Harg in Hrun;
         discriminate Hrun).
  rewrite (LuaCheckNode_proxy L index st np Harg) in Hrun.
  destruct (lua_scenes st !! proxy_Scene np) as [scene |] eqn:Hscene;
    [| discriminate].
  destruct (IsValidNode scene (proxy_Node np)) as [[|] |] eqn:Hvalid;
    try discriminate.
  injection Hrun as <- <- <-. cbn [fst snd].
  split; [reflexivity |]. split; [destruct np; reflexivity |].
  split; [reflexivity |]. exists scene. auto.
Qed.

Lemma LuaCheckNode_read (L : list LuaValue) (index : nat)
  (st st' : LuaState) (r : NodeRef) (h : HNode) :
  LuaCheckNode L index st = Return (r, h) st' ->
  exists n, read_node r st = Return n st.
Proof.
  intros Hrun.
  destruct (LuaCheckNode_inv L index st st' r h Hrun)
    as (_ & _ & Hi & scene & Hscene & Hvalid).
  destruct (valid_slot scene h Hvalid) as (n & Hn & _).
  exists n. destruct r as [s i]. cbn [fst snd] in *. subst i.
  apply (read_node_eq _ _ _ scene); assumption.
Qed.

(** X2.  When [LuaCheckNode] returns, it has not changed the state, the
    argument is a node proxy with the returned handle, and the slot it
    returns lies within the node array of the proxy's scene and stores the
    handle's version and index: reading through the returned pointer cannot
    fail. *)
Theorem LuaCheckNode_returns_live_slot (L : list LuaValue) (index : nat)
  (st st' : LuaState) (r : NodeRef) (h : HNode)
  (Hrun : LuaCheckNode L index st = Return (r, h) st') :
  st' = st /\
  lua_arg L index = LNodeProxy (mkNodeProxy r.1 h) /\
  r.2 = Z.to_nat (handle_index h) /\
  exists scene n,
    lua_scenes st !! r.1 = Some scene /\
    (r.2 < length (m_Nodes scene))%nat /\
    m_Nodes scene !! r.2 = Some n /\
    m_Version n = handle_version h /\
    m_Index n = handle_index h /\
    read_node r st = Return n st.
Proof.
  destruct (LuaCheckNode_inv L index st st' r h Hrun)
    as (Hst & Harg & Hi & scene & Hscene & Hvalid).
  destruct (valid_slot scene h Hvalid) as (n & Hn & Hversion & Hindex).
  rewrite <- Hi in Hn.
  split; [exact Hst |]. split; [exact Harg |]. split; [exact Hi |].
  exists scene, n.
  split; [exact Hscene |].
  split; [eapply lookup_lt_Some; exact Hn |].
  split; [exact Hn |]. split; [exact Hversion |]. split; [exact Hindex |].
  destruct r as [s i]. apply (read_node_eq _ _ _ scene); assumption.
Qed.

(** X3.  No entry point acts through a proxy whose handle does not
    validate: with such a proxy as first argument, every function of the
    binding that takes a node raises "Deleted node" and leaves the state as
    it was, whatever its other arguments are. *)
Theorem stale_proxy_is_rejected (luaO_str2d : string -> option Q)
  (lua_number2str : Q -> string) (BlendMode_of_int : Z -> Z)
  (animate : AnimateNodeFn) (cancel : CancelAnimationFn)
  (SetNodeTexture SetNodeFont : SetNodeResourceFn)
  (XANCHOR_LEFT XANCHOR_RIGHT YANCHOR_TOP YANCHOR_BOTTOM : Z)
  (SetNodeXAnchor SetNodeYAnchor : SetNodeAnchorFn)
  (property : Z) (L : list LuaValue) (st : LuaState) (np : NodeProxy)
  (scene : Scene)
  (Harg : lua_arg L 1 = LNodeProxy np)
  (Hscene : lua_scenes st !! proxy_Scene np = Some scene)
  (Hstale : IsValidNode scene (proxy_Node np) = Some false) :
  LuaDeleteNode L st = Raise ErrDeletedNode st /\
  LuaGet property L st = Raise ErrDeletedNode st /\
  LuaSet property L st = Raise ErrDeletedNode st /\
  LuaGetText L st = Raise ErrDeletedNode st /\
  LuaSetText lua_number2str L st = Raise ErrDeletedNode st /\
  LuaGetBlendMode L st = Raise ErrDeletedNode st /\
  LuaSetBlendMode luaO_str2d BlendMode_of_int L st = Raise ErrDeletedNode st /\
  NodeProxy_tostring lua_number2str L st = Raise ErrDeletedNode st /\
  LuaAnimate luaO_str2d animate L st = Raise ErrDeletedNode st /\
  LuaCancelAnimation luaO_str2d cancel L st = Raise ErrDeletedNode st /\
  NodeProxy_index lua_number2str L st = RaiseF (ErrBinding ErrDeletedNode) st /\
  NodeProxy_newindex lua_number2str L st = RaiseF (ErrBinding ErrDeletedNode) st /\
  LuaSetTexture lua_number2str SetNodeTexture L st
  = RaiseF (ErrBinding ErrDeletedNode) st /\
  LuaSetFont lua_number2str SetNodeFont L st
  = RaiseF (ErrBinding ErrDeletedNode) st /\
  LuaSetXAnchor luaO_str2d XANCHOR_LEFT XANCHOR_RIGHT SetNodeXAnchor L st
  = RaiseF (ErrBinding ErrDeletedNode) st /\
  LuaSetYAnchor luaO_str2d YANCHOR_TOP YANCHOR_BOTTOM SetNodeYAnchor L st
  = RaiseF (ErrBinding ErrDeletedNode) st.
Proof.
  assert (Hcheck : LuaCheckNode L 1 st = Raise ErrDeletedNode st).
  { rewrite (LuaCheckNode_proxy L 1 st np Harg), Hscene, Hstale. reflexivity. }
  assert (HcheckF : forall B (k : NodeRef * HNode -> LuaF B),
             (liftF (LuaCheckNode L 1) ≫= k) st
             = RaiseF (ErrBinding ErrDeletedNode) st).
  { intros B k. unfold mbind, luaF_bind, liftF. rewrite Hcheck. reflexivity. }
  repeat split;
    try (apply (bind_Raise _ _ _ _ _ Hcheck));
    try (apply HcheckF).
Qed.

(** ** Writing to a node *)

Lemma read_node_unfold (r : NodeRef) (st : LuaState) :
  read_node r st
  = match lua_scenes st !! r.1 with
    | Some scene =>
        match m_Nodes scene !! r.2 with
        | Some n => Return n st
        | None => Fault
        end
    | None => Fault
    end.
Proof.
  unfold read_node. lua_unfold.
  destruct (lua_scenes st !! r.1) as [scene |]; [| reflexivity].
  destruct (m_Nodes scene !! r.2); reflexivity.
Qed.

Lemma read_node_inv (r : NodeRef) (st st' : LuaState) (n : InternalNode) :
  read_node r st = Return n st' ->
  st' = st /\
  exists scene, lua_scenes st !! r.1 = Some scene /\ m_Nodes scene !! r.2 = Some n.
Proof.
  rewrite read_node_unfold.
  destruct (lua_scenes st !! r.1) as [scene |]; [| discriminate].
  destruct (m_Nodes scene !! r.2) as [n0 |] eqn:Hn; [| discriminate].
  intros [= <- <-]. eauto.
Qed.

Lemma bind_in_state {A B : Type} (m : Lua A) (k : A -> Lua B)
  (st st' : LuaState) :
  keeps_state m ->
  m st' = in_state st' (m st) ->
  (forall a, m st = Return a st -> k a st' = in_state st' (k a st)) ->
  (m ≫= k) st' = in_state st' ((m ≫= k) st).
Proof.
  intros Hkeep Hm Hk. unfold mbind, lua_bind. rewrite Hm.
  specialize (Hkeep st).
  destruct (m st) as [a st1 | e st1 |]; [subst st1 | reflexivity | reflexivity].
  simpl. apply Hk. reflexivity.
Qed.

(** The state after a write to a slot that keeps the version and the index
    of the slot. *)
Lemma write_node_frame (r : NodeRef) (n n' : InternalNode) (st st' : LuaState) :
  read_node r st = Return n st ->
  write_node r n' st = Return tt st' ->
  m_Version n' = m_Version n ->
  m_Index n' = m_Index n ->
  lua_registry st' = lua_registry st /\
  lua_scene_global st' = lua_scene_global st /\
  lua_called st' = lua_called st /\
  read_node r st' = Return n' st' /\
  (forall r', r' <> r -> read_node r' st' = in_state st' (read_node r' st)) /\
  (forall L index,
      LuaCheckNode L index st' = in_state st' (LuaCheckNode L index st)).
Proof.
  intros Hread Hwrite Hv Hi.
  apply read_node_inv in Hread as (_ & scene & Hscene & Hn).
  destruct r as [s i]. cbn [fst snd] in *.
  rewrite (write_node_eq s i st scene n' Hscene) in Hwrite.
  injection Hwrite as <-.
  set (scene' := set_Nodes (<[i := n']> (m_Nodes scene)) scene).
  assert (Hs : forall s', lua_scenes
                 (set_scenes (<[s := scene']> (lua_scenes st)) st) !! s'
               = if decide (s' = s) then Some scene' else lua_scenes st !! s').
  { intros s'. cbn [lua_scenes set_scenes]. destruct (decide (s' = s)) as [-> | Hne].
    - apply list_lookup_insert_eq. eapply lookup_lt_Some; exact Hscene.
    - apply list_lookup_insert_ne. congruence. }
  split; [reflexivity |]. split; [reflexivity |]. split; [reflexivity |].
  split; [| split].
  - rewrite read_node_unfold. cbn [fst snd]. rewrite Hs.
    destruct (decide (s = s)); [| congruence].
    unfold scene'. cbn [m_Nodes set_Nodes].
    rewrite list_lookup_insert_eq by (eapply lookup_lt_Some; exact Hn).
    reflexivity.
  - intros [s' j] Hne. rewrite !read_node_unfold. cbn [fst snd]. rewrite Hs.
    destruct (decide (s' = s)) as [-> | Hs'].
    + rewrite Hscene. unfold scene'. cbn [m_Nodes set_Nodes].
      rewrite list_lookup_insert_ne by congruence.
      destruct (m_Nodes scene !! j); reflexivity.
    + destruct (lua_scenes st !! s') as [sc |]; [| reflexivity].
      destruct (m_Nodes sc !! j); reflexivity.
  - intros L index.
    destruct (lua_arg L index) eqn:Harg;
      try (unfold LuaCheckNode, NodeProxy_Check; rewrite Harg; reflexivity).
    rewrite !(LuaCheckNode_proxy L index _ np Harg). rewrite Hs.
    destruct (decide (proxy_Scene np = s)) as [-> | Hne].
    + rewrite Hscene. unfold scene'.
      rewrite (IsValidNode_update scene i n n' _ Hn Hv Hi).
      destruct (IsValidNode scene (proxy_Node np)) as [[|] |]; reflexivity.
    + destruct (lua_scenes st !! proxy_Scene np) as [sc |]; [| reflexivity].
      destruct (IsValidNode sc (proxy_Node np)) as [[|] |]; reflexivity.
Qed.

Lemma check_vector_argument (L : list LuaValue) (narg : nat) (st : LuaState) :
  (if IsVector3 (lua_arg L narg) then CheckVector3 L narg
   else CheckVector4 L narg) st
  = match vector_argument (lua_arg L narg) with
    | Some pos => Return pos st
    | None => Raise (ErrType (Z.of_nat narg) "vector4") st
    end.
Proof.
  unfold IsVector3, CheckVector3, CheckVector4, vector_argument.
  destruct (lua_arg L narg); reflexivity.
Qed.

(** A normal return of a setter, taken apart. *)
Lemma LuaSet_inv (property : Z) (L : list LuaValue) (st st' : LuaState) :
  LuaSet property L st = Return tt st' ->
  exists r h n pos,
    LuaCheckNode L 1 st = Return (r, h) st /\
    vector_argument (lua_arg L 2) = Some pos /\
    read_node r st = Return n st /\
    (Z.to_nat property < length (m_Properties (m_Node n)))%nat /\
    write_node r (set_Node (set_Properties
                   (<[Z.to_nat property := pos]> (m_Properties (m_Node n)))
                   (m_Node n)) n) st
    = Return tt st'.
Proof.
  unfold LuaSet. intros Hrun.
  apply bind_Return_inv in Hrun as ([r h] & st1 & Hcheck & Hrun).
  pose proof (keeps_state_LuaCheckNode L 1 st) as Hk1.
  rewrite Hcheck in Hk1. subst st1.
  apply bind_Return_inv in Hrun as (pos & st1 & Hvec & Hrun).
  rewrite check_vector_argument in Hvec.
  destruct (vector_argument (lua_arg L 2)) as [pos' |] eqn:Harg2;
    [| discriminate].
  injection Hvec as <- <-.
  apply bind_Return_inv in Hrun as (n & st1 & Hread & Hrun).
  pose proof (keeps_state_read_node r st) as Hk2.
  rewrite Hread in Hk2. subst st1.
  destruct (Z.to_nat property <? length (m_Properties (m_Node n)))%nat eqn:Hlen;
    [| discriminate].
  apply Nat.ltb_lt in Hlen.
  exists r, h, n, pos'. auto.
Qed.

Lemma getter_in_state {A : Type} (g : InternalNode -> Lua A)
  (L : list LuaValue) (st st' : LuaState) :
  (forall n st1 st2, g n st2 = in_state st2 (g n st1)) ->
  (forall L index,
      LuaCheckNode L index st' = in_state st' (LuaCheckNode L index st)) ->
  (forall r h n,
      LuaCheckNode L 1 st = Return (r, h) st ->
      read_node r st = Return n st ->
      exists n', read_node r st' = Return n' st' /\ g n' st = g n st) ->
  ('(r, _) ← LuaCheckNode L 1; node ← read_node r; g node) st'
  = in_state st' (('(r, _) ← LuaCheckNode L 1; node ← read_node r; g node) st).
Proof.
  intros Hg Hcheck Hnode.
  apply bind_in_state; [apply keeps_state_LuaCheckNode | apply Hcheck |].
  intros [r h] Hc.
  destruct (LuaCheckNode_read L 1 st st r h Hc) as [n Hread].
  destruct (Hnode r h n Hc Hread) as (n' & Hread' & Hsame).
  rewrite (bind_Return _ _ _ _ _ Hread), (bind_Return _ _ _ _ _ Hread').
  rewrite (Hg n' st st'), Hsame. reflexivity.
Qed.

Lemma getter_in_state_frame {A : Type} (g : InternalNode -> Lua A)
  (L : list LuaValue) (st st' : LuaState) (r0 : NodeRef) (n0 n0' : InternalNode) :
  (forall n st1 st2, g n st2 = in_state st2 (g n st1)) ->
  (forall L index,
      LuaCheckNode L index st' = in_state st' (LuaCheckNode L index st)) ->
  read_node r0 st = Return n0 st ->
  read_node r0 st' = Return n0' st' ->
  (forall r', r' <> r0 -> read_node r' st' = in_state st' (read_node r' st)) ->
  (g n0' st = g n0 st \/
   forall r h, LuaCheckNode L 1 st = Return (r, h) st -> r <> r0) ->
  ('(r, _) ← LuaCheckNode L 1; node ← read_node r; g node) st'
  = in_state st' (('(r, _) ← LuaCheckNode L 1; node ← read_node r; g node) st).
Proof.
  intros Hg Hcheck Hread0 Hread0' Hother Hcase.
  apply getter_in_state; [exact Hg | exact Hcheck |].
  intros r h n Hc Hread.
  destruct (decide (r = r0)) as [-> | Hne].
  - rewrite Hread0 in Hread. injection Hread as <-.
    destruct Hcase as [Hsame | Hdiff]; [| destruct (Hdiff _ _ Hc eq_refl)].
    exists n0'. auto.
  - exists n. split; [| reflexivity].
    rewrite (Hother r Hne), Hread. reflexivity.
Qed.

Lemma LuaCheckNode_ext (L L' : list LuaValue) (index : nat) (st : LuaState) :
  lua_arg L' index = lua_arg L index ->
  LuaCheckNode L' index st = LuaCheckNode L index st.
Proof.
  intros Harg. unfold LuaCheckNode, NodeProxy_Check. rewrite Harg. reflexivity.
Qed.

Lemma LuaSet_run (property : Z) (L : list LuaValue) (st : LuaState)
  (r : NodeRef) (h : HNode) (n : InternalNode) (pos : Vector4) :
  LuaCheckNode L 1 st = Return (r, h) st ->
  vector_argument (lua_arg L 2) = Some pos ->
  read_node r st = Return n st ->
  (Z.to_nat property < length (m_Properties (m_Node n)))%nat ->
  LuaSet property L st
  = write_node r (set_Node (set_Properties
                   (<[Z.to_nat property := pos]> (m_Properties (m_Node n)))
                   (m_Node n)) n) st.
Proof.
  intros Hcheck Harg2 Hread Hlen. unfold LuaSet.
  rewrite (bind_Return _ _ _ _ _ Hcheck).
  unfold mbind at 1, lua_bind at 1.
  rewrite check_vector_argument, Harg2.
  rewrite (bind_Return _ _ _ _ _ Hread).
  apply Nat.ltb_lt in Hlen. rewrite Hlen. reflexivity.
Qed.

Lemma write_node_total (r : NodeRef) (n n' : InternalNode) (st : LuaState) :
  read_node r st = Return n st ->
  exists st', write_node r n' st = Return tt st'.
Proof.
  intros Hread. apply read_node_inv in Hread as (_ & scene & Hscene & _).
  destruct r as [s i]. rewrite (write_node_eq s i st scene n' Hscene). eauto.
Qed.

Lemma LuaGet_state_free (q : Z) (n : InternalNode) (st1 st2 : LuaState) :
  (match m_Properties (m_Node n) !! Z.to_nat q with
   | Some v => mret v
   | None => fault
   end : Lua Vector4) st2
  = in_state st2
      ((match m_Properties (m_Node n) !! Z.to_nat q with
        | Some v => mret v
        | None => fault
        end : Lua Vector4) st1).
Proof. destruct (m_Properties (m_Node n) !! Z.to_nat q); reflexivity. Qed.

(** X6.  A property setter followed by the getter of the same property:
    on a valid node the setter returns, and the getter, through any proxy of
    that node, returns the vector written: a vector4 argument as it is, a
    vector3 argument with a fourth component of zero. *)
Theorem LuaSet_then_LuaGet (property : Z) (L : list LuaValue) (st : LuaState)
  (np : NodeProxy) (scene : Scene) (n : InternalNode) (pos : Vector4)
  (Harg1 : lua_arg L 1 = LNodeProxy np)
  (Harg2 : vector_argument (lua_arg L 2) = Some pos)
  (Hscene : lua_scenes st !! proxy_Scene np = Some scene)
  (Hvalid : IsValidNode scene (proxy_Node np) = Some true)
  (Hn : m_Nodes scene !! Z.to_nat (handle_index (proxy_Node np)) = Some n)
  (Hproperty : 0 <= property < Z.of_nat (length (m_Properties (m_Node n)))) :
  (forall x y z, lua_arg L 2 = LVector3 x y z -> pos = mkVector4 x y z 0%Q) /\
  (forall v, lua_arg L 2 = LVector4 v -> pos = v) /\
  exists st',
    LuaSet property L st = Return tt st' /\
    forall L', lua_arg L' 1 = LNodeProxy np ->
               LuaGet property L' st' = Return pos st'.
Proof.
  split; [intros x y z H3; rewrite H3 in Harg2; injection Harg2 as <-; reflexivity |].
  split; [intros v H4; rewrite H4 in Harg2; injection Harg2 as <-; reflexivity |].
  set (r := (proxy_Scene np, Z.to_nat (handle_index (proxy_Node np)))).
  pose proof (LuaCheckNode_valid L 1 st np scene Harg1 Hscene Hvalid) as Hcheck.
  fold r in Hcheck.
  pose proof (read_node_eq _ _ st scene n Hscene Hn) as Hread. fold r in Hread.
  assert (Hlen : (Z.to_nat property < length (m_Properties (m_Node n)))%nat) by lia.
  set (n' := set_Node (set_Properties
                (<[Z.to_nat property := pos]> (m_Properties (m_Node n)))
                (m_Node n)) n).
  destruct (write_node_total r n n' st Hread) as [st' Hwrite].
  exists st'. split.
  { rewrite (LuaSet_run property L st r _ n pos Hcheck Harg2 Hread Hlen).
    exact Hwrite. }
  intros L' Harg1'.
  destruct (write_node_frame r n n' st st' Hread Hwrite eq_refl eq_refl)
    as (_ & _ & _ & Hread' & _ & Hframe).
  unfold LuaGet.
  assert (Hcheck' : LuaCheckNode L' 1 st' = Return (r, proxy_Node np) st').
  { rewrite Hframe, (LuaCheckNode_ext L L' 1 st) by congruence.
    rewrite Hcheck. reflexivity. }
  rewrite (bind_Return _ _ _ _ _ Hcheck'), (bind_Return _ _ _ _ _ Hread').
  unfold n'. cbn [m_Node set_Node m_Properties set_Properties].
  rewrite list_lookup_insert_eq by exact Hlen. reflexivity.
Qed.

(** X7.  A property setter changes one property of one node: afterwards
    every proxy validates as before, the getters of the other properties and
    of all properties of other nodes answer as before, and so do
    [LuaGetText] and [LuaGetBlendMode]; registry, [__scene__] and the record
    of script calls are untouched. *)
Theorem LuaSet_changes_one_property (property : Z) (L : list LuaValue)
  (st st' : LuaState) (np : NodeProxy)
  (Hproperty : 0 <= property)
  (Harg1 : lua_arg L 1 = LNodeProxy np)
  (Hrun : LuaSet property L st = Return tt st') :
  lua_registry st' = lua_registry st /\
  lua_scene_global st' = lua_scene_global st /\
  lua_called st' = lua_called st /\
  (forall L' index,
      LuaCheckNode L' index st' = in_state st' (LuaCheckNode L' index st)) /\
  (forall q L', 0 <= q -> q <> property ->
      LuaGet q L' st' = in_state st' (LuaGet q L' st)) /\
  (forall q L' np',
      lua_arg L' 1 = LNodeProxy np' ->
      proxy_Scene np' <> proxy_Scene np \/
      handle_index (proxy_Node np') <> handle_index (proxy_Node np) ->
      LuaGet q L' st' = in_state st' (LuaGet q L' st)) /\
  (forall L', LuaGetText L' st' = in_state st' (LuaGetText L' st)) /\
  (forall L', LuaGetBlendMode L' st' = in_state st' (LuaGetBlendMode L' st)).
Proof.
  destruct (LuaSet_inv property L st st' Hrun)
    as (r & h & n & pos & Hcheck & _ & Hread & Hlen & Hwrite).
  set (n' := set_Node (set_Properties
                (<[Z.to_nat property := pos]> (m_Properties (m_Node n)))
                (m_Node n)) n) in Hwrite.
  destruct (write_node_frame r n n' st st' Hread Hwrite eq_refl eq_refl)
    as (Hreg & Hglobal & Hcalled & Hread' & Hother & Hframe).
  split; [exact Hreg |]. split; [exact Hglobal |]. split; [exact Hcalled |].
  split; [exact Hframe |].
  assert (Hr : r = (proxy_Scene np, Z.to_nat (handle_index (proxy_Node np)))).
  { pose proof (LuaCheckNode_inv L 1 st st r h Hcheck) as (_ & Harg & Hi & _).
    rewrite Harg1 in Harg. injection Harg as ->.
    destruct r as [s i]. cbn [fst snd proxy_Scene proxy_Node] in *. congruence. }
  split; [| split; [| split]].
  - intros q L' Hq Hne. unfold LuaGet.
    apply (getter_in_state_frame _ L' st st' r n n');
      try assumption; [intros; apply LuaGet_state_free |].
    left. unfold n'. cbn [m_Node set_Node m_Properties set_Properties].
    rewrite list_lookup_insert_ne by lia. reflexivity.
  - intros q L' np' Harg' Hdiff. unfold LuaGet.
    apply (getter_in_state_frame _ L' st st' r n n');
      try assumption; [intros; apply LuaGet_state_free |].
    right. intros r' h' Hc' ->.
    pose proof (LuaCheckNode_inv L' 1 st st _ h' Hc') as (_ & Harg & Hi & _).
    rewrite Harg' in Harg. injection Harg as ->. rewrite Hr in Hi, Hdiff.
    cbn [fst snd proxy_Scene proxy_Node] in *.
    pose proof (handle_index_bounds (proxy_Node np)).
    pose proof (handle_index_bounds h').
    destruct Hdiff as [Hd | Hd]; [congruence | lia].
  - intros L'. unfold LuaGetText.
    apply (getter_in_state_frame _ L' st st' r n n'); try assumption;
      [intros; reflexivity | left; reflexivity].
  - intros L'. unfold LuaGetBlendMode.
    apply (getter_in_state_frame _ L' st st' r n n'); try assumption;
      [intros; reflexivity | left; reflexivity].
Qed.

(** ** Writes in sequence *)

Lemma write_node_inv (r : NodeRef) (n' : InternalNode) (st st' : LuaState) :
  write_node r n' st = Return tt st' ->
  exists scene,
    lua_scenes st !! r.1 = Some scene /\
    st' = set_scenes
            (<[r.1 := set_Nodes (<[r.2 := n']> (m_Nodes scene)) scene]>
               (lua_scenes st)) st.
Proof.
  unfold write_node. lua_unfold.
  destruct (lua_scenes st !! r.1) as [scene |]; [| discriminate].
  intros [= <-]. eauto.
Qed.

Lemma write_node_twice (r : NodeRef) (n1 n2 : InternalNode) (st st1 : LuaState) :
  write_node r n1 st = Return tt st1 ->
  write_node r n2 st1 = write_node r n2 st.
Proof.
  intros H1. destruct (write_node_inv r n1 st st1 H1) as (scene & Hscene & ->).
  destruct r as [s i]. cbn [fst snd] in *.
  rewrite (write_node_eq s i st scene n2 Hscene).
  rewrite (write_node_eq s i _ (set_Nodes (<[i := n1]> (m_Nodes scene)) scene) n2).
  - cbn [lua_scenes set_scenes m_Nodes set_Nodes].
    rewrite !list_insert_insert_eq. reflexivity.
  - cbn [lua_scenes set_scenes]. apply list_lookup_insert_eq.
    eapply lookup_lt_Some; exact Hscene.
Qed.

Lemma write_node_commute (r1 r2 : NodeRef) (n1 n2 : InternalNode)
  (st st1 st12 : LuaState) :
  r1 <> r2 ->
  write_node r1 n1 st = Return tt st1 ->
  write_node r2 n2 st1 = Return tt st12 ->
  exists st2,
    write_node r2 n2 st = Return tt st2 /\
    write_node r1 n1 st2 = Return tt st12.
Proof.
  intros Hne H1 H2.
  destruct (write_node_inv r1 n1 st st1 H1) as (scene1 & Hscene1 & ->).
  destruct (write_node_inv r2 n2 _ st12 H2) as (scene2' & Hscene2' & ->).
  destruct r1 as [s1 i1], r2 as [s2 i2]. cbn [fst snd] in *.
  cbn [lua_scenes set_scenes] in *.
  pose proof (lookup_lt_Some _ _ _ Hscene1) as Hlt1.
  destruct (decide (s2 = s1)) as [-> | Hs].
  - rewrite list_lookup_insert_eq in Hscene2' by exact Hlt1.
    injection Hscene2' as <-.
    assert (Hi : i1 <> i2) by congruence.
    rewrite (write_node_eq s1 i2 st scene1 n2 Hscene1).
    eexists. split; [reflexivity |].
    rewrite (write_node_eq s1 i1 _ (set_Nodes (<[i2 := n2]> (m_Nodes scene1)) scene1) n1).
    + cbn [lua_scenes set_scenes m_Nodes set_Nodes].
      rewrite !list_insert_insert_eq.
      rewrite (list_insert_insert_ne _ i1 i2) by exact Hi. reflexivity.
    + cbn [lua_scenes set_scenes]. apply list_lookup_insert_eq. exact Hlt1.
  - rewrite list_lookup_insert_ne in Hscene2' by congruence.
    rewrite (write_node_eq s2 i2 st scene2' n2 Hscene2').
    eexists. split; [reflexivity |].
    rewrite (write_node_eq s1 i1 _ scene1 n1).
    + cbn [lua_scenes set_scenes m_Nodes set_Nodes].
      rewrite (list_insert_insert_ne _ s1 s2) by congruence. reflexivity.
    + cbn [lua_scenes set_scenes]. rewrite list_lookup_insert_ne by congruence.
      exact Hscene1.
Qed.

Lemma LuaDeleteNode_inv (L : list LuaValue) (st st' : LuaState) :
  LuaDeleteNode L st = Return tt st' ->
  exists r h n,
    LuaCheckNode L 1 st = Return (r, h) st /\
    read_node r st = Return n st /\
    write_node r (set_Deleted true n) st = Return tt st'.
Proof.
  unfold LuaDeleteNode. intros Hrun.
  apply bind_Return_inv in Hrun as ([r h] & st1 & Hcheck & Hrun).
  pose proof (keeps_state_LuaCheckNode L 1 st) as Hk1.
  rewrite Hcheck in Hk1. subst st1.
  apply bind_Return_inv in Hrun as (n & st1 & Hread & Hrun).
  pose proof (keeps_state_read_node r st) as Hk2.
  rewrite Hread in Hk2. subst st1.
  exists r, h, n. auto.
Qed.

Lemma LuaDeleteNode_run (L : list LuaValue) (st : LuaState)
  (r : NodeRef) (h : HNode) (n : InternalNode) :
  LuaCheckNode L 1 st = Return (r, h) st ->
  read_node r st = Return n st ->
  LuaDeleteNode L st = write_node r (set_Deleted true n) st.
Proof.
  intros Hcheck Hread. unfold LuaDeleteNode.
  rewrite (bind_Return _ _ _ _ _ Hcheck), (bind_Return _ _ _ _ _ Hread).
  reflexivity.
Qed.

Lemma in_state_Return {A : Type} (m : LuaResult A) (a : A) (st st' : LuaState) :
  m = Return a st -> in_state st' m = Return a st'.
Proof. intros ->. reflexivity. Qed.

(** X9.  Deleting a node twice is deleting it once: after a successful
    [LuaDeleteNode] a second call on the same arguments succeeds and changes
    nothing. *)
Theorem LuaDeleteNode_twice (L : list LuaValue) (st st' : LuaState)
  (Hrun : LuaDeleteNode L st = Return tt st') :
  LuaDeleteNode L st' = Return tt st'.
Proof.
  destruct (LuaDeleteNode_inv L st st' Hrun) as (r & h & n & Hcheck & Hread & Hwrite).
  destruct (write_node_frame r n (set_Deleted true n) st st' Hread Hwrite
              eq_refl eq_refl) as (_ & _ & _ & Hread' & _ & Hframe).
  rewrite (LuaDeleteNode_run L st' r h (set_Deleted true n)).
  - rewrite (write_node_twice r _ _ st st' Hwrite). exact Hwrite.
  - rewrite Hframe. eapply in_state_Return. exact Hcheck.
  - exact Hread'.
Qed.

(** X8.  The last write wins: two writes to the same property of the same
    node leave the state the second write alone would have left. *)
Theorem LuaSet_last_write_wins (property : Z) (L1 L2 : list LuaValue)
  (st st1 st2 : LuaState)
  (Hnode : lua_arg L2 1 = lua_arg L1 1)
  (Hrun1 : LuaSet property L1 st = Return tt st1)
  (Hrun2 : LuaSet property L2 st1 = Return tt st2) :
  LuaSet property L2 st = Return tt st2.
Proof.
  destruct (LuaSet_inv property L1 st st1 Hrun1)
    as (r & h & n & pos1 & Hcheck & _ & Hread & Hlen & Hwrite).
  set (n1 := set_Node (set_Properties
                (<[Z.to_nat property := pos1]> (m_Properties (m_Node n)))
                (m_Node n)) n) in Hwrite.
  destruct (write_node_frame r n n1 st st1 Hread Hwrite eq_refl eq_refl)
    as (_ & _ & _ & Hread1 & _ & Hframe).
  destruct (LuaSet_inv property L2 st1 st2 Hrun2)
    as (r2 & h2 & n2 & pos2 & Hcheck2 & Harg2 & Hread2 & Hlen2 & Hwrite2).
  assert (Hcheck2' : LuaCheckNode L2 1 st = Return (r, h) st).
  { rewrite (LuaCheckNode_ext L1 L2 1 st Hnode). exact Hcheck. }
  rewrite Hframe, Hcheck2' in Hcheck2. injection Hcheck2 as <- <-.
  rewrite Hread1 in Hread2. injection Hread2 as <-.
  rewrite (LuaSet_run property L2 st r h n pos2 Hcheck2' Harg2 Hread Hlen).
  rewrite (write_node_twice r n1 _ st st1 Hwrite) in Hwrite2.
  rewrite <- Hwrite2. unfold n1.
  cbn [m_Node set_Node m_Properties set_Properties].
  rewrite list_insert_insert_eq. reflexivity.
Qed.

(** X10.  Marking a node for deletion and writing a property, of the same
    or of another node, can be done in either order: the setter succeeds
    before the deletion if it succeeds after it, and both orders end in the
    same state. *)
Theorem LuaDeleteNode_LuaSet_commute (property : Z) (L1 L2 : list LuaValue)
  (st st1 st12 : LuaState)
  (Hrun1 : LuaDeleteNode L1 st = Return tt st1)
  (Hrun2 : LuaSet property L2 st1 = Return tt st12) :
  exists st2,
    LuaSet property L2 st = Return tt st2 /\
    LuaDeleteNode L1 st2 = Return tt st12.
Proof.
  destruct (LuaDeleteNode_inv L1 st st1 Hrun1)
    as (r1 & h1 & n1 & Hcheck1 & Hread1 & Hwrite1).
  destruct (write_node_frame r1 n1 (set_Deleted true n1) st st1 Hread1 Hwrite1
              eq_refl eq_refl) as (_ & _ & _ & Hread1' & Hother1 & Hframe1).
  destruct (LuaSet_inv property L2 st1 st12 Hrun2)
    as (r2 & h2 & n2 & pos & Hcheck2 & Harg2 & Hread2 & Hlen & Hwrite2).
  assert (Hcheck2' : LuaCheckNode L2 1 st = Return (r2, h2) st).
  { rewrite Hframe1 in Hcheck2.
    pose proof (keeps_state_LuaCheckNode L2 1 st) as Hk.
    destruct (LuaCheckNode L2 1 st) as [a s | e s |]; try discriminate.
    subst s. injection Hcheck2 as ->. reflexivity. }
  destruct (decide (r2 = r1)) as [-> | Hne].
  - rewrite Hread1' in Hread2. injection Hread2 as <-.
    cbn [m_Node set_Deleted] in *.
    set (n2 := set_Node (set_Properties
                  (<[Z.to_nat property := pos]> (m_Properties (m_Node n1)))
                  (m_Node n1)) n1).
    destruct (write_node_total r1 n1 n2 st Hread1) as [st2 Hw2].
    exists st2. split.
    { rewrite (LuaSet_run property L2 st r1 h2 n1 pos Hcheck2' Harg2 Hread1 Hlen).
      exact Hw2. }
    destruct (write_node_frame r1 n1 n2 st st2 Hread1 Hw2 eq_refl eq_refl)
      as (_ & _ & _ & Hread2' & _ & Hframe2).
    rewrite (LuaDeleteNode_run L1 st2 r1 h1 n2);
      [| rewrite Hframe2; eapply in_state_Return; exact Hcheck1 | exact Hread2'].
    rewrite (write_node_twice r1 n2 _ st st2 Hw2).
    rewrite (write_node_twice r1 _ _ st st1 Hwrite1) in Hwrite2.
    exact Hwrite2.
  - assert (Hread2' : read_node r2 st = Return n2 st).
    { rewrite (Hother1 r2 Hne) in Hread2.
      pose proof (keeps_state_read_node r2 st) as Hk.
      destruct (read_node r2 st) as [a s | e s |]; try discriminate.
      subst s. injection Hread2 as ->. reflexivity. }
    destruct (write_node_commute r1 r2 _ _ st st1 st12 (not_eq_sym Hne)
                Hwrite1 Hwrite2) as (st2 & Hw2 & Hw1).
    exists st2. split.
    { rewrite (LuaSet_run property L2 st r2 h2 n2 pos Hcheck2' Harg2 Hread2' Hlen).
      exact Hw2. }
    destruct (write_node_frame r2 n2 _ st st2 Hread2' Hw2 eq_refl eq_refl)
      as (_ & _ & _ & _ & Hother2 & Hframe2).
    rewrite (LuaDeleteNode_run L1 st2 r1 h1 n1);
      [exact Hw1 | rewrite Hframe2; eapply in_state_Return; exact Hcheck1 |].
    rewrite (Hother2 r1 (not_eq_sym Hne)). eapply in_state_Return. exact Hread1.
Qed.

(** ** Setters in general

    A setter checks the node, reads its argument, and writes the slot. *)

Lemma setter_inv {X : Type} (c : Lua X) (f : X -> InternalNode -> InternalNode)
  (L : list LuaValue) (st st' : LuaState) :
  keeps_state c ->
  ('(r, _) ← LuaCheckNode L 1; x ← c; n ← read_node r;
   write_node r (f x n)) st = Return tt st' ->
  exists r h x n,
    LuaCheckNode L 1 st = Return (r, h) st /\
    c st = Return x st /\
    read_node r st = Return n st /\
    write_node r (f x n) st = Return tt st'.
Proof.
  intros Hc Hrun.
  apply bind_Return_inv in Hrun as ([r h] & st1 & Hcheck & Hrun).
  pose proof (keeps_state_LuaCheckNode L 1 st) as Hk1.
  rewrite Hcheck in Hk1. subst st1.
  apply bind_Return_inv in Hrun as (x & st1 & Hx & Hrun).
  pose proof (Hc st) as Hk2. rewrite Hx in Hk2. subst st1.
  apply bind_Return_inv in Hrun as (n & st1 & Hread & Hrun).
  pose proof (keeps_state_read_node r st) as Hk3.
  rewrite Hread in Hk3. subst st1.
  exists r, h, x, n. auto.
Qed.

Lemma setter_run {X : Type} (c : Lua X) (f : X -> InternalNode -> InternalNode)
  (L : list LuaValue) (st : LuaState) (r : NodeRef) (h : HNode) (x : X)
  (n : InternalNode) :
  LuaCheckNode L 1 st = Return (r, h) st ->
  c st = Return x st ->
  read_node r st = Return n st ->
  ('(r, _) ← LuaCheckNode L 1; x ← c; n ← read_node r;
   write_node r (f x n)) st = write_node r (f x n) st.
Proof.
  intros Hcheck Hx Hread.
  rewrite (bind_Return _ _ _ _ _ Hcheck), (bind_Return _ _ _ _ _ Hx),
    (bind_Return _ _ _ _ _ Hread).
  reflexivity.
Qed.

(** What a write to a slot leaves alone, seen through the getters. *)
Lemma setter_frame (r : NodeRef) (n n' : InternalNode) (st st' : LuaState) :
  read_node r st = Return n st ->
  write_node r n' st = Return tt st' ->
  m_Version n' = m_Version n ->
  m_Index n' = m_Index n ->
  (forall q L',
      m_Properties (m_Node n') !! Z.to_nat q = m_Properties (m_Node n) !! Z.to_nat q \/
      (forall r' h', LuaCheckNode L' 1 st = Return (r', h') st -> r' <> r) ->
      LuaGet q L' st' = in_state st' (LuaGet q L' st)) /\
  (forall L',
      m_Text (m_Node n') = m_Text (m_Node n) \/
      (forall r' h', LuaCheckNode L' 1 st = Return (r', h') st -> r' <> r) ->
      LuaGetText L' st' = in_state st' (LuaGetText L' st)) /\
  (forall L',
      m_BlendMode (m_Node n') = m_BlendMode (m_Node n) \/
      (forall r' h', LuaCheckNode L' 1 st = Return (r', h') st -> r' <> r) ->
      LuaGetBlendMode L' st' = in_state st' (LuaGetBlendMode L' st)).
Proof.
  intros Hread Hwrite Hv Hi.
  destruct (write_node_frame r n n' st st' Hread Hwrite Hv Hi)
    as (_ & _ & _ & Hread' & Hother & Hframe).
  split; [| split].
  - intros q L' Hcase. unfold LuaGet.
    apply (getter_in_state_frame _ L' st st' r n n');
      try assumption; [intros; apply LuaGet_state_free |].
    destruct Hcase as [Hsame | Hdiff]; [left | right; exact Hdiff].
    rewrite Hsame. reflexivity.
  - intros L' Hcase. unfold LuaGetText.
    apply (getter_in_state_frame _ L' st st' r n n');
      try assumption; [intros; reflexivity |].
    destruct Hcase as [Hsame | Hdiff]; [left | right; exact Hdiff].
    rewrite Hsame. reflexivity.
  - intros L' Hcase. unfold LuaGetBlendMode.
    apply (getter_in_state_frame _ L' st st' r n n');
      try assumption; [intros; reflexivity |].
    destruct Hcase as [Hsame | Hdiff]; [left | right; exact Hdiff].
    rewrite Hsame. reflexivity.
Qed.

(** Two proxies on different slots are checked to different slots. *)
Lemma other_slot (L L' : list LuaValue) (st : LuaState) (np np' : NodeProxy)
  (r : NodeRef) (h : HNode) :
  lua_arg L 1 = LNodeProxy np ->
  lua_arg L' 1 = LNodeProxy np' ->
  proxy_Scene np' <> proxy_Scene np \/
  handle_index (proxy_Node np') <> handle_index (proxy_Node np) ->
  LuaCheckNode L 1 st = Return (r, h) st ->
  forall r' h', LuaCheckNode L' 1 st = Return (r', h') st -> r' <> r.
Proof.
  intros Harg Harg' Hdiff Hc r' h' Hc' ->.
  pose proof (LuaCheckNode_inv L 1 st st r h Hc) as (_ & Ha & Hi & _).
  pose proof (LuaCheckNode_inv L' 1 st st r h' Hc') as (_ & Ha' & Hi' & _).
  rewrite Harg in Ha. injection Ha as ->.
  rewrite Harg' in Ha'. injection Ha' as ->.
  cbn [proxy_Scene proxy_Node] in Hdiff.
  pose proof (handle_index_bounds h). pose proof (handle_index_bounds h').
  destruct Hdiff as [Hd | Hd]; [congruence | lia].
Qed.

(** ** Text *)

Lemma c_str_prefix (s : string) : exists rest, s = (c_str s ++ rest)%string.
Proof.
  induction s as [| c s [rest IH]]; [exists EmptyString; reflexivity |].
  cbn [c_str]. destruct (Ascii.eqb c Ascii.zero).
  - exists (String c s). reflexivity.
  - exists rest. cbn [String.append]. rewrite <- IH. reflexivity.
Qed.

Lemma c_str_no_zero (s : string) :
  Forall (fun c => c <> Ascii.zero) (list_ascii_of_string s) -> c_str s = s.
Proof.
  induction s as [| c s IH]; [reflexivity |]. cbn [list_ascii_of_string c_str].
  intros Hall. apply Forall_cons in Hall as [Hc Hall].
  destruct (Ascii.eqb_spec c Ascii.zero) as [-> | _]; [congruence |].
  rewrite (IH Hall). reflexivity.
Qed.

Lemma c_str_zero_free (s : string) :
  Forall (fun c => c <> Ascii.zero) (list_ascii_of_string (c_str s)).
Proof.
  induction s as [| c s IH]; [constructor |]. cbn [c_str].
  destruct (Ascii.eqb_spec c Ascii.zero) as [-> | Hc]; [constructor |].
  cbn [list_ascii_of_string]. constructor; assumption.
Qed.

Lemma luaL_checkstring_eq (lua_number2str : Q -> string) (L : list LuaValue)
  (narg : nat) (s : string) (st : LuaState) :
  lua_tostring lua_number2str (lua_arg L narg) = Some s ->
  luaL_checkstring lua_number2str L narg st = Return s st.
Proof. intros H. unfold luaL_checkstring. rewrite H. reflexivity. Qed.

(** X11.  [LuaSetText] followed by [LuaGetText]: on a valid node the text
    read back is the text written, as a C string: a Lua string up to its
    first zero byte (the whole string if it has none), a number in Lua's
    string form. *)
Theorem LuaSetText_then_LuaGetText (lua_number2str : Q -> string)
  (L : list LuaValue) (st : LuaState) (np : NodeProxy) (scene : Scene)
  (text : string)
  (Harg1 : lua_arg L 1 = LNodeProxy np)
  (Harg2 : lua_tostring lua_number2str (lua_arg L 2) = Some text)
  (Hscene : lua_scenes st !! proxy_Scene np = Some scene)
  (Hvalid : IsValidNode scene (proxy_Node np) = Some true) :
  exists st',
    LuaSetText lua_number2str L st = Return tt st' /\
    (forall L', lua_arg L' 1 = LNodeProxy np ->
                LuaGetText L' st' = Return (LString text) st') /\
    (forall s, lua_arg L 2 = LString s ->
               text = c_str s /\
               (exists rest, s = (text ++ rest)%string) /\
               Forall (fun c => c <> Ascii.zero) (list_ascii_of_string text) /\
               (Forall (fun c => c <> Ascii.zero) (list_ascii_of_string s) ->
                text = s)).
Proof.
  set (r := (proxy_Scene np, Z.to_nat (handle_index (proxy_Node np)))).
  pose proof (LuaCheckNode_valid L 1 st np scene Harg1 Hscene Hvalid) as Hcheck.
  fold r in Hcheck.
  destruct (valid_slot scene _ Hvalid) as (n & Hn & _).
  pose proof (read_node_eq _ _ st scene n Hscene Hn) as Hread. fold r in Hread.
  set (n' := set_Node (set_Text (Some text) (m_Node n)) n).
  destruct (write_node_total r n n' st Hread) as [st' Hwrite].
  exists st'. split; [| split].
  - unfold LuaSetText.
    rewrite (setter_run (luaL_checkstring lua_number2str L 2)
               (fun text n => set_Node (set_Text (Some text) (m_Node n)) n)
               L st r _ text n Hcheck
               (luaL_checkstring_eq _ _ _ _ _ Harg2) Hread).
    exact Hwrite.
  - intros L' Harg1'.
    destruct (write_node_frame r n n' st st' Hread Hwrite eq_refl eq_refl)
      as (_ & _ & _ & Hread' & _ & Hframe).
    unfold LuaGetText.
    assert (Hcheck' : LuaCheckNode L' 1 st' = Return (r, proxy_Node np) st').
    { rewrite Hframe, (LuaCheckNode_ext L L' 1 st) by congruence.
      rewrite Hcheck. reflexivity. }
    rewrite (bind_Return _ _ _ _ _ Hcheck'), (bind_Return _ _ _ _ _ Hread').
    reflexivity.
  - intros s Hs. rewrite Hs in Harg2. injection Harg2 as <-.
    split; [reflexivity |]. split; [apply c_str_prefix |].
    split; [apply c_str_zero_free | apply c_str_no_zero].
Qed.

(** X12.  [LuaSetText] changes the text of one node: every proxy validates
    as before, all property getters and [LuaGetBlendMode] answer as before,
    [LuaGetText] answers as before for every other node, and registry,
    [__scene__] and the record of script calls are untouched. *)
Theorem LuaSetText_changes_only_the_text (lua_number2str : Q -> string)
  (L : list LuaValue) (st st' : LuaState) (np : NodeProxy)
  (Harg1 : lua_arg L 1 = LNodeProxy np)
  (Hrun : LuaSetText lua_number2str L st = Return tt st') :
  lua_registry st' = lua_registry st /\
  lua_scene_global st' = lua_scene_global st /\
  lua_called st' = lua_called st /\
  (forall L' index,
      LuaCheckNode L' index st' = in_state st' (LuaCheckNode L' index st)) /\
  (forall q L', LuaGet q L' st' = in_state st' (LuaGet q L' st)) /\
  (forall L', LuaGetBlendMode L' st' = in_state st' (LuaGetBlendMode L' st)) /\
  (forall L' np',
      lua_arg L' 1 = LNodeProxy np' ->
      proxy_Scene np' <> proxy_Scene np \/
      handle_index (proxy_Node np') <> handle_index (proxy_Node np) ->
      LuaGetText L' st' = in_state st' (LuaGetText L' st)).
Proof.
  unfold LuaSetText in Hrun.
  apply (setter_inv (luaL_checkstring lua_number2str L 2)
           (fun text n => set_Node (set_Text (Some text) (m_Node n)) n))
    in Hrun as (r & h & text & n & Hcheck & _ & Hread & Hwrite);
    [| apply keeps_state_luaL_checkstring].
  destruct (write_node_frame r n _ st st' Hread Hwrite eq_refl eq_refl)
    as (Hreg & Hglobal & Hcalled & _ & _ & Hframe).
  destruct (setter_frame r n _ st st' Hread Hwrite eq_refl eq_refl)
    as (Hget & Htext & Hblend).
  split; [exact Hreg |]. split; [exact Hglobal |]. split; [exact Hcalled |].
  split; [exact Hframe |].
  split; [intros q L'; apply Hget; left; reflexivity |].
  split; [intros L'; apply Hblend; left; reflexivity |].
  intros L' np' Harg' Hdiff. apply Htext. right.
  exact (other_slot L L' st np np' r h Harg1 Harg' Hdiff Hcheck).
Qed.

(** ** Blend mode *)

(** X13.  [LuaSetBlendMode] does not check its value: on a valid node it
    returns for every number, the integer part of the number is stored as
    the field keeps it and [LuaGetBlendMode] reads it back; properties, text
    and the validity of proxies are unchanged. *)
Theorem LuaSetBlendMode_takes_any_number (luaO_str2d : string -> option Q)
  (BlendMode_of_int : Z -> Z)
  (L : list LuaValue) (st : LuaState) (np : NodeProxy) (scene : Scene) (x : Q)
  (Harg1 : lua_arg L 1 = LNodeProxy np)
  (Harg2 : lua_tonumber luaO_str2d (lua_arg L 2) = Some x)
  (Hscene : lua_scenes st !! proxy_Scene np = Some scene)
  (Hvalid : IsValidNode scene (proxy_Node np) = Some true) :
  exists st',
    LuaSetBlendMode luaO_str2d BlendMode_of_int L st = Return tt st' /\
    (forall L', lua_arg L' 1 = LNodeProxy np ->
                LuaGetBlendMode L' st'
                = Return (inject_Z (BlendMode_of_int (to_int x))) st') /\
    (forall q L', LuaGet q L' st' = in_state st' (LuaGet q L' st)) /\
    (forall L', LuaGetText L' st' = in_state st' (LuaGetText L' st)) /\
    (forall L' index,
        LuaCheckNode L' index st' = in_state st' (LuaCheckNode L' index st)).
Proof.
  set (r := (proxy_Scene np, Z.to_nat (handle_index (proxy_Node np)))).
  pose proof (LuaCheckNode_valid L 1 st np scene Harg1 Hscene Hvalid) as Hcheck.
  fold r in Hcheck.
  destruct (valid_slot scene _ Hvalid) as (n & Hn & _).
  pose proof (read_node_eq _ _ st scene n Hscene Hn) as Hread. fold r in Hread.
  set (n' := set_Node (set_BlendMode (BlendMode_of_int (to_int x)) (m_Node n)) n).
  destruct (write_node_total r n n' st Hread) as [st' Hwrite].
  destruct (write_node_frame r n n' st st' Hread Hwrite eq_refl eq_refl)
    as (_ & _ & _ & Hread' & _ & Hframe).
  destruct (setter_frame r n n' st st' Hread Hwrite eq_refl eq_refl)
    as (Hget & Htext & _).
  exists st'. split; [| split; [| split; [| split]]].
  - unfold LuaSetBlendMode.
    rewrite (setter_run (luaL_checknumber luaO_str2d L 2)
               (fun x n => set_Node (set_BlendMode (BlendMode_of_int (to_int x))
                                                   (m_Node n)) n)
               L st r _ x n Hcheck
               (luaL_checknumber_eq _ _ _ _ _ Harg2) Hread).
    exact Hwrite.
  - intros L' Harg1'. unfold LuaGetBlendMode.
    assert (Hcheck' : LuaCheckNode L' 1 st' = Return (r, proxy_Node np) st').
    { rewrite Hframe, (LuaCheckNode_ext L L' 1 st) by congruence.
      rewrite Hcheck. reflexivity. }
    rewrite (bind_Return _ _ _ _ _ Hcheck'), (bind_Return _ _ _ _ _ Hread').
    reflexivity.
  - intros q L'. apply Hget. left. reflexivity.
  - intros L'. apply Htext. left. reflexivity.
  - exact Hframe.
Qed.

(** ** The remaining entry points *)

Lemma bindF_Return {A B : Type} (m : Lua A) (k : A -> LuaF B)
  (st st' : LuaState) (a : A) :
  m st = Return a st' -> (liftF m ≫= k) st = k a st'.
Proof. intros H. unfold mbind, luaF_bind, liftF. rewrite H. reflexivity. Qed.

Lemma LuaSetAnchor_run (luaO_str2d : string -> option Q) (A1 A2 : Z)
  (name : string) (core : SetNodeAnchorFn)
  (L : list LuaValue) (st : LuaState) (np : NodeProxy) (scene : Scene) (x : Q) :
  lua_arg L 1 = LNodeProxy np ->
  lua_tonumber luaO_str2d (lua_arg L 2) = Some x ->
  lua_scenes st !! proxy_Scene np = Some scene ->
  IsValidNode scene (proxy_Node np) = Some true ->
  ('(n, hnode) ← liftF (LuaCheckNode L 1);
   x ← liftF (luaL_checknumber luaO_str2d L 2);
   let anchor := to_int x in
   _ ← (if negb (anchor =? A1) && negb (anchor =? A2)
        then luaL_errorf name [FmtInt anchor] else mret tt);
   st ← liftF get_state;
   let scene := lua_scene_global st in
   liftF (on_scene scene (fun sc => core sc hnode anchor))) st
  = if (to_int x =? A1) || (to_int x =? A2)
    then liftF (on_scene (lua_scene_global st)
                  (fun sc => core sc (proxy_Node np) (to_int x))) st
    else RaiseF (ErrFormat name [FmtInt (to_int x)]) st.
Proof.
  intros Harg1 Harg2 Hscene Hvalid.
  rewrite (bindF_Return _ _ _ _ _
             (LuaCheckNode_valid L 1 st np scene Harg1 Hscene Hvalid)).
  rewrite (bindF_Return _ _ _ _ _ (luaL_checknumber_eq luaO_str2d L 2 x st Harg2)).
  cbv zeta.
  destruct (to_int x =? A1), (to_int x =? A2); reflexivity.
Qed.

(** X14.  [LuaSetXAnchor], on a number whose integer part is an [int],
    accepts exactly [XANCHOR_LEFT] and [XANCHOR_RIGHT]: any other integer
    part raises "Invalid x-anchor" with the state unchanged, and the scene
    function is called with one of the two constants only (two scene
    functions that agree on them give the same result).  Likewise
    [LuaSetYAnchor] with [YANCHOR_TOP] and [YANCHOR_BOTTOM]. *)
Theorem LuaSetAnchor_accepts_its_two_constants 
  (luaO_str2d : string -> option Q)
  (XANCHOR_LEFT XANCHOR_RIGHT YANCHOR_TOP YANCHOR_BOTTOM : Z)
  (SetNodeXAnchor SetNodeYAnchor : SetNodeAnchorFn)
  (L : list LuaValue) (st : LuaState) (np : NodeProxy) (scene : Scene) (x : Q)
  (Harg1 : lua_arg L 1 = LNodeProxy np)
  (Harg2 : lua_tonumber luaO_str2d (lua_arg L 2) = Some x)
  (Hint : fits_int x)
  (Hscene : lua_scenes st !! proxy_Scene np = Some scene)
  (Hvalid : IsValidNode scene (proxy_Node np) = Some true) :
  let anchor := to_int x in
  (anchor <> XANCHOR_LEFT -> anchor <> XANCHOR_RIGHT ->
   LuaSetXAnchor luaO_str2d XANCHOR_LEFT XANCHOR_RIGHT SetNodeXAnchor L st
   = RaiseF (ErrFormat "Invalid x-anchor: %d" [FmtInt anchor]) st) /\
  (anchor = XANCHOR_LEFT \/ anchor = XANCHOR_RIGHT ->
   LuaSetXAnchor luaO_str2d XANCHOR_LEFT XANCHOR_RIGHT SetNodeXAnchor L st
   = liftF (on_scene (lua_scene_global st)
              (fun sc => SetNodeXAnchor sc (proxy_Node np) anchor)) st) /\
  (forall core,
      (forall sc h, core sc h XANCHOR_LEFT = SetNodeXAnchor sc h XANCHOR_LEFT) ->
      (forall sc h, core sc h XANCHOR_RIGHT = SetNodeXAnchor sc h XANCHOR_RIGHT) ->
      LuaSetXAnchor luaO_str2d XANCHOR_LEFT XANCHOR_RIGHT core L st
      = LuaSetXAnchor luaO_str2d XANCHOR_LEFT XANCHOR_RIGHT SetNodeXAnchor L st) /\
  (anchor <> YANCHOR_TOP -> anchor <> YANCHOR_BOTTOM ->
   LuaSetYAnchor luaO_str2d YANCHOR_TOP YANCHOR_BOTTOM SetNodeYAnchor L st
   = RaiseF (ErrFormat "Invalid y-anchor: %d" [FmtInt anchor]) st) /\
  (anchor = YANCHOR_TOP \/ anchor = YANCHOR_BOTTOM ->
   LuaSetYAnchor luaO_str2d YANCHOR_TOP YANCHOR_BOTTOM SetNodeYAnchor L st
   = liftF (on_scene (lua_scene_global st)
              (fun sc => SetNodeYAnchor sc (proxy_Node np) anchor)) st) /\
  (forall core,
      (forall sc h, core sc h YANCHOR_TOP = SetNodeYAnchor sc h YANCHOR_TOP) ->
      (forall sc h, core sc h YANCHOR_BOTTOM = SetNodeYAnchor sc h YANCHOR_BOTTOM) ->
      LuaSetYAnchor luaO_str2d YANCHOR_TOP YANCHOR_BOTTOM core L st
      = LuaSetYAnchor luaO_str2d YANCHOR_TOP YANCHOR_BOTTOM SetNodeYAnchor L st).
Proof.
  intros anchor.
  assert (Hgen : forall A1 A2 name core core',
             (forall sc h, core' sc h A1 = core sc h A1) ->
             (forall sc h, core' sc h A2 = core sc h A2) ->
             (if (anchor =? A1) || (anchor =? A2)
              then liftF (on_scene (lua_scene_global st)
                            (fun sc => core' sc (proxy_Node np) anchor)) st
              else RaiseF (ErrFormat name [FmtInt anchor]) st)
             = (if (anchor =? A1) || (anchor =? A2)
                then liftF (on_scene (lua_scene_global st)
                              (fun sc => core sc (proxy_Node np) anchor)) st
                else RaiseF (ErrFormat name [FmtInt anchor]) st)).
  { intros A1 A2 name core core' H1 H2.
    destruct (Z.eqb_spec anchor A1) as [-> | _].
    - cbn [orb]. unfold liftF, on_scene.
      destruct (lua_scene_global st) as [s |]; [| reflexivity].
      lua_unfold. destruct (lua_scenes st !! s) as [sc |]; [| reflexivity].
      rewrite H1. reflexivity.
    - destruct (Z.eqb_spec anchor A2) as [-> | _]; [| reflexivity].
      cbn [orb]. unfold liftF, on_scene.
      destruct (lua_scene_global st) as [s |]; [| reflexivity].
      lua_unfold. destruct (lua_scenes st !! s) as [sc |]; [| reflexivity].
      rewrite H2. reflexivity. }
  unfold LuaSetXAnchor, LuaSetYAnchor.
  repeat split.
  - intros H1 H2.
    rewrite (LuaSetAnchor_run _ _ _ _ _ L st np scene x Harg1 Harg2 Hscene Hvalid).
    fold anchor.
    destruct (Z.eqb_spec anchor XANCHOR_LEFT); [contradiction |].
    destruct (Z.eqb_spec anchor XANCHOR_RIGHT); [contradiction | reflexivity].
  - intros H.
    rewrite (LuaSetAnchor_run _ _ _ _ _ L st np scene x Harg1 Harg2 Hscene Hvalid).
    fold anchor.
    destruct (Z.eqb_spec anchor XANCHOR_LEFT); [reflexivity |].
    destruct (Z.eqb_spec anchor XANCHOR_RIGHT); [reflexivity | tauto].
  - intros core H1 H2.
    rewrite !(LuaSetAnchor_run _ _ _ _ _ L st np scene x Harg1 Harg2 Hscene Hvalid).
    apply Hgen; assumption.
  - intros H1 H2.
    rewrite (LuaSetAnchor_run _ _ _ _ _ L st np scene x Harg1 Harg2 Hscene Hvalid).
    fold anchor.
    destruct (Z.eqb_spec anchor YANCHOR_TOP); [contradiction |].
    destruct (Z.eqb_spec anchor YANCHOR_BOTTOM); [contradiction | reflexivity].
  - intros H.
    rewrite (LuaSetAnchor_run _ _ _ _ _ L st np scene x Harg1 Harg2 Hscene Hvalid).
    fold anchor.
    destruct (Z.eqb_spec anchor YANCHOR_TOP); [reflexivity |].
    destruct (Z.eqb_spec anchor YANCHOR_BOTTOM); [reflexivity | tauto].
  - intros core H1 H2.
    rewrite !(LuaSetAnchor_run _ _ _ _ _ L st np scene x Harg1 Harg2 Hscene Hvalid).
    apply Hgen; assumption.
Qed.

(** X15.  [LuaCancelAnimation] on a valid node, with a number whose
    integer part is an [int], tests the property index against
    [PROPERTY_COUNT] only: at or above it the error "Invalid property index"
    is raised with the state unchanged; below it, negative indices included,
    [CancelAnimation] is called on the current scene and nothing else
    changes. *)
Theorem LuaCancelAnimation_checks_the_upper_bound 
  (luaO_str2d : string -> option Q) (cancel : CancelAnimationFn)
  (L : list LuaValue) (st : LuaState) (np : NodeProxy) (scene : Scene) (x : Q)
  (Harg1 : lua_arg L 1 = LNodeProxy np)
  (Harg2 : lua_tonumber luaO_str2d (lua_arg L 2) = Some x)
  (Hint : fits_int x)
  (Hscene : lua_scenes st !! proxy_Scene np = Some scene)
  (Hvalid : IsValidNode scene (proxy_Node np) = Some true) :
  let property := to_int x in
  (PROPERTY_COUNT <= property ->
   LuaCancelAnimation luaO_str2d cancel L st
   = Raise (ErrInvalidPropertyIndex property) st) /\
  (property < PROPERTY_COUNT ->
   forall s sc,
     lua_scene_global st = Some s ->
     lua_scenes st !! s = Some sc ->
     LuaCancelAnimation luaO_str2d cancel L st
     = Return tt (set_scenes
                    (<[s := cancel sc (proxy_Node np) property]>
                       (lua_scenes st)) st)).
Proof.
  intros property.
  assert (Hrun : LuaCancelAnimation luaO_str2d cancel L st
                 = if PROPERTY_COUNT <=? property
                   then Raise (ErrInvalidPropertyIndex property) st
                   else on_scene (lua_scene_global st)
                          (fun sc => cancel sc (proxy_Node np) property) st).
  { unfold LuaCancelAnimation.
    unfold mbind at 1, lua_bind at 1, get_state at 1. cbv zeta.
    rewrite (bind_Return _ _ _ _ _
               (LuaCheckNode_valid L 1 st np scene Harg1 Hscene Hvalid)).
    rewrite (bind_Return _ _ _ _ _ (luaL_checknumber_eq luaO_str2d L 2 x st Harg2)).
    fold property. destruct (PROPERTY_COUNT <=? property); reflexivity. }
  rewrite Hrun. split.
  - intros Hge. destruct (Z.leb_spec PROPERTY_COUNT property); [reflexivity | lia].
  - intros Hlt s sc Hglobal Hs.
    destruct (Z.leb_spec PROPERTY_COUNT property); [lia |].
    rewrite Hglobal.
    exact (on_scene_run s (fun sc => cancel sc (proxy_Node np) property)
             st sc Hs).
Qed.

(** ** References *)


Lemma ref_alloc_fresh (v : LuaValue) (reg : list (option LuaValue)) :
  reg !! (ref_alloc v reg).1 = None \/ reg !! (ref_alloc v reg).1 = Some None.
Proof.
  induction reg as [| [w |] reg IH]; cbn [ref_alloc]; [left; reflexivity | |].
  - destruct (ref_alloc v reg) as [i reg']. exact IH.
  - right. reflexivity.
Qed.

Lemma ref_alloc_other (v : LuaValue) (reg : list (option LuaValue)) (j : nat) :
  j <> (ref_alloc v reg).1 -> (ref_alloc v reg).2 !! j = reg !! j.
Proof.
  revert j. induction reg as [| [w |] reg IH]; intros j; cbn [ref_alloc].
  - cbn [fst snd]. intros Hj. destruct j as [| j]; [congruence | reflexivity].
  - destruct (ref_alloc v reg) as [i reg'] eqn:Ha. cbn [fst snd] in *.
    intros Hj. destruct j as [| j]; [reflexivity |].
    cbn. apply IH. congruence.
  - cbn [fst snd]. intros Hj. destruct j as [| j]; [congruence | reflexivity].
Qed.

Lemma registry_get_other (v : LuaValue) (reg : list (option LuaValue)) (r : Z) :
  r <> Z.of_nat (ref_alloc v reg).1 + 1 ->
  registry_get (ref_alloc v reg).2 r = registry_get reg r.
Proof.
  intros Hr. unfold registry_get.
  destruct (Z.leb_spec 1 r); [| reflexivity].
  rewrite ref_alloc_other by lia. reflexivity.
Qed.

Lemma registry_get_stored (v : LuaValue) (reg : list (option LuaValue)) :
  registry_get (ref_alloc v reg).2 (Z.of_nat (ref_alloc v reg).1 + 1) = v.
Proof. apply registry_get_ref. apply ref_alloc_stored. Qed.

(** The two references of [animate_refs]: different, holding the function
    and the node, and the only change to the registry. *)
Lemma animate_refs_distinct (st : LuaState) (L : list LuaValue) :
  let r1 := (animate_refs st L).1.1 in
  let r2 := (animate_refs st L).1.2 in
  let reg := (animate_refs st L).2 in
  r1 <> r2 /\
  1 <= r1 /\ 1 <= r2 /\
  registry_get reg r1 = lua_arg L 7 /\
  registry_get reg r2 = lua_arg L 1 /\
  (forall r, r <> r1 -> r <> r2 ->
             registry_get reg r = registry_get (lua_registry st) r).
Proof.
  unfold animate_refs.
  pose proof (registry_get_stored (lua_arg L 7) (lua_registry st)) as Hs1.
  pose proof (registry_get_other (lua_arg L 7) (lua_registry st)) as Ho1.
  pose proof (ref_alloc_stored (lua_arg L 7) (lua_registry st)) as Hl1.
  destruct (ref_alloc (lua_arg L 7) (lua_registry st)) as [i1 reg1].
  pose proof (registry_get_stored (lua_arg L 1) reg1) as Hs2.
  pose proof (registry_get_other (lua_arg L 1) reg1) as Ho2.
  pose proof (ref_alloc_fresh (lua_arg L 1) reg1) as Hl2.
  destruct (ref_alloc (lua_arg L 1) reg1) as [i2 reg2].
  cbn [fst snd] in *.
  assert (Hne : i1 <> i2).
  { intros ->. destruct Hl2 as [Hl2 | Hl2]; congruence. }
  split; [lia |]. split; [lia |]. split; [lia |].
  split; [rewrite Ho2 by lia; exact Hs1 |].
  split; [exact Hs2 |].
  intros r Hr1 Hr2. rewrite Ho2 by exact Hr2. apply Ho1. exact Hr1.
Qed.

(** X17.  The references of an animation with a completion function (on
    property and easing numbers whose integer parts are [int]s, and a
    duration and a delay that are [float] values): [LuaAnimate] takes two
    different references, which hold the function and the node proxy
    afterwards, passes them to [AnimateNode] as the two words, with
    [LuaAnimationComplete] as the function, and leaves every other
    reference as it was. *)
Theorem LuaAnimate_takes_two_references (luaO_str2d : string -> option Q)
  (core : AnimateNodeFn) (L : list LuaValue) (st : LuaState) (np : NodeProxy)
  (scene : Scene) (x2 x4 duration delay : Q) (to : Vector4)
  (s : HScene) (sc : Scene)
  (Harg1 : lua_arg L 1 = LNodeProxy np)
  (Hscene : lua_scenes st !! proxy_Scene np = Some scene)
  (Hvalid : IsValidNode scene (proxy_Node np) = Some true)
  (Harg2 : lua_tonumber luaO_str2d (lua_arg L 2) = Some x2)
  (Harg3 : lua_arg L 3 = LVector4 to)
  (Harg4 : lua_tonumber luaO_str2d (lua_arg L 4) = Some x4)
  (Harg5 : lua_tonumber luaO_str2d (lua_arg L 5) = Some duration)
  (Harg6 : lua_tonumber luaO_str2d (lua_arg L 6) = Some delay)
  (Harg7 : lua_isfunction (lua_arg L 7) = true)
  (Hint2 : fits_int x2)
  (Hint4 : fits_int x4)
  (Hduration : is_float duration)
  (Hdelay : is_float delay)
  (Hproperty : to_int x2 < PROPERTY_COUNT)
  (Heasing : to_int x4 < EASING_COUNT)
  (Hglobal : lua_scene_global st = Some s)
  (Hs : lua_scenes st !! s = Some sc) :
  exists r1 r2 st1,
    LuaAnimate luaO_str2d core L st = Return tt st1 /\
    lua_scenes st1
    = <[s := core sc (proxy_Node np) (to_int x2) to (to_int x4) duration delay
                  (Some LuaAnimationCompleteFn) r1 r2]> (lua_scenes st) /\
    r1 <> r2 /\
    1 <= r1 /\ 1 <= r2 /\
    registry_get (lua_registry st1) r1 = lua_arg L 7 /\
    registry_get (lua_registry st1) r2 = lua_arg L 1 /\
    (forall r, 1 <= r -> r <> r1 -> r <> r2 ->
               registry_get (lua_registry st1) r = registry_get (lua_registry st) r).
Proof.
  destruct (animate_refs_distinct st L) as (Hne & Hp1 & Hp2 & Hs1 & Hs2 & Hother).
  exists (animate_refs st L).1.1, (animate_refs st L).1.2.
  eexists. split.
  { rewrite (LuaAnimate_with_function luaO_str2d core L st np scene
               x2 x4 duration to Harg1 Hscene Hvalid Harg2 Harg3 Harg4 Harg5
               delay Harg6 Harg7).
    destruct (Z.leb_spec PROPERTY_COUNT (to_int x2)); [lia |].
    destruct (Z.leb_spec EASING_COUNT (to_int x4)); [lia |].
    rewrite Hglobal.
    exact (on_scene_run s _ (set_registry (animate_refs st L).2 st) sc Hs). }
  cbn [lua_scenes lua_registry set_scenes set_registry].
  split; [reflexivity |]. split; [exact Hne |]. split; [exact Hp1 |].
  split; [exact Hp2 |]. split; [exact Hs1 |]. split; [exact Hs2 |].
  intros r _ Hr1 Hr2. apply Hother; assumption.
Qed.

(** X19.  Fields of a node proxy cannot be read or written: [NodeProxy_index]
    and [NodeProxy_newindex] never return, and on a valid node with a key
    they raise "Illegal operation" with the accessor to use instead. *)
Theorem NodeProxy_index_always_raises (lua_number2str : Q -> string)
  (L : list LuaValue) (st : LuaState) :
  (forall st', NodeProxy_index lua_number2str L st <> ReturnF tt st') /\
  (forall st', NodeProxy_newindex lua_number2str L st <> ReturnF tt st') /\
  (forall np scene key,
      lua_arg L 1 = LNodeProxy np ->
      lua_scenes st !! proxy_Scene np = Some scene ->
      IsValidNode scene (proxy_Node np) = Some true ->
      lua_tostring lua_number2str (lua_arg L 2) = Some key ->
      NodeProxy_index lua_number2str L st
      = RaiseF (ErrFormat "Illegal operation, try %s.get_%s(<node>)"
                          [FmtStr "gui"; FmtStr key]) st /\
      NodeProxy_newindex lua_number2str L st
      = RaiseF (ErrFormat "Illegal operation, try %s.set_%s(<node>, <value>)"
                          [FmtStr "gui"; FmtStr key]) st).
Proof.
  split; [| split].
  - intros st'. unfold NodeProxy_index, mbind, luaF_bind, liftF.
    destruct (LuaCheckNode L 1 st) as [[r h] st1 | e st1 |]; try discriminate.
    destruct (luaL_checkstring lua_number2str L 2 st1) as [key st2 | e st2 |];
      discriminate.
  - intros st'. unfold NodeProxy_newindex, mbind, luaF_bind, liftF.
    destruct (LuaCheckNode L 1 st) as [[r h] st1 | e st1 |]; try discriminate.
    destruct (luaL_checkstring lua_number2str L 2 st1) as [key st2 | e st2 |];
      discriminate.
  - intros np scene key Harg1 Hscene Hvalid Harg2.
    unfold NodeProxy_index, NodeProxy_newindex.
    rewrite !(bindF_Return _ _ _ _ _
                (LuaCheckNode_valid L 1 st np scene Harg1 Hscene Hvalid)).
    rewrite !(bindF_Return _ _ _ _ _ (luaL_checkstring_eq _ L 2 key st Harg2)).
    split; reflexivity.
Qed.

(** X20.  [LuaGetNode] returns a proxy only for a nonzero handle: the
    proxy carries the current scene and the handle [GetNodeById] found, the
    state is unchanged, and the zero handle raises "No such node" with the
    name looked up. *)
Theorem LuaGetNode_gives_a_nonzero_handle (lua_number2str : Q -> string)
  (GetNodeById : GetNodeByIdFn) (L : list LuaValue) (st : LuaState) :
  (forall np st',
      LuaGetNode lua_number2str GetNodeById L st = ReturnF np st' ->
      st' = st /\
      proxy_Node np <> 0 /\
      lua_scene_global st = Some (proxy_Scene np) /\
      exists name sc,
        lua_tostring lua_number2str (lua_arg L 1) = Some name /\
        lua_scenes st !! proxy_Scene np = Some sc /\
        proxy_Node np = GetNodeById sc name) /\
  (forall name s sc,
      lua_tostring lua_number2str (lua_arg L 1) = Some name ->
      lua_scene_global st = Some s ->
      lua_scenes st !! s = Some sc ->
      GetNodeById sc name = 0 ->
      LuaGetNode lua_number2str GetNodeById L st
      = RaiseF (ErrFormat "No such node: %s" [FmtStr name]) st).
Proof.
  unfold LuaGetNode, luaL_checkstring, read_scene.
  unfold mbind, luaF_bind, liftF, get_state, mret, luaF_ret, lua_ret,
    luaL_typerror, luaL_error, luaL_errorf, faultF.
  split.
  - intros np st'.
    destruct (lua_tostring lua_number2str (lua_arg L 1)) as [name |];
      [| discriminate].
    destruct (lua_scene_global st) as [s |]; [| discriminate].
    destruct (lua_scenes st !! s) as [sc |] eqn:Hs; [| discriminate].
    destruct (Z.eqb_spec (GetNodeById sc name) 0) as [Hz | Hnz]; [discriminate |].
    intros [= <- <-]. cbn [proxy_Scene proxy_Node].
    split; [reflexivity |]. split; [exact Hnz |]. split; [reflexivity |].
    exists name, sc. auto.
  - intros name s sc -> -> -> ->. reflexivity.
Qed.

Lemma on_scene_result_run (s : HScene) (f : Scene -> Result * Scene)
  (st : LuaState) (sc : Scene) :
  lua_scenes st !! s = Some sc ->
  on_scene_result (Some s) f st
  = Return (f sc).1 (set_scenes (<[s := (f sc).2]> (lua_scenes st)) st).
Proof. intros Hs. unfold on_scene_result. lua_unfold. rewrite Hs. reflexivity. Qed.

(** X21.  [LuaSetTexture] and [LuaSetFont] on a valid node raise their
    error exactly when the scene function does not return [RESULT_OK]; in
    both cases the scene is the one the scene function left. *)
Theorem LuaSetTexture_reports_the_result (lua_number2str : Q -> string)
  (SetNodeTexture SetNodeFont : SetNodeResourceFn)
  (L : list LuaValue) (st : LuaState) (np : NodeProxy) (scene : Scene)
  (name : string) (s : HScene) (sc : Scene)
  (Harg1 : lua_arg L 1 = LNodeProxy np)
  (Harg2 : lua_tostring lua_number2str (lua_arg L 2) = Some name)
  (Hscene : lua_scenes st !! proxy_Scene np = Some scene)
  (Hvalid : IsValidNode scene (proxy_Node np) = Some true)
  (Hglobal : lua_scene_global st = Some s)
  (Hs : lua_scenes st !! s = Some sc) :
  let after f := set_scenes (<[s := (f sc (proxy_Node np) name).2]> (lua_scenes st)) st in
  ((SetNodeTexture sc (proxy_Node np) name).1 = RESULT_OK ->
   LuaSetTexture lua_number2str SetNodeTexture L st
   = ReturnF tt (after SetNodeTexture)) /\
  ((SetNodeTexture sc (proxy_Node np) name).1 <> RESULT_OK ->
   LuaSetTexture lua_number2str SetNodeTexture L st
   = RaiseF (ErrFormat "Texture %s is not specified in scene" [FmtStr name])
            (after SetNodeTexture)) /\
  ((SetNodeFont sc (proxy_Node np) name).1 = RESULT_OK ->
   LuaSetFont lua_number2str SetNodeFont L st
   = ReturnF tt (after SetNodeFont)) /\
  ((SetNodeFont sc (proxy_Node np) name).1 <> RESULT_OK ->
   LuaSetFont lua_number2str SetNodeFont L st
   = RaiseF (ErrFormat "Font %s is not specified in scene" [FmtStr name])
            (after SetNodeFont)).
Proof.
  intros after.
  assert (Hrun : forall (core : SetNodeResourceFn) fmt,
             ('(n, hnode) ← liftF (LuaCheckNode L 1);
              resource_name ← liftF (luaL_checkstring lua_number2str L 2);
              st ← liftF get_state;
              let scene := lua_scene_global st in
              r ← liftF (on_scene_result scene
                           (fun sc => core sc hnode resource_name));
              match r with
              | RESULT_OK => mret tt
              | _ => luaL_errorf fmt [FmtStr resource_name]
              end) st
             = match (core sc (proxy_Node np) name).1 with
               | RESULT_OK => ReturnF tt (after core)
               | _ => RaiseF (ErrFormat fmt [FmtStr name]) (after core)
               end).
  { intros core fmt.
    rewrite (bindF_Return _ _ _ _ _
               (LuaCheckNode_valid L 1 st np scene Harg1 Hscene Hvalid)).
    rewrite (bindF_Return _ _ _ _ _ (luaL_checkstring_eq _ L 2 name st Harg2)).
    unfold mbind at 1, luaF_bind at 1, liftF at 1, get_state at 1. cbv zeta.
    rewrite Hglobal.
    rewrite (bindF_Return _ _ _ _ _ (on_scene_result_run s _ st sc Hs)).
    destruct (core sc (proxy_Node np) name).1; reflexivity. }
  unfold LuaSetTexture, LuaSetFont. rewrite !Hrun.
  repeat split.
  - intros ->. reflexivity.
  - intros Hne. destruct (SetNodeTexture sc (proxy_Node np) name).1;
      [congruence | reflexivity ..].
  - intros ->. reflexivity.
  - intros Hne. destruct (SetNodeFont sc (proxy_Node np) name).1;
      [congruence | reflexivity ..].
Qed.

(** X18.  The optional arguments of [LuaAnimate], on otherwise valid
    arguments (property and easing numbers whose integer parts are [int]s,
    a duration and a delay that are [float] values): without a sixth
    argument the delay is zero; a sixth argument
    that is not a number ([nil] included) raises a type error with the state
    unchanged; with a delay and a seventh argument that is not a function,
    that argument is ignored: no reference is taken and [AnimateNode] gets
    the null callback. *)
Theorem LuaAnimate_optional_arguments (luaO_str2d : string -> option Q)
  (core : AnimateNodeFn) (L : list LuaValue) (st : LuaState) (np : NodeProxy)
  (scene : Scene) (x2 x4 duration : Q) (to : Vector4)
  (Harg1 : lua_arg L 1 = LNodeProxy np)
  (Hscene : lua_scenes st !! proxy_Scene np = Some scene)
  (Hvalid : IsValidNode scene (proxy_Node np) = Some true)
  (Harg2 : lua_tonumber luaO_str2d (lua_arg L 2) = Some x2)
  (Harg3 : vector_argument (lua_arg L 3) = Some to)
  (Harg4 : lua_tonumber luaO_str2d (lua_arg L 4) = Some x4)
  (Harg5 : lua_tonumber luaO_str2d (lua_arg L 5) = Some duration)
  (Hint2 : fits_int x2)
  (Hint4 : fits_int x4)
  (Hduration : is_float duration)
  (Hproperty : to_int x2 < PROPERTY_COUNT)
  (Heasing : to_int x4 < EASING_COUNT) :
  let run delay :=
    on_scene (lua_scene_global st)
      (fun sc => core sc (proxy_Node np) (to_int x2) to (to_int x4)
                      duration delay None 0 0) st in
  (lua_arg L 6 = LNone ->
   LuaAnimate luaO_str2d core L st = run 0%Q) /\
  (lua_arg L 6 <> LNone ->
   lua_tonumber luaO_str2d (lua_arg L 6) = None ->
   LuaAnimate luaO_str2d core L st = Raise (ErrType 6 "number") st) /\
  (forall delay,
      lua_tonumber luaO_str2d (lua_arg L 6) = Some delay ->
      is_float delay ->
      lua_isfunction (lua_arg L 7) = false ->
      LuaAnimate luaO_str2d core L st = run delay).
Proof.
  intros run.
  assert (Hrun : LuaAnimate luaO_str2d core L st
                 = match lua_tonumber luaO_str2d (lua_arg L 6) with
                   | Some delay =>
                       if lua_isfunction (lua_arg L 7)
                       then LuaAnimate luaO_str2d core L st
                       else run delay
                   | None =>
                       if negb (lua_isnone (lua_arg L 6))
                       then Raise (ErrType 6 "number") st
                       else run 0%Q
                   end).
  { destruct (lua_tonumber luaO_str2d (lua_arg L 6)) as [delay |] eqn:Harg6.
    - destruct (lua_isfunction (lua_arg L 7)) eqn:Hf; [reflexivity |].
      unfold LuaAnimate.
      unfold mbind at 1, lua_bind at 1, get_state at 1. cbv zeta.
      rewrite (bind_Return _ _ _ _ _
                 (LuaCheckNode_valid L 1 st np scene Harg1 Hscene Hvalid)).
      rewrite (bind_Return _ _ _ _ _ (luaL_checknumber_eq luaO_str2d L 2 x2 st Harg2)).
      unfold mbind at 1, lua_bind at 1. rewrite check_vector_argument, Harg3.
      rewrite (bind_Return _ _ _ _ _ (luaL_checknumber_eq luaO_str2d L 4 x4 st Harg4)).
      rewrite (bind_Return _ _ _ _ _ (luaL_checknumber_eq luaO_str2d L 5 duration st Harg5)).
      rewrite Harg6, Hf.
      unfold mbind at 1, lua_bind at 1, mret at 1, lua_ret at 1.
      destruct (Z.leb_spec PROPERTY_COUNT (to_int x2)); [lia |].
      unfold mbind at 1, lua_bind at 1, mret at 1, lua_ret at 1.
      destruct (Z.leb_spec EASING_COUNT (to_int x4)); [lia |].
      unfold mbind at 1, lua_bind at 1, mret at 1, lua_ret at 1.
      reflexivity.
    - unfold LuaAnimate.
      unfold mbind at 1, lua_bind at 1, get_state at 1. cbv zeta.
      rewrite (bind_Return _ _ _ _ _
                 (LuaCheckNode_valid L 1 st np scene Harg1 Hscene Hvalid)).
      rewrite (bind_Return _ _ _ _ _ (luaL_checknumber_eq luaO_str2d L 2 x2 st Harg2)).
      unfold mbind at 1, lua_bind at 1. rewrite check_vector_argument, Harg3.
      rewrite (bind_Return _ _ _ _ _ (luaL_checknumber_eq luaO_str2d L 4 x4 st Harg4)).
      rewrite (bind_Return _ _ _ _ _ (luaL_checknumber_eq luaO_str2d L 5 duration st Harg5)).
      rewrite Harg6.
      destruct (negb (lua_isnone (lua_arg L 6))); [reflexivity |].
      unfold mbind at 1, lua_bind at 1, mret at 1, lua_ret at 1.
      destruct (Z.leb_spec PROPERTY_COUNT (to_int x2)); [lia |].
      unfold mbind at 1, lua_bind at 1, mret at 1, lua_ret at 1.
      destruct (Z.leb_spec EASING_COUNT (to_int x4)); [lia |].
      unfold mbind at 1, lua_bind at 1, mret at 1, lua_ret at 1.
      reflexivity. }
  split; [| split].
  - intros Harg6. rewrite Hrun, Harg6. reflexivity.
  - intros Hsome Harg6. rewrite Hrun, Harg6.
    destruct (lua_arg L 6); try reflexivity. congruence.
  - intros delay Harg6 _ Hf. rewrite Hrun, Harg6, Hf. reflexivity.
Qed.

(** X5.  The reading functions are read-only: [LuaCheckNode], the
    property getters, [LuaGetText], [LuaGetBlendMode], [NodeProxy_tostring]
    and [NodeProxy_eq] leave the state as it was, whether they return or
    raise. *)
Theorem getters_keep_the_state (lua_number2str : Q -> string)
  (property : Z) (index : nat) (L : list LuaValue) :
  keeps_state (LuaCheckNode L index) /\
  keeps_state (LuaGet property L) /\
  keeps_state (LuaGetText L) /\
  keeps_state (LuaGetBlendMode L) /\
  keeps_state (NodeProxy_tostring lua_number2str L) /\
  keeps_state (NodeProxy_eq L).
Proof.
  unfold LuaGet, LuaGetText, LuaGetBlendMode, NodeProxy_tostring, NodeProxy_eq.
  repeat split;
    repeat first
      [ apply keeps_state_LuaCheckNode
      | apply keeps_state_read_node
      | apply keeps_state_mret
      | apply keeps_state_fault
      | match goal with
        | |- context [if ?c then _ else _] => destruct c
        | |- context [match ?c with Some _ => _ | None => _ end] => destruct c
        | |- context [match ?c with NODE_TYPE_BOX => _ | NODE_TYPE_TEXT => _ end] =>
            destruct c
        end
      | (apply keeps_state_bind; [| bound_value]) ].
Qed.

(** ** New nodes *)

Lemma LuaDoNewNode_cases (NewNode : NewNodeFn) (SetNodeText : SetNodeTextFn)
  (Capacity : Scene -> Z) (pos ext : Vector4) (node_type : NodeType)
  (text : option string) (st : LuaState) :
  match LuaDoNewNode NewNode SetNodeText Capacity pos ext node_type text st with
  | ReturnF np st' =>
      exists sc n,
        lua_scene_global st = Some (proxy_Scene np) /\
        lua_scenes st !! proxy_Scene np = Some sc /\
        (NewNode sc pos ext node_type).1 = proxy_Node np /\
        proxy_Node np <> 0 /\
        let sc1 := (NewNode sc pos ext node_type).2 in
        let i := Z.to_nat (handle_index (proxy_Node np)) in
        IsValidNode sc1 (proxy_Node np) = Some true /\
        m_Nodes sc1 !! i = Some n /\
        st' = set_scenes
                (<[proxy_Scene np :=
                   SetNodeText
                     (set_Nodes
                        (<[i := set_Node (set_Font (m_DefaultFont sc1) (m_Node n)) n]>
                           (m_Nodes sc1)) sc1)
                     (proxy_Node np) text]> (lua_scenes st)) st
  | RaiseF e st' =>
      exists s sc,
        lua_scene_global st = Some s /\
        lua_scenes st !! s = Some sc /\
        (NewNode sc pos ext node_type).1 = 0 /\
        e = ErrFormat "Out of nodes (max %d)"
                      [FmtInt (Capacity (NewNode sc pos ext node_type).2)] /\
        st' = set_scenes (<[s := (NewNode sc pos ext node_type).2]> (lua_scenes st)) st
  | FaultF => True
  end.
Proof.
  unfold LuaDoNewNode.
  unfold mbind at 1, luaF_bind at 1, liftF at 1, get_state at 1.
  destruct (lua_scene_global st) as [s |] eqn:Hglobal; [| exact I].
  unfold mbind at 1, luaF_bind at 1, liftF at 1, read_scene at 1.
  destruct (lua_scenes st !! s) as [sc |] eqn:Hs; [| exact I].
  destruct (NewNode sc pos ext node_type) as [node sc1] eqn:Hnew.
  cbn [fst snd].
  unfold mbind at 1, luaF_bind at 1, liftF at 1, write_scene at 1, modify_state at 1.
  set (st1 := set_scenes (<[s := sc1]> (lua_scenes st)) st).
  assert (Hs1 : lua_scenes st1 !! s = Some sc1).
  { unfold st1. cbn [lua_scenes set_scenes].
    apply list_lookup_insert_eq. eapply lookup_lt_Some; exact Hs. }
  unfold mbind at 1, luaF_bind at 1.
  destruct (Z.eqb_spec node 0) as [-> | Hnz].
  { unfold luaL_errorf. exists s, sc. rewrite Hnew. auto. }
  unfold mret at 1, luaF_ret at 1.
  unfold GetNode.
  destruct (IsValidNode sc1 node) as [[|] |] eqn:Hvalid; try exact I.
  destruct (valid_slot sc1 node Hvalid) as (n & Hn & _).
  rewrite (bindF_Return _ _ _ _ _ (read_node_eq _ _ st1 sc1 n Hs1 Hn)).
  rewrite (bindF_Return _ _ _ _ _ (write_node_eq _ _ st1 sc1 _ Hs1)).
  unfold mbind at 1, luaF_bind at 1, liftF at 1, read_scene at 1.
  cbn [lua_scenes set_scenes].
  rewrite list_lookup_insert_eq by (eapply lookup_lt_Some; exact Hs1).
  unfold mbind at 1, luaF_bind at 1, liftF at 1, write_scene at 1, modify_state at 1.
  unfold mret, luaF_ret. cbn [proxy_Scene proxy_Node].
  exists sc, n. rewrite Hnew. cbn [fst snd].
  split; [reflexivity |]. split; [exact Hs |]. split; [reflexivity |].
  split; [exact Hnz |]. cbv zeta.
  split; [exact Hvalid |]. split; [exact Hn |].
  unfold st1.
  cbn [lua_scenes set_scenes lua_registry lua_scene_global lua_called].
  rewrite !list_insert_insert_eq. reflexivity.
Qed.

(** X22.  [LuaNewBoxNode] and [LuaNewTextNode] check their arguments before
    they allocate: a type error leaves the state as it was.  When [NewNode]
    has no node (handle zero) they raise "Out of nodes" and the state is the
    one [NewNode] left.  When they return, the proxy carries the current
    scene and the nonzero handle of [NewNode], which validates in the scene
    [NewNode] left; the node's font has been set to the default font of the
    scene before [SetNodeText] ran, with no text for a box node and the text
    given for a text node, whose extent is (1, 1, 1). *)
Theorem LuaNewNode_checks_before_it_allocates (lua_number2str : Q -> string)
  (NewNode : NewNodeFn) (SetNodeText : SetNodeTextFn) (Capacity : Scene -> Z)
  (L : list LuaValue) (st : LuaState) :
  let created (pos ext : Vector4) (node_type : NodeType) (text : option string)
              (np : NodeProxy) (st' : LuaState) :=
    exists sc n,
      lua_scene_global st = Some (proxy_Scene np) /\
      lua_scenes st !! proxy_Scene np = Some sc /\
      (NewNode sc pos ext node_type).1 = proxy_Node np /\
      proxy_Node np <> 0 /\
      let sc1 := (NewNode sc pos ext node_type).2 in
      let i := Z.to_nat (handle_index (proxy_Node np)) in
      IsValidNode sc1 (proxy_Node np) = Some true /\
      m_Nodes sc1 !! i = Some n /\
      st' = set_scenes
              (<[proxy_Scene np :=
                 SetNodeText
                   (set_Nodes
                      (<[i := set_Node (set_Font (m_DefaultFont sc1) (m_Node n)) n]>
                         (m_Nodes sc1)) sc1)
                   (proxy_Node np) text]> (lua_scenes st)) st in
  let out_of_nodes (pos ext : Vector4) (node_type : NodeType)
                   (e : LuaErrorF) (st' : LuaState) :=
    exists s sc,
      lua_scene_global st = Some s /\
      lua_scenes st !! s = Some sc /\
      (NewNode sc pos ext node_type).1 = 0 /\
      e = ErrFormat "Out of nodes (max %d)"
                    [FmtInt (Capacity (NewNode sc pos ext node_type).2)] /\
      st' = set_scenes (<[s := (NewNode sc pos ext node_type).2]> (lua_scenes st)) st in
  match LuaNewBoxNode NewNode SetNodeText Capacity L st with
  | ReturnF np st' =>
      exists x1 y1 z1 x2 y2 z2,
        lua_arg L 1 = LVector3 x1 y1 z1 /\
        lua_arg L 2 = LVector3 x2 y2 z2 /\
        created (mkVector4 x1 y1 z1 0%Q) (mkVector4 x2 y2 z2 0%Q)
                NODE_TYPE_BOX None np st'
  | RaiseF (ErrBinding e) st' => st' = st
  | RaiseF e st' =>
      exists pos ext, out_of_nodes pos ext NODE_TYPE_BOX e st'
  | FaultF => True
  end /\
  match LuaNewTextNode lua_number2str NewNode SetNodeText Capacity L st with
  | ReturnF np st' =>
      exists x1 y1 z1 text,
        lua_arg L 1 = LVector3 x1 y1 z1 /\
        lua_tostring lua_number2str (lua_arg L 2) = Some text /\
        created (mkVector4 x1 y1 z1 0%Q) (mkVector4 1 1 1 0%Q)
                NODE_TYPE_TEXT (Some text) np st'
  | RaiseF (ErrBinding e) st' => st' = st
  | RaiseF e st' =>
      exists pos ext, out_of_nodes pos ext NODE_TYPE_TEXT e st'
  | FaultF => True
  end.
Proof.
  intros created out_of_nodes. split.
  - unfold LuaNewBoxNode, CheckVector3.
    destruct (lua_arg L 1) as [| | | | | | | | | x1 y1 z1 | |] eqn:H1;
      try reflexivity.
    destruct (lua_arg L 2) as [| | | | | | | | | x2 y2 z2 | |] eqn:H2;
      try reflexivity.
    unfold mbind, luaF_bind, liftF, mret, lua_ret.
    pose proof (LuaDoNewNode_cases NewNode SetNodeText Capacity
                  (Vector4_of_Vector3 x1 y1 z1) (Vector4_of_Vector3 x2 y2 z2)
                  NODE_TYPE_BOX None st) as Hcases.
    destruct (LuaDoNewNode NewNode SetNodeText Capacity
                (Vector4_of_Vector3 x1 y1 z1) (Vector4_of_Vector3 x2 y2 z2)
                NODE_TYPE_BOX None st) as [np st' | e st' |]; [| | exact I].
    + exists x1, y1, z1, x2, y2, z2. split; [reflexivity |].
      split; [reflexivity | exact Hcases].
    + destruct Hcases as (s & sc & Hg & Hs & Hz & -> & Hst).
      eexists _, _, s, sc. repeat split; eassumption.
  - unfold LuaNewTextNode, CheckVector3, luaL_checkstring.
    destruct (lua_arg L 1) as [| | | | | | | | | x1 y1 z1 | |] eqn:H1;
      try reflexivity.
    cbv zeta.
    destruct (lua_tostring lua_number2str (lua_arg L 2)) as [text |] eqn:H2;
      [| reflexivity].
    unfold mbind, luaF_bind, liftF, mret, lua_ret.
    pose proof (LuaDoNewNode_cases NewNode SetNodeText Capacity
                  (Vector4_of_Vector3 x1 y1 z1) (Vector4_of_Vector3 1 1 1)
                  NODE_TYPE_TEXT (Some text) st) as Hcases.
    destruct (LuaDoNewNode NewNode SetNodeText Capacity
                (Vector4_of_Vector3 x1 y1 z1) (Vector4_of_Vector3 1 1 1)
                NODE_TYPE_TEXT (Some text) st) as [np st' | e st' |]; [| | exact I].
    + exists x1, y1, z1, text. split; [reflexivity |].
      split; [reflexivity | exact Hcases].
    + destruct Hcases as (s & sc & Hg & Hs & Hz & -> & Hst).
      eexists _, _, s, sc. repeat split; eassumption.
Qed.

(** ** The theorems at work on the example scene *)

Example IsValidNode_examples :
  IsValidNode example_scene example_node = Some true /\
  IsValidNode example_scene (MakeHandle 2 0) = Some false /\
  IsValidNode example_scene (MakeHandle 1 5) = Some false /\
  IsValidNode (Sweep example_scene) example_old_node = Some false.
Proof. repeat split; reflexivity. Qed.

Example NodeProxy_eq_examples :
  let stale := LNodeProxy (mkNodeProxy O (MakeHandle 2 0)) in
  NodeProxy_eq [example_proxy; LNumber 1] example_state
  = Return false example_state /\
  NodeProxy_eq [LNil; example_proxy] example_state
  = Return false example_state /\
  NodeProxy_eq [example_proxy; stale] example_state
  = Raise ErrDeletedNode example_state /\
  NodeProxy_eq [stale; LNumber 1] example_state
  = Return false example_state.
Proof. repeat split; reflexivity. Qed.

Example LuaAnimate_examples :
  let to := LVector4 (mkVector4 10 0 0 0) in
  LuaAnimate (fun _ => None) AnimateNode
    [example_proxy; LNumber 7; to; LNumber 0; LNumber 1] example_state
  = Raise (ErrInvalidPropertyIndex 7) example_state /\
  LuaAnimate (fun _ => None) AnimateNode
    [example_proxy; LNumber 0; to; LNumber 9; LNumber 1] example_state
  = Raise (ErrInvalidEasing 9) example_state /\
  LuaAnimate (fun _ => None) AnimateNode
    [example_proxy; LNumber 0; to; LNumber 0; LNumber 1; LNil] example_state
  = Raise (ErrType 6 "number") example_state /\
  LuaAnimate (fun _ => None) AnimateNode
    [LNodeProxy (mkNodeProxy O (MakeHandle 2 0)); LNumber 0; to; LNumber 0; LNumber 1]
    example_state
  = Raise ErrDeletedNode example_state.
Proof. repeat split; reflexivity. Qed.

Lemma LuaDeleteNode_only_sets_flag_witness :
  IsValidNode example_scene example_node = Some true /\
  exists st' scene',
    LuaDeleteNode [example_proxy] example_state = Return tt st' /\
    lua_scenes st' !! O = Some scene' /\
    IsValidNode scene' example_node = Some true /\
    pending_delete scene' example_node = true /\
    forall v, LuaGet PROPERTY_COLOR [example_proxy] example_state
              = Return v example_state <->
              LuaGet PROPERTY_COLOR [example_proxy] st' = Return v st'.
Proof.
  split; [reflexivity |].
  pose proof (LuaDeleteNode_only_sets_flag [example_proxy] example_state
                (mkNodeProxy O example_node) example_scene
                eq_refl eq_refl eq_refl) as H.
  cbv zeta in H.
  destruct H
    as (n & scene' & st' & Hn & Hrun & Hst & Hsc & Hslot & _ & _ & Hvalid & Hget & _).
  exists st', scene'. split; [exact Hrun |].
  split; [rewrite Hst; reflexivity |].
  split; [exact Hvalid |].
  split.
  - unfold pending_delete. change (Z.to_nat (handle_index example_node)) with O.
    change (Z.to_nat (handle_index (proxy_Node (mkNodeProxy O example_node))))
      with O in Hslot.
    rewrite Hslot. reflexivity.
  - intros v. apply Hget.
Defined.

Lemma second_Start_replaces_first_witness :
  let to1 := mkVector4 10 0 0 0 in
  let to2 := mkVector4 20 0 0 0 in
  let scene1 := (Start example_scene example_node PROPERTY_POSITION to1
                       EASING_NONE 1 0 None 0 0).2 in
  let scene2 := (Start scene1 example_node PROPERTY_POSITION to2
                       EASING_NONE 2 0 (Some LuaAnimationCompleteFn) 1 2).2 in
  let ops := [OTick 1; OPool OpSweep; OTick 1] in
  one_track_per_pair example_scene /\
  length (m_Animations scene2) = 1%nat /\
  Forall (fun t => track_on (handle_index example_node) PROPERTY_POSITION t = true ->
                   track_token t = (Some LuaAnimationCompleteFn, 1, 2))
         (scene_run example_easing ops scene2).2 /\
  length (scene_run example_easing ops scene2).2 = 1%nat.
Proof.
  intros to1 to2 scene1 scene2 ops.
  assert (Hinv : one_track_per_pair example_scene).
  { intros i p. unfold track_count. simpl. lia. }
  split; [exact Hinv |]. split; [reflexivity |].
  split; [| reflexivity].
  apply (second_Start_replaces_first example_easing example_scene scene1 scene2
           example_node PROPERTY_POSITION to1 to2 EASING_NONE EASING_NONE
           1 2 0 0 None (Some LuaAnimationCompleteFn) 0 0 1 2
           Hinv eq_refl eq_refl).
  reflexivity.
Defined.



Lemma IsValidNode_decodes_halfwords_witness :
  handle_version example_node = 1 /\
  handle_index example_node = 0 /\
  MakeHandle (1 + 3 * 2 ^ 16) 0 = example_node /\
  IsValidNode example_scene (MakeHandle (1 + 3 * 2 ^ 16) 0)
  = IsValidNode example_scene example_node.
Proof.
  assert (Hword : 0 <= example_node < 2 ^ 32) 
    by (vm_compute; split; [discriminate | reflexivity]).
  destruct (IsValidNode_decodes_halfwords example_scene example_node 3 Hword)
    as (Hv & Hi & _ & _ & Hpack & Hsame).
  split; [exact Hv |]. split; [exact Hi |].
  split; [exact Hpack | exact Hsame].
Defined.

Lemma NodeProxy_eq_compares_handles_witness :
  NodeProxy_eq [example_proxy; example_proxy] example_state
  = Return true example_state /\
  NodeProxy_eq [example_proxy; LNodeProxy (mkNodeProxy O example_old_node)]
               example_state
  = Return false example_state.
Proof.
  assert (Hlive : forall L np,
             (L = [example_proxy; example_proxy] \/
              L = [example_proxy; LNodeProxy (mkNodeProxy O example_old_node)]) ->
             lua_arg L 1 = LNodeProxy np \/ lua_arg L 2 = LNodeProxy np ->
             is_Some (lua_scenes example_state !! proxy_Scene np)).
  { intros L np [-> | ->] [H | H]; injection H as <-; eexists; reflexivity. }
  split.
  - exact (NodeProxy_eq_compares_handles [example_proxy; example_proxy]
             example_state (fun np => Hlive _ np (or_introl eq_refl))).
  - exact (NodeProxy_eq_compares_handles
             [example_proxy; LNodeProxy (mkNodeProxy O example_old_node)]
             example_state (fun np => Hlive _ np (or_intror eq_refl))).
Defined.

Lemma IsValidNode_one_handle_per_slot_witness :
  example_node = 65536 /\
  exists n, m_Nodes example_scene !! Z.to_nat (handle_index example_node) = Some n /\
            example_node = m_Version n * 2 ^ 16 + m_Index n.
Proof.
  assert (Hword : 0 <= 65536 < 2 ^ 32) by lia.
  exact (IsValidNode_one_handle_per_slot example_scene example_node 65536
           Hword Hword eq_refl eq_refl eq_refl).
Defined.

Lemma LuaCheckNode_returns_live_slot_witness :
  LuaCheckNode [example_proxy] 1 example_state
  = Return ((O, O), example_node) example_state /\
  exists scene n,
    lua_scenes example_state !! O = Some scene /\
    (O < length (m_Nodes scene))%nat /\
    m_Nodes scene !! O = Some n /\
    m_Version n = handle_version example_node /\
    m_Index n = handle_index example_node /\
    read_node (O, O) example_state = Return n example_state.
Proof.
  split; [reflexivity |].
  destruct (LuaCheckNode_returns_live_slot [example_proxy] 1 example_state
              example_state (O, O) example_node eq_refl)
    as (_ & _ & _ & H).
  exact H.
Defined.

Lemma stale_proxy_is_rejected_witness :
  IsValidNode example_scene (MakeHandle 2 0) = Some false /\
  LuaDeleteNode [example_stale_proxy] example_state
  = Raise ErrDeletedNode example_state /\
  LuaSet PROPERTY_COLOR [example_stale_proxy; LVector4 (mkVector4 1 1 1 1)]
         example_state
  = Raise ErrDeletedNode example_state.
Proof.
  split; [reflexivity |].
  split.
  - destruct (stale_proxy_is_rejected (fun _ => None) example_number2str
                (fun b => b) AnimateNode CancelAnimation
                (fun sc _ _ => (RESULT_OK, sc)) (fun sc _ _ => (RESULT_OK, sc))
                1 2 1 2 (fun sc _ _ => sc) (fun sc _ _ => sc)
                PROPERTY_COLOR [example_stale_proxy] example_state
                (mkNodeProxy O (MakeHandle 2 0)) example_scene
                eq_refl eq_refl eq_refl) as (H & _).
    exact H.
  - reflexivity.
Defined.

Lemma LuaSet_then_LuaGet_witness :
  exists st',
    LuaSet PROPERTY_COLOR [example_proxy; LVector3 1 2 3] example_state
    = Return tt st' /\
    LuaGet PROPERTY_COLOR [example_proxy] st' = Return (mkVector4 1 2 3 0) st'.
Proof.
  assert (Hproperty : 0 <= PROPERTY_COLOR < 5) by (unfold PROPERTY_COLOR; lia).
  destruct (LuaSet_then_LuaGet PROPERTY_COLOR [example_proxy; LVector3 1 2 3]
              example_state (mkNodeProxy O example_node) example_scene
              (mkInternalNode (default_node NODE_TYPE_BOX) 1 0 false)
              (mkVector4 1 2 3 0)
              eq_refl eq_refl eq_refl eq_refl eq_refl Hproperty)
    as (_ & _ & st' & Hset & Hget).
  exists st'. split; [exact Hset | apply Hget; reflexivity].
Defined.

Lemma LuaSet_changes_one_property_witness :
  exists st',
    LuaSet PROPERTY_COLOR [example_proxy; LVector3 1 2 3] example_state
    = Return tt st' /\
    lua_registry st' = lua_registry example_state /\
    LuaGet PROPERTY_POSITION [example_proxy] st'
    = in_state st' (LuaGet PROPERTY_POSITION [example_proxy] example_state).
Proof.
  eexists. split; [reflexivity |].
  assert (Hproperty : 0 <= PROPERTY_COLOR) by (unfold PROPERTY_COLOR; lia).
  destruct (LuaSet_changes_one_property PROPERTY_COLOR
              [example_proxy; LVector3 1 2 3] example_state _
              (mkNodeProxy O example_node) Hproperty eq_refl eq_refl)
    as (Hreg & _ & _ & _ & Hget & _).
  split; [exact Hreg |].
  apply Hget; unfold PROPERTY_POSITION, PROPERTY_COLOR; lia.
Defined.

Lemma LuaSet_last_write_wins_witness :
  exists st1 st2,
    LuaSet PROPERTY_SCALE [example_proxy; LVector3 1 2 3] example_state
    = Return tt st1 /\
    LuaSet PROPERTY_SCALE [example_proxy; LVector3 4 5 6] st1 = Return tt st2 /\
    LuaSet PROPERTY_SCALE [example_proxy; LVector3 4 5 6] example_state
    = Return tt st2.
Proof.
  do 2 eexists. split; [reflexivity |]. split; [reflexivity |].
  exact (LuaSet_last_write_wins PROPERTY_SCALE
           [example_proxy; LVector3 1 2 3] [example_proxy; LVector3 4 5 6]
           example_state _ _ eq_refl eq_refl eq_refl).
Defined.

Lemma LuaDeleteNode_twice_witness :
  exists st',
    LuaDeleteNode [example_proxy] example_state = Return tt st' /\
    LuaDeleteNode [example_proxy] st' = Return tt st'.
Proof.
  eexists. split; [reflexivity |].
  exact (LuaDeleteNode_twice [example_proxy] example_state _ eq_refl).
Defined.

Lemma LuaDeleteNode_LuaSet_commute_witness :
  exists st1 st12,
    LuaDeleteNode [example_proxy] example_state = Return tt st1 /\
    LuaSet PROPERTY_COLOR [example_proxy; LVector3 1 2 3] st1 = Return tt st12 /\
    exists st2,
      LuaSet PROPERTY_COLOR [example_proxy; LVector3 1 2 3] example_state
      = Return tt st2 /\
      LuaDeleteNode [example_proxy] st2 = Return tt st12.
Proof.
  do 2 eexists. split; [reflexivity |]. split; [reflexivity |].
  exact (LuaDeleteNode_LuaSet_commute PROPERTY_COLOR [example_proxy]
           [example_proxy; LVector3 1 2 3] example_state _ _ eq_refl eq_refl).
Defined.

Lemma LuaSetText_then_LuaGetText_witness :
  let s := String (Ascii.ascii_of_nat 97)
                  (String Ascii.zero (String (Ascii.ascii_of_nat 98) EmptyString)) in
  exists st',
    LuaSetText example_number2str [example_proxy; LString s] example_state
    = Return tt st' /\
    LuaGetText [example_proxy] st' = Return (LString "a") st'.
Proof.
  intros s.
  destruct (LuaSetText_then_LuaGetText example_number2str
              [example_proxy; LString s] example_state
              (mkNodeProxy O example_node) example_scene "a"
              eq_refl eq_refl eq_refl eq_refl)
    as (st' & Hset & Hget & _).
  exists st'. split; [exact Hset | apply Hget; reflexivity].
Defined.

Lemma LuaSetText_changes_only_the_text_witness :
  exists st',
    LuaSetText example_number2str [example_proxy; LString "score"] example_state
    = Return tt st' /\
    LuaGet PROPERTY_COLOR [example_proxy] st'
    = in_state st' (LuaGet PROPERTY_COLOR [example_proxy] example_state).
Proof.
  eexists. split; [reflexivity |].
  destruct (LuaSetText_changes_only_the_text example_number2str
              [example_proxy; LString "score"] example_state _
              (mkNodeProxy O example_node) eq_refl eq_refl)
    as (_ & _ & _ & _ & Hget & _).
  apply Hget.
Defined.

Lemma LuaSetBlendMode_takes_any_number_witness :
  exists st',
    LuaSetBlendMode (fun _ => None) (fun b => b) [example_proxy; LNumber 99]
                    example_state
    = Return tt st' /\
    LuaGetBlendMode [example_proxy] st' = Return (inject_Z 99) st'.
Proof.
  destruct (LuaSetBlendMode_takes_any_number (fun _ => None) (fun b => b)
              [example_proxy; LNumber 99] example_state
              (mkNodeProxy O example_node) example_scene 99
              eq_refl eq_refl eq_refl eq_refl)
    as (st' & Hset & Hget & _).
  exists st'. split; [exact Hset | apply Hget; reflexivity].
Defined.

Lemma LuaSetAnchor_accepts_its_two_constants_witness :
  LuaSetXAnchor (fun _ => None) 1 2 (fun sc _ _ => sc)
                [example_proxy; LNumber 0] example_state
  = RaiseF (ErrFormat "Invalid x-anchor: %d" [FmtInt 0]) example_state /\
  LuaSetYAnchor (fun _ => None) 1 2 (fun sc _ _ => sc)
                [example_proxy; LNumber 0] example_state
  = RaiseF (ErrFormat "Invalid y-anchor: %d" [FmtInt 0]) example_state.
Proof.
  pose proof (LuaSetAnchor_accepts_its_two_constants (fun _ => None) 1 2 1 2
                (fun sc _ _ => sc) (fun sc _ _ => sc)
                [example_proxy; LNumber 0] example_state
                (mkNodeProxy O example_node) example_scene 0
                eq_refl eq_refl (fits_int_Z 0 ltac:(vm_compute; split; discriminate))
                eq_refl eq_refl) as H.
  cbv zeta in H. destruct H as (Hx & _ & _ & Hy & _).
  split; [apply Hx | apply Hy]; discriminate.
Defined.

Lemma LuaCancelAnimation_checks_the_upper_bound_witness :
  LuaCancelAnimation (fun _ => None) CancelAnimation
    [example_proxy; LNumber 5] example_state
  = Raise (ErrInvalidPropertyIndex 5) example_state /\
  LuaCancelAnimation (fun _ => None) CancelAnimation
    [example_proxy; LNumber (-1)] example_state
  = Return tt (set_scenes [CancelAnimation example_scene example_node (-1)]
                          example_state).
Proof.
  split.
  - pose proof (LuaCancelAnimation_checks_the_upper_bound (fun _ => None)
                  CancelAnimation [example_proxy; LNumber 5] example_state
                  (mkNodeProxy O example_node) example_scene 5
                  eq_refl eq_refl
                  (fits_int_Z 5 ltac:(vm_compute; split; discriminate))
                  eq_refl eq_refl) as H.
    cbv zeta in H. apply (proj1 H). discriminate.
  - pose proof (LuaCancelAnimation_checks_the_upper_bound (fun _ => None)
                  CancelAnimation [example_proxy; LNumber (-1)] example_state
                  (mkNodeProxy O example_node) example_scene (-1)
                  eq_refl eq_refl
                  (fits_int_Z (-1) ltac:(vm_compute; split; discriminate))
                  eq_refl eq_refl) as H.
    cbv zeta in H. apply (proj2 H ltac:(vm_compute; reflexivity) O example_scene);
      reflexivity.
Defined.


Lemma LuaAnimate_takes_two_references_witness :
  let to := mkVector4 10 0 0 0 in
  let L := [example_proxy; LNumber 0; LVector4 to; LNumber 0; LNumber 1;
            LNumber 0; LFunction 7] in
  exists r1 r2 st1,
    LuaAnimate (fun _ => None) AnimateNode L example_state = Return tt st1 /\
    lua_scenes st1
    = [AnimateNode example_scene example_node 0 to 0 1%Q 0%Q
                   (Some LuaAnimationCompleteFn) r1 r2] /\
    r1 <> r2 /\
    registry_get (lua_registry st1) r1 = LFunction 7 /\
    registry_get (lua_registry st1) r2 = example_proxy.
Proof.
  intros to L.
  assert (Hp : to_int 0 < PROPERTY_COUNT) by (vm_compute; reflexivity).
  assert (He : to_int 0 < EASING_COUNT) by (vm_compute; reflexivity).
  destruct (LuaAnimate_takes_two_references (fun _ => None) AnimateNode L
              example_state (mkNodeProxy O example_node) example_scene
              0 0 1 0 to O example_scene
              eq_refl eq_refl eq_refl eq_refl eq_refl eq_refl eq_refl eq_refl
              eq_refl
              (fits_int_Z 0 ltac:(vm_compute; split; discriminate))
              (fits_int_Z 0 ltac:(vm_compute; split; discriminate))
              (is_float_Z 1 ltac:(reflexivity)) (is_float_Z 0 ltac:(reflexivity))
              Hp He eq_refl eq_refl)
    as (r1 & r2 & st1 & Hrun & Hscenes & Hne & _ & _ & Hf & Hn & _).
  exists r1, r2, st1.
  split; [exact Hrun |]. split; [exact Hscenes |]. split; [exact Hne |].
  split; [exact Hf | exact Hn].
Defined.

Lemma LuaAnimate_optional_arguments_witness :
  let to := LVector4 (mkVector4 10 0 0 0) in
  LuaAnimate (fun _ => None) AnimateNode
    [example_proxy; LNumber 0; to; LNumber 0; LNumber 1; LNil; LFunction 7]
    example_state
  = Raise (ErrType 6 "number") example_state /\
  LuaAnimate (fun _ => None) AnimateNode
    [example_proxy; LNumber 0; to; LNumber 0; LNumber 1; LNumber 2; LTable 3]
    example_state
  = on_scene (Some O)
      (fun sc => AnimateNode sc example_node 0 (mkVector4 10 0 0 0) 0 1%Q 2%Q
                             None 0 0)
      example_state.
Proof.
  intros to.
  assert (Hp : to_int 0 < PROPERTY_COUNT) by (vm_compute; reflexivity).
  assert (He : to_int 0 < EASING_COUNT) by (vm_compute; reflexivity).
  split.
  - pose proof (LuaAnimate_optional_arguments (fun _ => None) AnimateNode
                  [example_proxy; LNumber 0; to; LNumber 0; LNumber 1; LNil;
                   LFunction 7]
                  example_state (mkNodeProxy O example_node) example_scene
                  0 0 1 (mkVector4 10 0 0 0)
                  eq_refl eq_refl eq_refl eq_refl eq_refl eq_refl eq_refl
                  (fits_int_Z 0 ltac:(vm_compute; split; discriminate))
                  (fits_int_Z 0 ltac:(vm_compute; split; discriminate))
                  (is_float_Z 1 ltac:(reflexivity)) Hp He)
      as H.
    cbv zeta in H. destruct H as (_ & H & _).
    apply H; [discriminate | reflexivity].
  - pose proof (LuaAnimate_optional_arguments (fun _ => None) AnimateNode
                  [example_proxy; LNumber 0; to; LNumber 0; LNumber 1;
                   LNumber 2; LTable 3]
                  example_state (mkNodeProxy O example_node) example_scene
                  0 0 1 (mkVector4 10 0 0 0)
                  eq_refl eq_refl eq_refl eq_refl eq_refl eq_refl eq_refl
                  (fits_int_Z 0 ltac:(vm_compute; split; discriminate))
                  (fits_int_Z 0 ltac:(vm_compute; split; discriminate))
                  (is_float_Z 1 ltac:(reflexivity)) Hp He)
      as H.
    cbv zeta in H. destruct H as (_ & _ & H).
    apply (H 2%Q); [reflexivity | | reflexivity].
    exact (is_float_Z 2 ltac:(reflexivity)).
Defined.

Lemma LuaSetTexture_reports_the_result_witness :
  let core : SetNodeResourceFn :=
    fun sc _ name => (if String.eqb name "logo" then RESULT_OK else InvalidProperty, sc) in
  LuaSetTexture example_number2str core [example_proxy; LString "logo"]
                example_state
  = ReturnF tt example_state /\
  LuaSetTexture example_number2str core [example_proxy; LString "none"]
                example_state
  = RaiseF (ErrFormat "Texture %s is not specified in scene" [FmtStr "none"])
           example_state.
Proof.
  intros core. split.
  - reflexivity.
  - pose proof (LuaSetTexture_reports_the_result example_number2str core core
                  [example_proxy; LString "none"] example_state
                  (mkNodeProxy O example_node) example_scene "none"
                  O example_scene eq_refl eq_refl eq_refl eq_refl eq_refl eq_refl)
      as H.
    cbv zeta in H. destruct H as (_ & H & _).
    apply H. discriminate.
Defined.
